(** * lib/fileutils.c of util-linux: descriptor and file helpers

    A shallow embedding of [lib/fileutils.c] over an executable model of the
    part of the operating system the file talks to (descriptor table, name
    space, creation mask, errno), followed by the properties of
    [mkstemp_cloexec], [xmkstemp], [dup_fd_cloexec], [close_all_fds],
    [mkdir_p], [stripoff_last_component], [copy_file_simple] and
    [ul_copy_file].

    The C functions are state transformers on a [world]; an [int] result is
    a [Z].  What a system call does is fixed by the state, except for what
    the environment is free to choose: whether the call fails for a reason
    outside the state (every call can, unlink and mkdir included), how much
    a transfer moves and which size fstat reports.  These choices are read
    from an oracle, one event per call, so that every property below holds
    for every behaviour of the environment.  The process is sequential; the
    name space has directories and regular files (no links), and every open
    descriptor has a file of its own.  A component of a name has at most
    NAME_MAX characters; the limit PATH_MAX on a whole name is not enforced
    by the model and is a hypothesis of the properties that need it.  Loops
    whose end depends on the environment take a fuel and give [None] when it
    runs out. *)

From Stdlib Require Import ZArith Ascii String Lia.
From stdpp Require Import base option list gmap strings.

Local Open Scope string_scope.
Local Open Scope list_scope.
Local Open Scope Z_scope.

(** ** Constants of the C library headers *)

Module Errno.
Definition ENOENT : Z := 2.
Definition EINTR : Z := 4.
Definition EIO : Z := 5.
Definition EBADF : Z := 9.
Definition ENOMEM : Z := 12.
Definition EACCES : Z := 13.
Definition EEXIST : Z := 17.
Definition ENOTDIR : Z := 20.
Definition EISDIR : Z := 21.
Definition EINVAL : Z := 22.
Definition ENFILE : Z := 23.
Definition EMFILE : Z := 24.
Definition ENOSPC : Z := 28.
Definition EROFS : Z := 30.
Definition ERANGE : Z := 34.
Definition ENAMETOOLONG : Z := 36.
End Errno.
Import Errno.

(** <fcntl.h>, Linux generic ABI.  [FD_CLOEXEC] is a descriptor flag (the
    argument of F_SETFD), [O_CLOEXEC] an open(2) flag. *)
Definition FD_CLOEXEC : Z := 1.
Definition O_RDWR : Z := 2.
Definition O_CREAT : Z := 64.       (* 0100 *)
Definition O_EXCL : Z := 128.       (* 0200 *)
Definition O_CLOEXEC : Z := 524288. (* 02000000 *)

(** <limits.h>: the longest component of a name, and the length (with the
    NUL) from which on a name is refused. *)
Definition NAME_MAX : nat := 255.
Definition PATH_MAX : nat := 4096.

(** The mask 077 of xmkstemp: all group and other permission bits. *)
Definition S_IRWXG_S_IRWXO : Z := 63.

(** Build-time configuration: which of the [#ifdef] branches are compiled,
    and the values the headers and the C library fix. *)
Record platform := {
  HAVE_MKOSTEMP : bool;
  HAVE_F_DUPFD_CLOEXEC : bool;
  HAVE_SENDFILE : bool;
  (** the default directory for temporary files, from pathnames.h *)
  _PATH_TMP : string;
  (** what getdtablesize() / rlim_cur / sysconf() / OPEN_MAX gives *)
  FD_TABSIZE : Z;
  (** permission bits the C library passes to open(2) in mkstemp(3) *)
  MKSTEMP_PERM : Z;
  (** how many candidate names mkstemp(3) tries *)
  TMP_ATTEMPTS : nat
}.

(** ** The environment *)

(** Failures the environment can inject into a system call whatever the
    state is (interrupted call, no memory, no permission, ...). *)
Inductive fault := Eintr | Eio | Enomem | Eacces | Einval | Enfile | Emfile | Enospc | Erofs.

Definition errno_of (f : fault) : Z :=
  match f with
  | Eintr => EINTR | Eio => EIO | Enomem => ENOMEM | Eacces => EACCES
  | Einval => EINVAL | Enfile => ENFILE | Emfile => EMFILE
  | Enospc => ENOSPC | Erofs => EROFS
  end.

(** One event per system call: either the call is let through, with a free
    choice [n] of the environment (how many bytes a transfer takes, the size
    fstat reports, the seed of a random name), or it is made to fail. *)
Inductive event := Proceed (n : nat) | Fault (f : fault).

Inductive file_kind := Regular | Special.

(** An open descriptor: its close-on-exec flag, what fstat says, the bytes of
    the object behind it and the current offset. *)
Record open_file := {
  of_cloexec : bool;
  of_kind : file_kind;
  of_data : list Byte.byte;
  of_pos : nat
}.

Inductive inode := File (mode : Z) | Dir (mode : Z).

Inductive io_event :=
| IoRead (fd : Z) (bytes : list Byte.byte)
| IoWrite (fd : Z) (bytes : list Byte.byte).

(** Names are resolved to locations: the list of components from the root. *)
Abbreviation loc := (list string).

Record world := {
  w_fds : gmap Z open_file;      (* descriptor table *)
  w_fs : gmap loc inode;         (* name space below the root *)
  w_cwd : loc;                   (* working directory *)
  w_errno : Z;
  w_umask : Z;
  w_nofile : Z;                  (* RLIMIT_NOFILE *)
  w_tmpdir : option string;      (* getenv("TMPDIR") *)
  w_fddir : option (list string);(* names xreaddir yields from /proc/self/fd *)
  w_oracle : nat -> event;       (* what the environment will do *)
  w_clock : nat;                 (* number of events consumed *)
  w_io : list io_event           (* read/write calls made so far *)
}.

Definition set_fds (f : gmap Z open_file -> gmap Z open_file) (w : world) : world :=
  {| w_fds := f (w_fds w); w_fs := w_fs w; w_cwd := w_cwd w; w_errno := w_errno w;
     w_umask := w_umask w; w_nofile := w_nofile w; w_tmpdir := w_tmpdir w;
     w_fddir := w_fddir w; w_oracle := w_oracle w; w_clock := w_clock w;
     w_io := w_io w |}.

Definition set_fs (f : gmap loc inode -> gmap loc inode) (w : world) : world :=
  {| w_fds := w_fds w; w_fs := f (w_fs w); w_cwd := w_cwd w; w_errno := w_errno w;
     w_umask := w_umask w; w_nofile := w_nofile w; w_tmpdir := w_tmpdir w;
     w_fddir := w_fddir w; w_oracle := w_oracle w; w_clock := w_clock w;
     w_io := w_io w |}.

Definition set_errno (e : Z) (w : world) : world :=
  {| w_fds := w_fds w; w_fs := w_fs w; w_cwd := w_cwd w; w_errno := e;
     w_umask := w_umask w; w_nofile := w_nofile w; w_tmpdir := w_tmpdir w;
     w_fddir := w_fddir w; w_oracle := w_oracle w; w_clock := w_clock w;
     w_io := w_io w |}.

Definition set_umask (m : Z) (w : world) : world :=
  {| w_fds := w_fds w; w_fs := w_fs w; w_cwd := w_cwd w; w_errno := w_errno w;
     w_umask := m; w_nofile := w_nofile w; w_tmpdir := w_tmpdir w;
     w_fddir := w_fddir w; w_oracle := w_oracle w; w_clock := w_clock w;
     w_io := w_io w |}.

Definition tick (w : world) : world :=
  {| w_fds := w_fds w; w_fs := w_fs w; w_cwd := w_cwd w; w_errno := w_errno w;
     w_umask := w_umask w; w_nofile := w_nofile w; w_tmpdir := w_tmpdir w;
     w_fddir := w_fddir w; w_oracle := w_oracle w; w_clock := S (w_clock w);
     w_io := w_io w |}.

Definition log_io (e : io_event) (w : world) : world :=
  {| w_fds := w_fds w; w_fs := w_fs w; w_cwd := w_cwd w; w_errno := w_errno w;
     w_umask := w_umask w; w_nofile := w_nofile w; w_tmpdir := w_tmpdir w;
     w_fddir := w_fddir w; w_oracle := w_oracle w; w_clock := w_clock w;
     w_io := w_io w ++ [e] |}.

(** The event the next system call meets. *)
Definition next_event (w : world) : event * world :=
  (w_oracle w (w_clock w), tick w).

(** A failing call: -1 and errno. *)
Definition fail (e : Z) (w : world) : Z * world := (-1, set_errno e w).

(** ** Descriptor table *)

(** The lowest free descriptor in [fd, fd + n). *)
Fixpoint lowest_free (n : nat) (fd : Z) (fds : gmap Z open_file) : option Z :=
  match n with
  | O => None
  | S n' =>
      match fds !! fd with
      | None => Some fd
      | Some _ => lowest_free n' (fd + 1) fds
      end
  end.

(** Descriptors live in [0, RLIMIT_NOFILE). *)
Definition alloc_fd (low : Z) (w : world) : option Z :=
  lowest_free (Z.to_nat (w_nofile w - low)) low (w_fds w).

Definition with_cloexec (b : bool) (f : open_file) : open_file :=
  {| of_cloexec := b; of_kind := of_kind f; of_data := of_data f; of_pos := of_pos f |}.

(** close(2), as Linux does it: the descriptor is released even when the
    call reports an error. *)
Definition close (fd : Z) (w : world) : Z * world :=
  let '(ev, w) := next_event w in
  match w_fds w !! fd with
  | None => fail EBADF w
  | Some _ =>
      let w := set_fds (delete fd) w in
      match ev with
      | Fault f => fail (errno_of f) w
      | Proceed _ => (0, w)
      end
  end.

(** dup(2): the lowest free descriptor, close-on-exec off. *)
Definition dup (oldfd : Z) (w : world) : Z * world :=
  let '(ev, w) := next_event w in
  match w_fds w !! oldfd, ev with
  | None, _ => fail EBADF w
  | Some _, Fault f => fail (errno_of f) w
  | Some o, Proceed _ =>
      match alloc_fd 0 w with
      | None => fail EMFILE w
      | Some fd => (fd, set_fds <[fd := with_cloexec false o]> w)
      end
  end.

(** fcntl(oldfd, F_DUPFD_CLOEXEC, lowfd): the lowest free descriptor that is
    at least [lowfd], close-on-exec on. *)
Definition fcntl_dupfd_cloexec (oldfd lowfd : Z) (w : world) : Z * world :=
  let '(ev, w) := next_event w in
  match w_fds w !! oldfd, ev with
  | None, _ => fail EBADF w
  | Some _, Fault f => fail (errno_of f) w
  | Some o, Proceed _ =>
      if (lowfd <? 0) || (w_nofile w <=? lowfd) then fail EINVAL w
      else match alloc_fd lowfd w with
           | None => fail EMFILE w
           | Some fd => (fd, set_fds <[fd := with_cloexec true o]> w)
           end
  end.

(** fcntl(fd, F_GETFD) *)
Definition fcntl_getfd (fd : Z) (w : world) : Z * world :=
  let '(ev, w) := next_event w in
  match w_fds w !! fd, ev with
  | None, _ => fail EBADF w
  | Some _, Fault f => fail (errno_of f) w
  | Some o, Proceed _ => (if of_cloexec o then FD_CLOEXEC else 0, w)
  end.

(** fcntl(fd, F_SETFD, arg): only the FD_CLOEXEC bit of [arg] is looked at. *)
Definition fcntl_setfd (fd arg : Z) (w : world) : Z * world :=
  let '(ev, w) := next_event w in
  match w_fds w !! fd, ev with
  | None, _ => fail EBADF w
  | Some _, Fault f => fail (errno_of f) w
  | Some o, Proceed _ =>
      (0, set_fds <[fd := with_cloexec (negb (Z.land arg FD_CLOEXEC =? 0)) o]> w)
  end.

(** ** dup_fd_cloexec *)

(** The [unwind:] block of dup_fd_cloexec. *)
Definition dup_unwind (fd : Z) (w : world) : Z * world :=
  let errno_save := w_errno w in
  let '(_, w) := close fd w in
  (-1, set_errno errno_save w).

(** From [fd = dup(oldfd)] to the end of the function. *)
Definition dup_then_mark (oldfd : Z) (w : world) : Z * world :=
  let '(fd, w) := dup oldfd w in
  if fd <? 0 then (fd, w)
  else
    let '(flags, w) := fcntl_getfd fd w in
    if flags <? 0 then dup_unwind fd w
    else
      let '(r, w) := fcntl_setfd fd (Z.lor flags FD_CLOEXEC) w in
      if r <? 0 then dup_unwind fd w
      else (fd, w).

Definition dup_fd_cloexec (cfg : platform) (oldfd lowfd : Z) (w : world) : Z * world :=
  if HAVE_F_DUPFD_CLOEXEC cfg then
    let '(fd, w1) := fcntl_dupfd_cloexec oldfd lowfd w in
    if 0 <=? fd then (fd, w1)
    else dup_then_mark oldfd w1
  else dup_then_mark oldfd w.

(** ** Name space *)

(** strchr(p, '/') on a NUL-terminated string: the part before the first
    slash and, when there is a slash, the part after it. *)
Fixpoint break_slash (s : string) : string * option string :=
  match s with
  | EmptyString => (EmptyString, None)
  | String c s' =>
      if Ascii.eqb c "/" then (EmptyString, Some s')
      else let '(seg, e) := break_slash s' in (String c seg, e)
  end.

Definition nonempty_seg (s : string) : list string :=
  match s with EmptyString => [] | _ => [s] end.

(** The components of a path name; [acc] is the component being read. *)
Fixpoint split_from (acc : string) (s : string) : list string :=
  match s with
  | EmptyString => nonempty_seg acc
  | String c s' =>
      if Ascii.eqb c "/" then nonempty_seg acc ++ split_from EmptyString s'
      else split_from (acc +:+ String c EmptyString) s'
  end.

Definition split_path (s : string) : list string := split_from EmptyString s.

Definition is_absolute (s : string) : bool :=
  match s with
  | String c _ => Ascii.eqb c "/"
  | EmptyString => false
  end.

Inductive result (A : Type) := Ok (a : A) | Err (e : Z).
Arguments Ok {A} a.
Arguments Err {A} e.

(** The root always exists. *)
Definition node_at (fs : gmap loc inode) (l : loc) : option inode :=
  match l with
  | [] => Some (Dir 493)
  | _ => fs !! l
  end.

Definition parent (l : loc) : loc := removelast l.

(** One step of name resolution from directory [cur]; a component longer
    than NAME_MAX is refused. *)
Definition step (fs : gmap loc inode) (cur : loc) (c : string) : result loc :=
  match node_at fs cur with
  | None => Err ENOENT
  | Some (File _) => Err ENOTDIR
  | Some (Dir _) =>
      if String.eqb c "." then Ok cur
      else if String.eqb c ".." then
        match node_at fs (parent cur) with
        | Some (Dir _) => Ok (parent cur)
        | _ => Err ENOENT
        end
      else if (NAME_MAX <? String.length c)%nat then Err ENAMETOOLONG
      else Ok (cur ++ [c])
  end.

Fixpoint walk (fs : gmap loc inode) (cur : loc) (cs : list string) : result loc :=
  match cs with
  | [] => Ok cur
  | c :: cs' =>
      match step fs cur c with
      | Ok cur' => walk fs cur' cs'
      | Err e => Err e
      end
  end.

Definition start_of (w : world) (path : string) : loc :=
  if is_absolute path then [] else w_cwd w.

(** Where a name leads; every component but the last has to be a directory. *)
Definition resolve (w : world) (path : string) : result loc :=
  match path with
  | EmptyString => Err ENOENT
  | _ => walk (w_fs w) (start_of w path) (split_path path)
  end.

(** The inode a name refers to, if any. *)
Definition lookup_path (w : world) (path : string) : option inode :=
  match resolve w path with
  | Ok l => node_at (w_fs w) l
  | Err _ => None
  end.

(** Where a new entry called [path] would go: fails with EEXIST when the
    name is taken. *)
Definition create_target (w : world) (path : string) : result loc :=
  match resolve w path with
  | Err e => Err e
  | Ok l =>
      match node_at (w_fs w) l with
      | Some _ => Err EEXIST
      | None => Ok l
      end
  end.

(** Permission bits of a new inode: [mode & ~umask]. *)
Definition apply_umask (mode : Z) (w : world) : Z :=
  Z.land (Z.land mode 511) (Z.lnot (w_umask w)).

(** umask(2): installs the mask, returns the previous one, cannot fail. *)
Definition umask (mask : Z) (w : world) : Z * world :=
  (w_umask w, set_umask (Z.land mask 511) w).

(** mkdir(2).  A failure from outside (no permission on the way, an I/O
    error, no memory) is met while the name is walked, before the kernel
    finds out whether the name is taken. *)
Definition mkdir (path : string) (mode : Z) (w : world) : Z * world :=
  let '(ev, w) := next_event w in
  match ev with
  | Fault f => fail (errno_of f) w
  | Proceed _ =>
      match create_target w path with
      | Err e => fail e w
      | Ok l => (0, set_fs <[l := Dir (apply_umask mode w)]> w)
      end
  end.

(** unlink(2); like any other call it can be made to fail from outside. *)
Definition unlink (path : string) (w : world) : Z * world :=
  let '(ev, w) := next_event w in
  match ev with
  | Fault f => fail (errno_of f) w
  | Proceed _ =>
      match resolve w path with
      | Err e => fail e w
      | Ok l =>
          match w_fs w !! l with
          | None => fail ENOENT w
          | Some (Dir _) => fail EISDIR w
          | Some (File _) => (0, set_fs (delete l) w)
          end
      end
  end.

(** open(name, flags | O_CREAT | O_EXCL, mode) as the C library calls it
    from mkstemp: a new empty regular file and a descriptor for it. *)
Definition open_excl (name : string) (flags mode : Z) (w : world) : Z * world :=
  match create_target w name with
  | Err e => fail e w
  | Ok l =>
      match alloc_fd 0 w with
      | None => fail EMFILE w
      | Some fd =>
          let o := {| of_cloexec := negb (Z.land flags O_CLOEXEC =? 0);
                      of_kind := Regular; of_data := []; of_pos := 0 |} in
          (fd, set_fs <[l := File (apply_umask mode w)]> (set_fds <[fd := o]> w))
      end
  end.

(** ** Temporary files *)

Definition tmp_letters : string :=
  "abcdefghijklmnopqrstuvwxyzABCDEFGHIJKLMNOPQRSTUVWXYZ0123456789".

Definition tmp_letter (n : nat) : ascii :=
  match String.get (n mod 62) tmp_letters with
  | Some c => c
  | None => "a"%char
  end.

(** Six letters out of a seed. *)
Fixpoint tmp_suffix (k : nat) (seed : nat) : string :=
  match k with
  | O => EmptyString
  | S k' => String (tmp_letter seed) (tmp_suffix k' (seed / 62))
  end.

(** The template without its trailing "XXXXXX". *)
Definition template_stem (template : string) : option string :=
  let n := String.length template in
  if String.eqb (String.substring (n - 6) 6 template) "XXXXXX"
  then Some (String.substring 0 (n - 6) template)
  else None.

(** The C library's loop over candidate names: a taken name is skipped. *)
Fixpoint gen_tempname (attempts seed : nat) (stem : string) (flags mode : Z)
    (w : world) : Z * string * world :=
  match attempts with
  | O => (-1, stem +:+ tmp_suffix 6 seed, set_errno EEXIST w)
  | S k =>
      let name := stem +:+ tmp_suffix 6 seed in
      let '(fd, w') := open_excl name flags mode w in
      if (fd <? 0) && (w_errno w' =? EEXIST)
      then gen_tempname k (S seed) stem flags mode w
      else (fd, name, w')
  end.

(** mkostemp(3); the buffer [template] comes back holding the name. *)
Definition mkostemp (cfg : platform) (template : string) (flags : Z) (w : world)
    : Z * string * world :=
  let '(ev, w) := next_event w in
  match ev with
  | Fault f => (-1, template, set_errno (errno_of f) w)
  | Proceed seed =>
      match template_stem template with
      | None => (-1, template, set_errno EINVAL w)
      | Some stem =>
          gen_tempname (TMP_ATTEMPTS cfg) seed stem flags (MKSTEMP_PERM cfg) w
      end
  end.

(** mkstemp(3) is mkostemp with no extra flag. *)
Definition mkstemp (cfg : platform) (template : string) (w : world)
    : Z * string * world :=
  mkostemp cfg template 0 w.

(** The [unwind:] block of mkstemp_cloexec. *)
Definition mkstemp_unwind (template : string) (fd : Z) (w : world) : Z * world :=
  let errno_save := w_errno w in
  let '(_, w) := unlink template w in
  let '(_, w) := close fd w in
  (-1, set_errno errno_save w).

Definition mkstemp_cloexec (cfg : platform) (template : string) (w : world)
    : Z * string * world :=
  if HAVE_MKOSTEMP cfg then
    mkostemp cfg template (Z.lor (Z.lor (Z.lor O_RDWR O_CREAT) O_EXCL) O_CLOEXEC) w
  else
    let '(fd, template, w) := mkstemp cfg template w in
    if fd <? 0 then (fd, template, w)
    else
      let '(old_flags, w) := fcntl_getfd fd w in
      if old_flags <? 0 then
        let '(r, w) := mkstemp_unwind template fd w in (r, template, w)
      else
        let '(r, w) := fcntl_setfd fd (Z.lor old_flags O_CLOEXEC) w in
        if r <? 0 then
          let '(r, w) := mkstemp_unwind template fd w in (r, template, w)
        else (fd, template, w).

(** asprintf(&localtmp, "%s/%s.XXXXXX", tmpenv, prefix): the string, or
    nothing when there is no memory. *)
Definition asprintf_template (tmpenv prefix : string) (w : world)
    : option string * world :=
  let '(ev, w) := next_event w in
  match ev with
  | Fault f => (None, set_errno ENOMEM w)
  | Proceed _ => (Some (tmpenv +:+ "/" +:+ prefix +:+ ".XXXXXX"), w)
  end.

(** Returns the descriptor and what [*tmpname] is set to ([None] for NULL;
    the early return leaves [*tmpname] alone, which is [None] here too). *)
Definition xmkstemp (cfg : platform) (dir : option string) (prefix : string)
    (w : world) : Z * option string * world :=
  let tmpenv := match dir with Some d => Some d | None => w_tmpdir w end in
  let tmpenv := match tmpenv with Some d => d | None => _PATH_TMP cfg end in
  let '(localtmp, w) := asprintf_template tmpenv prefix w in
  match localtmp with
  | None => (-1, None, w)
  | Some localtmp =>
      let '(old_mode, w) := umask S_IRWXG_S_IRWXO w in
      let '(fd, localtmp, w) := mkstemp_cloexec cfg localtmp w in
      let '(_, w) := umask old_mode w in
      if fd =? -1 then (fd, None, w)
      else (fd, Some localtmp, w)
  end.

(** ** close_all_fds *)

(** <limits.h> on an LP64 machine; [int] has 32 bits. *)
Definition LONG_MAX : Z := 9223372036854775807.
Definition LONG_MIN : Z := -9223372036854775808.

(** Conversion of a [long] to [int]: the value modulo 2^32, as gcc does. *)
Definition to_int (z : Z) : Z := (z + 2147483648) mod 4294967296 - 2147483648.

Definition isspace (c : ascii) : bool :=
  let n := nat_of_ascii c in
  (n =? 32)%nat || ((9 <=? n)%nat && (n <=? 13)%nat).

Definition digit_of (c : ascii) : option Z :=
  let n := nat_of_ascii c in
  if (48 <=? n)%nat && (n <=? 57)%nat then Some (Z.of_nat n - 48) else None.

Fixpoint skip_spaces (s : string) : nat * string :=
  match s with
  | String c s' =>
      if isspace c then let '(k, r) := skip_spaces s' in (S k, r) else (O, s)
  | EmptyString => (O, s)
  end.

(** An optional sign: how many characters it takes, and whether it is '-'. *)
Definition read_sign (s : string) : nat * bool * string :=
  match s with
  | String c s' =>
      if Ascii.eqb c "-" then (1%nat, true, s')
      else if Ascii.eqb c "+" then (1%nat, false, s')
      else (O, false, s)
  | EmptyString => (O, false, s)
  end.

(** The leading decimal digits: how many, and their value added to [acc]. *)
Fixpoint read_digits (acc : Z) (s : string) : nat * Z :=
  match s with
  | String c s' =>
      match digit_of c with
      | Some d => let '(k, v) := read_digits (10 * acc + d) s' in (S k, v)
      | None => (O, acc)
      end
  | EmptyString => (O, acc)
  end.

(** What strtol(nptr, &end, 10) converts: the value, [end] as an offset into
    [nptr], and whether the value was out of range.  Without a digit nothing
    is converted and [end] is [nptr]; a value that does not fit a [long] is
    clamped. *)
Definition strtol_parse (nptr : string) : Z * nat * bool :=
  let '(nsp, s1) := skip_spaces nptr in
  let '(nsg, neg, s2) := read_sign s1 in
  let '(nd, v) := read_digits 0 s2 in
  match nd with
  | O => (0, O, false)
  | _ =>
      let v := if neg then - v else v in
      let end_ := (nsp + nsg + nd)%nat in
      if v >? LONG_MAX then (LONG_MAX, end_, true)
      else if v <? LONG_MIN then (LONG_MIN, end_, true)
      else (v, end_, false)
  end.

(** strtol(3): errno becomes ERANGE when the value is out of range and is
    left alone otherwise. *)
Definition strtol (nptr : string) (w : world) : Z * nat * world :=
  let '(v, end_, overflow) := strtol_parse nptr in
  (v, end_, if overflow then set_errno ERANGE w else w).

(** The array [set] of [setsz] ints is the list [set]. *)
Fixpoint in_set (x : Z) (set : list Z) : bool :=
  match set with
  | [] => false
  | y :: set' => if y =? x then true else in_set x set'
  end.

(** A directory stream on /proc/self/fd: its descriptor and the entries
    still to come. *)
Definition DIR : Type := Z * list string.

Definition dirfd (dir : DIR) : Z := fst dir.

(** opendir(_PATH_PROC_FDDIR) *)
Definition opendir_fddir (w : world) : option DIR * world :=
  let '(ev, w) := next_event w in
  match w_fddir w, ev with
  | None, _ => (None, set_errno ENOENT w)
  | Some _, Fault f => (None, set_errno (errno_of f) w)
  | Some names, Proceed _ =>
      match alloc_fd 0 w with
      | None => (None, set_errno EMFILE w)
      | Some fd =>
          let o := {| of_cloexec := true; of_kind := Special;
                      of_data := []; of_pos := 0 |} in
          (Some (fd, names), set_fds <[fd := o]> w)
      end
  end.

Definition closedir (dir : DIR) (w : world) : Z * world := close (dirfd dir) w.

(** The body of [while ((d = xreaddir(dir)))] for the entry [d_name];
    [end] is never NULL after strtol. *)
Definition sweep_entry (dir : DIR) (d_name : string) (exclude : list Z)
    (w : world) : world :=
  let w := set_errno 0 w in
  let '(l, end_, w) := strtol d_name w in
  let fd := to_int l in
  if negb (w_errno w =? 0) || (end_ =? 0)%nat || (end_ <? String.length d_name)%nat
  then w
  else if dirfd dir =? fd then w
  else if in_set fd exclude then w
  else snd (close fd w).

(** The loop.  xreaddir is declared in include/fileutils.h, outside this
    file; [names] is the sequence of entries it hands out before it returns
    NULL, whatever it leaves out of the directory. *)
Fixpoint sweep_entries (fd : Z) (names : list string) (exclude : list Z)
    (w : world) : world :=
  match names with
  | [] => w
  | d_name :: rest =>
      sweep_entries fd rest exclude (sweep_entry (fd, names) d_name exclude w)
  end.

Definition get_fd_tabsize (cfg : platform) : Z := FD_TABSIZE cfg.

(** [for (fd = ...; fd < tbsz; fd++)] with [n] iterations left. *)
Fixpoint sweep_range (n : nat) (fd : Z) (exclude : list Z) (w : world) : world :=
  match n with
  | O => w
  | S n' =>
      let w := if in_set fd exclude then w else snd (close fd w) in
      sweep_range n' (fd + 1) exclude w
  end.

Definition close_all_fds (cfg : platform) (exclude : list Z) (w : world) : world :=
  let '(dir, w) := opendir_fddir w in
  match dir with
  | Some dir =>
      let w := sweep_entries (fst dir) (snd dir) exclude w in
      snd (closedir dir w)
  | None =>
      let tbsz := get_fd_tabsize cfg in
      sweep_range (Z.to_nat tbsz) 0 exclude w
  end.

(** The descriptor an entry name stands for when strtol converts all of it
    without a range error: the value, as an [int]. *)
Definition strtol_accepts (d_name : string) : option Z :=
  let '(v, end_, overflow) := strtol_parse d_name in
  if overflow || (end_ =? 0)%nat || (end_ <? String.length d_name)%nat
  then None
  else Some (to_int v).

(** The value of a string made of decimal digits only. *)
Fixpoint digits_value (acc : Z) (s : string) : option Z :=
  match s with
  | EmptyString => Some acc
  | String c s' =>
      match digit_of c with
      | Some d => digits_value (10 * acc + d) s'
      | None => None
      end
  end.

(** The descriptor of an entry as the specification reads it: the name is a
    non-empty string of decimal digits and nothing else. *)
Definition pure_digit_name (d_name : string) : option Z :=
  match d_name with
  | EmptyString => None
  | _ => digits_value 0 d_name
  end.

Definition starts_with (P : ascii -> bool) (s : string) : bool :=
  match s with
  | String c _ => P c
  | EmptyString => false
  end.

Fixpoint all_space (s : string) : bool :=
  match s with
  | EmptyString => true
  | String c s' => isspace c && all_space s'
  end.

(** The names strtol converts in full, spelled out: white space, then an
    optional sign, then decimal digits and nothing else, with a value that
    fits a [long]; [x] is that value as an [int]. *)
Definition strtol_shape (d_name : string) (x : Z) : Prop :=
  exists sp sg ds v,
    d_name = sp +:+ sg +:+ ds /\ all_space sp = true /\
    (sg = "" \/ sg = "+" \/ sg = "-") /\
    pure_digit_name ds = Some v /\
    LONG_MIN <= (if String.eqb sg "-" then - v else v) <= LONG_MAX /\
    x = to_int (if String.eqb sg "-" then - v else v).

(** Descriptor [x] is named by an entry that the reading [accept] takes, is
    not the descriptor of the stream and is not excluded. *)
Definition swept (accept : string -> option Z) (dfd : Z) (exclude : list Z)
    (names : list string) (x : Z) : Prop :=
  exists d_name,
    d_name ∈ names /\ accept d_name = Some x /\ x <> dfd /\ in_set x exclude = false.

(** ** mkdir_p *)

(** strdup(3) *)
Definition strdup (s : string) (w : world) : option string * world :=
  let '(ev, w) := next_event w in
  match ev with
  | Fault _ => (None, set_errno ENOMEM w)
  | Proceed _ => (Some s, w)
  end.

(** The [while (p && *p)] loop.  The buffer [dir] is [done] followed by [p];
    cutting it at [e] leaves [done] and the segment in front of [e].  The
    loop stops with [None] when [fuel] runs out. *)
Fixpoint mkdir_p_loop (fuel : nat) (done p : string) (mode rc : Z) (w : world)
    : option (Z * world) :=
  match p with
  | EmptyString => Some (rc, w)
  | _ =>
      match fuel with
      | O => None
      | S fuel' =>
          let '(seg, e) := break_slash p in
          let '(stop, rc, w) :=
            match seg with
            | EmptyString => (false, rc, w)
            | _ =>
                let '(rc, w) := mkdir (done +:+ seg) mode w in
                if negb (rc =? 0) && negb (w_errno w =? EEXIST)
                then (true, rc, w)
                else (false, 0, w)
            end in
          if stop : bool then Some (rc, w)
          else
            match e with
            | None => Some (rc, w)
            | Some p' => mkdir_p_loop fuel' (done +:+ seg +:+ "/") p' mode rc w
            end
      end
  end.

(** [None] for the path is NULL. *)
Definition mkdir_p (path : option string) (mode : Z) (w : world)
    : option (Z * world) :=
  match path with
  | None | Some EmptyString => Some (- EINVAL, w)
  | Some path =>
      let '(dir, w) := strdup path w in
      match dir with
      | None => Some (- ENOMEM, w)
      | Some dir =>
          let '(done, p) :=
            match dir with
            | String c p' => if Ascii.eqb c "/" then ("/", p') else ("", dir)
            | EmptyString => ("", dir)
            end in
          mkdir_p_loop (S (String.length p)) done p mode 0 w
      end
  end.

(** *** The algorithm as the specification words it

    "Walk the path left to right, splitting at each slash; after each segment,
    attempt to create the directory accumulated so far; an already-exists
    failure is not an error and processing continues; any other creation
    failure aborts immediately and is reported." *)

(** The directory accumulated so far after each non-empty segment of [s];
    [done] has been walked already and [seg] is the segment being read. *)
Fixpoint prefixes_from (done seg : string) (s : string) : list string :=
  match s with
  | EmptyString =>
      match seg with
      | EmptyString => []
      | _ => [done +:+ seg]
      end
  | String c s' =>
      if Ascii.eqb c "/" then
        match seg with
        | EmptyString => prefixes_from (done +:+ "/") EmptyString s'
        | _ => (done +:+ seg) :: prefixes_from (done +:+ seg +:+ "/") EmptyString s'
        end
      else prefixes_from done (seg +:+ String c EmptyString) s'
  end.

Definition segment_prefixes (path : string) : list string :=
  prefixes_from EmptyString EmptyString path.

Fixpoint create_all (dirs : list string) (mode : Z) (w : world) : Z * world :=
  match dirs with
  | [] => (0, w)
  | d :: dirs' =>
      let '(rc, w1) := mkdir d mode w in
      if rc =? 0 then create_all dirs' mode w1
      else if w_errno w1 =? EEXIST then create_all dirs' mode w1
      else (rc, w1)
  end.

Definition is_dir (n : inode) : Prop :=
  match n with Dir _ => True | File _ => False end.

(** The non-empty initial segments of [l], each behind [pre]. *)
Fixpoint inits_from {A} (pre l : list A) : list (list A) :=
  match l with
  | [] => []
  | x :: l' => (pre ++ [x]) :: inits_from (pre ++ [x]) l'
  end.

Fixpoint noslash (s : string) : bool :=
  match s with
  | EmptyString => true
  | String c s' => negb (Ascii.eqb c "/") && noslash s'
  end.

(** [done] ends where a component ends: what follows is split on its own. *)
Definition boundary (done : string) (cs0 : list string) : Prop :=
  forall t, split_from "" (done +:+ t) = cs0 ++ split_from "" t.

(** From [w] to [w'] the name space has only gained directories. *)
Definition grows (w w' : world) : Prop :=
  w_fs w ⊆ w_fs w' /\ w_cwd w' = w_cwd w /\
  forall l n, w_fs w' !! l = Some n -> w_fs w !! l = Some n \/ is_dir n.


(** ** stripoff_last_component *)

(** strrchr(s, '/'): the offset of the last slash of [s], if it has one. *)
Fixpoint strrchr_slash (s : string) : option nat :=
  match s with
  | EmptyString => None
  | String c s' =>
      match strrchr_slash s' with
      | Some i => Some (S i)
      | None => if Ascii.eqb c "/" then Some O else None
      end
  end.

(** The C string that starts at [s + off]. *)
Fixpoint string_at (s : string) (off : nat) {struct off} : string :=
  match off, s with
  | S k, String _ s' => string_at s' k
  | _, _ => s
  end.

(** The C string at [s] once a NUL is stored at [s + off]. *)
Fixpoint cut_at (s : string) (off : nat) {struct off} : string :=
  match off, s with
  | S k, String c s' => String c (cut_at s' k)
  | _, _ => EmptyString
  end.

(** [path] points to a NUL-terminated buffer or is NULL ([None]).  The
    result is the string the returned pointer points to ([None] for NULL)
    and what [path] holds when the function returns. *)
Definition stripoff_last_component (path : option string)
    : option string * option string :=
  match path with
  | None => (None, None)
  | Some s =>
      match strrchr_slash s with
      | None => (None, Some s)
      | Some p => (Some (string_at s (S p)), Some (cut_at s p))
      end
  end.

(** ** Copying *)

Definition x00 : Byte.byte := Byte.x00.

(** The bytes of a file after [chunk] is written at offset [pos]; a write
    past the end leaves a hole of zeros, a write of nothing changes nothing. *)
Definition pwrite (data : list Byte.byte) (pos : nat) (chunk : list Byte.byte)
    : list Byte.byte :=
  match chunk with
  | [] => data
  | _ =>
      take pos data ++ replicate (pos - length data) x00 ++ chunk
        ++ drop (pos + length chunk) data
  end.

Definition advance (k : nat) (o : open_file) : open_file :=
  {| of_cloexec := of_cloexec o; of_kind := of_kind o; of_data := of_data o;
     of_pos := (of_pos o + k)%nat |}.

Definition put (chunk : list Byte.byte) (o : open_file) : open_file :=
  {| of_cloexec := of_cloexec o; of_kind := of_kind o;
     of_data := pwrite (of_data o) (of_pos o) chunk;
     of_pos := (of_pos o + length chunk)%nat |}.

(** What is left to read behind a descriptor. *)
Definition unread (o : open_file) : list Byte.byte := drop (of_pos o) (of_data o).

(** How many bytes a read or a sendfile moves: at least one while there is
    something left and [count] is positive, never more than the
    environment allows. *)
Definition moved (n : nat) (count : Z) (avail : list Byte.byte) : nat :=
  Nat.min (Nat.max 1 n) (Nat.min (Z.to_nat count) (length avail)).

(** read(fd, buf, count): the return value and the bytes put in [buf]. *)
Definition read (fd : Z) (count : Z) (w : world) : Z * list Byte.byte * world :=
  let '(ev, w) := next_event w in
  match w_fds w !! fd, ev with
  | None, _ => (-1, [], set_errno EBADF w)
  | Some _, Fault f => (-1, [], set_errno (errno_of f) w)
  | Some o, Proceed n =>
      let chunk := take (moved n count (unread o)) (unread o) in
      (Z.of_nat (length chunk), chunk,
       log_io (IoRead fd chunk) (set_fds <[fd := advance (length chunk) o]> w))
  end.

(** write(fd, bytes, length bytes): the environment decides how much of it
    is taken; that may be nothing at all. *)
Definition write (fd : Z) (bytes : list Byte.byte) (w : world) : Z * world :=
  let '(ev, w) := next_event w in
  match w_fds w !! fd, ev with
  | None, _ => fail EBADF w
  | Some _, Fault f => fail (errno_of f) w
  | Some o, Proceed n =>
      let chunk := take n bytes in
      (Z.of_nat (length chunk),
       log_io (IoWrite fd chunk) (set_fds <[fd := put chunk o]> w))
  end.

(** fstat(fd, &st): the return value, S_ISREG(st.st_mode) and st.st_size.
    The size is what the environment reports ([n]): it need not be the
    number of bytes that can be read (a file of a pseudo file system reports
    0 or a page, a file may grow or shrink before it is read), which is why
    ul_copy_file takes it as advisory. *)
Definition fstat (fd : Z) (w : world) : Z * bool * Z * world :=
  let '(ev, w) := next_event w in
  match w_fds w !! fd, ev with
  | None, _ => (-1, false, 0, set_errno EBADF w)
  | Some _, Fault f => (-1, false, 0, set_errno (errno_of f) w)
  | Some o, Proceed n =>
      (0, match of_kind o with Regular => true | Special => false end,
       Z.of_nat n, w)
  end.

(** sendfile(out_fd, in_fd, NULL, count): moves bytes inside the kernel
    from the offset of [in_fd] to the offset of [out_fd]. *)
Definition sendfile (out_fd in_fd : Z) (count : Z) (w : world) : Z * world :=
  let '(ev, w) := next_event w in
  match w_fds w !! in_fd, w_fds w !! out_fd, ev with
  | None, _, _ | _, None, _ => fail EBADF w
  | Some _, Some _, Fault f => fail (errno_of f) w
  | Some i, Some _, Proceed n =>
      match of_kind i with
      | Special => fail EINVAL w
      | Regular =>
          let chunk := take (moved n count (unread i)) (unread i) in
          let w := set_fds <[in_fd := advance (length chunk) i]> w in
          match w_fds w !! out_fd with
          | None => fail EBADF w
          | Some o => (Z.of_nat (length chunk), set_fds <[out_fd := put chunk o]> w)
          end
      end
  end.

Definition BUFSZ : Z := 8 * 1024.

(** The inner loop of copy_file_simple:
    [for (off = 0; nr > 0; nr -= nw, off += nw)]. *)
Fixpoint write_chunk (fuel : nat) (to : Z) (buf : list Byte.byte) (off nr : Z)
    (w : world) : option (Z * world) :=
  if nr >? 0 then
    match fuel with
    | O => None
    | S fuel' =>
        let '(nw, w) := write to (take (Z.to_nat nr) (drop (Z.to_nat off) buf)) w in
        if nw <? 0 then Some (-2, w)
        else write_chunk fuel' to buf (off + nw) (nr - nw) w
    end
  else Some (0, w).

(** [None] when [fuel] runs out before the loops end.  The explicit_bzero
    of the buffer at the end has no effect on the state. *)
Fixpoint copy_file_simple (fuel : nat) (from to : Z) (w : world)
    : option (Z * world) :=
  match fuel with
  | O => None
  | S fuel' =>
      let '(nr, buf, w) := read from BUFSZ w in
      if nr >? 0 then
        match write_chunk fuel' to buf 0 nr w with
        | None => None
        | Some (r, w) =>
            if r <? 0 then Some (r, w)
            else copy_file_simple fuel' from to w
        end
      else if nr <? 0 then Some (-1, w)
      else Some (0, w)
  end.

(** How a loop of the sendfile path ends. *)
Inductive fast_exit := LoopDone | ReturnZero | FallBack.

(** [for (left = st.st_size; left != 0; left -= nw)] *)
Fixpoint sendfile_sized (fuel : nat) (from to : Z) (left : Z) (w : world)
    : option (fast_exit * world) :=
  if left =? 0 then Some (LoopDone, w)
  else
    match fuel with
    | O => None
    | S fuel' =>
        let '(nw, w) := sendfile to from left w in
        if nw <? 0 then Some (FallBack, w)
        else if nw =? 0 then Some (ReturnZero, w)
        else sendfile_sized fuel' from to (left - nw) w
    end.

(** [while ((nw = sendfile(to, from, NULL, 1024*1024)) != 0)] *)
Fixpoint sendfile_drain (fuel : nat) (from to : Z) (w : world)
    : option (fast_exit * world) :=
  match fuel with
  | O => None
  | S fuel' =>
      let '(nw, w) := sendfile to from (1024 * 1024) w in
      if negb (nw =? 0) then
        if nw <? 0 then Some (FallBack, w)
        else sendfile_drain fuel' from to w
      else Some (LoopDone, w)
  end.

Definition ul_copy_file (cfg : platform) (fuel : nat) (from to : Z) (w : world)
    : option (Z * world) :=
  if HAVE_SENDFILE cfg then
    let '(r, isreg, st_size, w) := fstat from w in
    if r =? -1 then Some (-1, w)
    else if negb isreg then copy_file_simple fuel from to w
    else
      match sendfile_sized fuel from to st_size w with
      | None => None
      | Some (FallBack, w) => copy_file_simple fuel from to w
      | Some (ReturnZero, w) => Some (0, w)
      | Some (LoopDone, w) =>
          match sendfile_drain fuel from to w with
          | None => None
          | Some (FallBack, w) => copy_file_simple fuel from to w
          | Some (_, w) => Some (0, w)
          end
      end
  else copy_file_simple fuel from to w.

(** *** Notions the properties of the copy are stated with *)

(** What is left to read behind descriptor [fd]. *)
Definition unread_of (w : world) (fd : Z) : list Byte.byte :=
  match w_fds w !! fd with
  | Some o => unread o
  | None => []
  end.

(** In [w], [jr] bytes of what was left of [src] have been read from [from]
    and the first [jw] of them written to [to]. *)
Definition copying (from to : Z) (src dst : open_file) (jr jw : nat) (w : world)
    : Prop :=
  w_fds w !! from = Some (advance jr src) /\
  w_fds w !! to = Some (put (take jw (unread src)) dst) /\
  (jw <= jr <= length (unread src))%nat.

(** A log in which every read of [from] comes when all that was read before
    has been written to [to]: [pending] is what is read and not yet
    written. *)
Fixpoint flushed (from to : Z) (pending : list Byte.byte) (log : list io_event)
    : Prop :=
  match log with
  | [] => True
  | IoRead fd bytes :: log' =>
      fd = from /\ pending = [] /\ flushed from to bytes log'
  | IoWrite fd bytes :: log' =>
      fd = to /\ exists rest, pending = bytes ++ rest /\ flushed from to rest log'
  end.

(** From now on no call is answered with "zero bytes taken". *)
Definition write_progress (w : world) : Prop :=
  forall t, (w_clock w <= t)%nat -> w_oracle w t <> Proceed 0.

(** From now on every call is answered with "zero bytes taken". *)
Definition write_stalls (w : world) : Prop :=
  forall t, (w_clock w <= t)%nat -> w_oracle w t = Proceed 0.

(** [n] turns of the loop [for (left = ...; left != 0; left -= nw)] of
    ul_copy_file in which sendfile moved something, from counter [left] in
    state [w] to counter [left'] in state [w']. *)
Inductive sized_run (from to : Z) : nat -> Z -> world -> Z -> world -> Prop :=
| sized_run_here left w : sized_run from to O left w left w
| sized_run_turn n left w nw w1 left' w' :
    left <> 0 ->
    sendfile to from left w = (nw, w1) ->
    0 < nw ->
    sized_run from to n (left - nw) w1 left' w' ->
    sized_run from to (S n) left w left' w'.

(** From now on the environment makes no call fail. *)
Definition no_fault (w : world) : Prop :=
  forall t f, (w_clock w <= t)%nat -> w_oracle w t <> Fault f.

(** From [w] to [w'] no descriptor was opened or closed, none but [from] and
    [to] was touched, and the name space is the same. *)
Definition only_touches (from to : Z) (w w' : world) : Prop :=
  (forall fd, fd <> from -> fd <> to -> w_fds w' !! fd = w_fds w !! fd) /\
  (forall fd, is_Some (w_fds w' !! fd) <-> is_Some (w_fds w !! fd)) /\
  w_fs w' = w_fs w /\ w_umask w' = w_umask w.

(** The state after a call that left the descriptor table alone. *)
Definition quiet_step (w w1 : world) : Prop :=
  w_fds w1 = w_fds w /\ w_oracle w1 = w_oracle w /\ (w_clock w <= w_clock w1)%nat.

(** ** Sample configurations and states *)

Module Sample.
(** A build without any of the optional primitives, and a Linux build. *)
Definition portable : platform :=
  {| HAVE_MKOSTEMP := false; HAVE_F_DUPFD_CLOEXEC := false;
     HAVE_SENDFILE := false; _PATH_TMP := "/tmp/"; FD_TABSIZE := 1024;
     MKSTEMP_PERM := 384; TMP_ATTEMPTS := 100 |}.

Definition linux : platform :=
  {| HAVE_MKOSTEMP := true; HAVE_F_DUPFD_CLOEXEC := true;
     HAVE_SENDFILE := true; _PATH_TMP := "/tmp/"; FD_TABSIZE := 1024;
     MKSTEMP_PERM := 384; TMP_ATTEMPTS := 100 |}.

Definition tty : open_file :=
  {| of_cloexec := false; of_kind := Special; of_data := []; of_pos := 0 |}.

Definition world_of (fds : gmap Z open_file) (fs : gmap loc inode)
    (fddir : option (list string)) (oracle : nat -> event) : world :=
  {| w_fds := fds; w_fs := fs; w_cwd := []; w_errno := 0; w_umask := 18;
     w_nofile := 1024; w_tmpdir := None; w_fddir := fddir;
     w_oracle := oracle; w_clock := 0; w_io := [] |}.

Definition stdio : gmap Z open_file := <[0 := tty]> (<[1 := tty]> (<[2 := tty]> ∅)).

Definition calm : nat -> event := fun _ => Proceed 4096.

(** The environment follows the script, then lets everything through. *)
Definition script (l : list event) : nat -> event :=
  fun t => nth t l (Proceed 4096).

(** stdin, stdout and stderr open, an empty /tmp, no failure ahead. *)
Definition w_std : world := world_of stdio (<[ ["tmp"] := Dir 511 ]> ∅) None calm.

(** The same with the events to come written down. *)
Definition w_script (l : list event) : world :=
  world_of stdio (<[ ["tmp"] := Dir 511 ]> ∅) None (script l).

(** Descriptors 0, 1, 2, 5, 6 and 7 open, and a /proc/self/fd that lists
    [names]. *)
Definition six : gmap Z open_file :=
  <[5 := tty]> (<[6 := tty]> (<[7 := tty]> stdio)).

Definition w_listing (names : list string) : world :=
  world_of six ∅ (Some names) calm.

(** A regular file called /a and nothing else. *)
Definition w_file_a : world :=
  world_of stdio (<[ ["a"] := File 420 ]> ∅) None calm.

(** Descriptor 3 open on a regular file holding [data], at offset [pos];
    descriptor 4 open on an empty regular file. *)
Definition file_of (data : list Byte.byte) (pos : nat) : open_file :=
  {| of_cloexec := false; of_kind := Regular; of_data := data; of_pos := pos |}.

Definition w_copy (data : list Byte.byte) (pos : nat) (oracle : nat -> event) : world :=
  world_of (<[3 := file_of data pos]> (<[4 := file_of [] 0]> stdio)) ∅ None oracle.

Definition five : list Byte.byte := [Byte.x01; Byte.x02; Byte.x03; Byte.x04; Byte.x05].

(** The first call goes through, every later one is answered with "zero
    bytes taken". *)
Definition stalling : nat -> event :=
  fun t => match t with O => Proceed 1 | S _ => Proceed 0 end.

(** What a copy returned and what descriptor [fd] holds after it. *)
Definition outcome (fd : Z) (r : option (Z * world)) : option (Z * list Byte.byte) :=
  match r with
  | Some (rc, w') =>
      match w_fds w' !! fd with
      | Some o => Some (rc, of_data o)
      | None => None
      end
  | None => None
  end.
End Sample.

(** * Properties *)

(** ** Descriptor table *)

Lemma lowest_free_ge n fd fds r : lowest_free n fd fds = Some r -> fd <= r.
Proof.
  revert fd; induction n as [|n IH]; intros fd; simpl; [done|].
  destruct (fds !! fd); [|intros [= <-]; lia].
  intros H; apply IH in H; lia.
Qed.

Lemma lowest_free_free n fd fds r : lowest_free n fd fds = Some r -> fds !! r = None.
Proof.
  revert fd; induction n as [|n IH]; intros fd; simpl; [done|].
  destruct (fds !! fd) eqn:E; [apply IH|by intros [= <-]].
Qed.

Lemma lowest_free_lt n fd fds r :
  lowest_free n fd fds = Some r -> r < fd + Z.of_nat n.
Proof.
  revert fd; induction n as [|n IH]; intros fd; [done|].
  rewrite Nat2Z.inj_succ; simpl.
  destruct (fds !! fd); [|intros [= <-]; lia].
  intros H; apply IH in H; lia.
Qed.

Lemma alloc_fd_spec low w fd :
  alloc_fd low w = Some fd -> low <= fd < w_nofile w /\ w_fds w !! fd = None.
Proof.
  unfold alloc_fd; intros H.
  pose proof (lowest_free_ge _ _ _ _ H).
  pose proof (lowest_free_lt _ _ _ _ H).
  pose proof (lowest_free_free _ _ _ _ H).
  split; [lia|done].
Qed.

(** ** dup_fd_cloexec *)

(** The F_DUPFD_CLOEXEC call honours the floor. *)
Lemma fcntl_dupfd_cloexec_floor oldfd lowfd w fd w' :
  fcntl_dupfd_cloexec oldfd lowfd w = (fd, w') -> 0 <= fd -> lowfd <= fd.
Proof.
  unfold fcntl_dupfd_cloexec, fail; simpl.
  repeat case_match; intros [= <- <-]; try lia.
  intros _; eapply alloc_fd_spec; eauto.
Qed.

Lemma dup_unwind_fails fd w : fst (dup_unwind fd w) = -1.
Proof. unfold dup_unwind. by destruct (close fd w). Qed.

Lemma dup_then_mark_lowest oldfd w fd w' :
  dup_then_mark oldfd w = (fd, w') -> 0 <= fd -> alloc_fd 0 (tick w) = Some fd.
Proof.
  unfold dup_then_mark, dup, fail; simpl.
  destruct (w_fds w !! oldfd) as [o|]; [|intros [= <- <-]; lia].
  destruct (w_oracle w (w_clock w)); [|intros [= <- <-]; lia].
  destruct (alloc_fd 0 (tick w)) as [a|] eqn:Ha; [|intros [= <- <-]; lia].
  destruct (a <? 0); [by intros [= <- <-]|].
  destruct (fcntl_getfd _ _) as [flags w0].
  destruct (flags <? 0).
  { intros H; apply (f_equal fst) in H; rewrite dup_unwind_fails in H; simpl in H; lia. }
  destruct (fcntl_setfd _ _ _) as [r w1].
  destruct (r <? 0).
  { intros H; apply (f_equal fst) in H; rewrite dup_unwind_fails in H; simpl in H; lia. }
  by intros [= <- <-].
Qed.

(** C1 fails on the code: [dup_fd_cloexec] hands out a descriptor below the
    floor [lowfd] as soon as the F_DUPFD_CLOEXEC call is not compiled in
    (first part) or fails (second part: [lowfd] is beyond RLIMIT_NOFILE),
    because the [dup] it falls back to ignores [lowfd]. *)
Theorem dup_fd_cloexec_below_floor :
  fst (dup_fd_cloexec Sample.portable 0 10 Sample.w_std) = 3 /\
  fst (dup_fd_cloexec Sample.linux 0 2000 Sample.w_std) = 3 /\
  w_fds Sample.w_std !! 0 = Some Sample.tty.
Proof. by vm_compute. Qed.

(** ** mkstemp_cloexec *)

Lemma open_excl_ok name flags mode w fd w' :
  open_excl name flags mode w = (fd, w') -> 0 <= fd ->
  exists l,
    create_target w name = Ok l /\ alloc_fd 0 w = Some fd /\
    w' = set_fs <[l := File (apply_umask mode w)]>
           (set_fds <[fd := {| of_cloexec := negb (Z.land flags O_CLOEXEC =? 0);
                               of_kind := Regular; of_data := []; of_pos := 0 |}]> w).
Proof.
  unfold open_excl, fail.
  destruct (create_target w name) as [l|e]; [|intros [= <- <-]; lia].
  destruct (alloc_fd 0 w) as [a|]; [|intros [= <- <-]; lia].
  intros [= <- <-] _; eauto.
Qed.

Lemma open_excl_fail name flags mode w fd w' :
  open_excl name flags mode w = (fd, w') -> fd < 0 ->
  fd = -1 /\ exists e, w' = set_errno e w.
Proof.
  unfold open_excl, fail.
  destruct (create_target w name) as [l|e]; [|intros [= <- <-]; eauto].
  destruct (alloc_fd 0 w) as [a|] eqn:Ha; [|intros [= <- <-]; eauto].
  intros [= <- <-] ?. apply alloc_fd_spec in Ha. lia.
Qed.

(** A successful run of the C library's loop is one successful exclusive
    creation from the state the loop started in. *)
Lemma gen_tempname_ok attempts seed stem flags mode w fd name w' :
  gen_tempname attempts seed stem flags mode w = (fd, name, w') -> 0 <= fd ->
  open_excl name flags mode w = (fd, w').
Proof.
  revert seed; induction attempts as [|k IH]; intros seed; cbn [gen_tempname].
  - intros [= <- <- <-]; lia.
  - destruct (open_excl (stem +:+ tmp_suffix 6 seed) flags mode w) as [fd0 w0] eqn:E.
    destruct ((fd0 <? 0) && (w_errno w0 =? EEXIST)); [apply IH|].
    by intros [= <- <- <-].
Qed.

Lemma gen_tempname_fail attempts seed stem flags mode w fd name w' :
  gen_tempname attempts seed stem flags mode w = (fd, name, w') -> fd < 0 ->
  fd = -1 /\ exists e, w' = set_errno e w.
Proof.
  revert seed; induction attempts as [|k IH]; intros seed; cbn [gen_tempname].
  - intros [= <- <- <-]; eauto.
  - destruct (open_excl (stem +:+ tmp_suffix 6 seed) flags mode w) as [fd0 w0] eqn:E.
    destruct ((fd0 <? 0) && (w_errno w0 =? EEXIST)); [apply IH|].
    intros [= <- <- <-] ?. eapply open_excl_fail; eauto.
Qed.
Lemma mkostemp_ok cfg template flags w fd name w' :
  mkostemp cfg template flags w = (fd, name, w') -> 0 <= fd ->
  open_excl name flags (MKSTEMP_PERM cfg) (tick w) = (fd, w').
Proof.
  unfold mkostemp; simpl.
  destruct (w_oracle w (w_clock w)) as [seed|f]; [|intros [= <- <- <-]; lia].
  destruct (template_stem template) as [stem|]; [|intros [= <- <- <-]; lia].
  apply gen_tempname_ok.
Qed.

Lemma mkostemp_fail cfg template flags w fd name w' :
  mkostemp cfg template flags w = (fd, name, w') -> fd < 0 ->
  fd = -1 /\ exists e, w' = set_errno e (tick w).
Proof.
  unfold mkostemp; simpl.
  destruct (w_oracle w (w_clock w)) as [seed|f]; [|intros [= <- <- <-]; eauto].
  destruct (template_stem template) as [stem|]; [|intros [= <- <- <-]; eauto].
  apply gen_tempname_fail.
Qed.

Lemma mkstemp_unwind_fails template fd w : fst (mkstemp_unwind template fd w) = -1.
Proof.
  unfold mkstemp_unwind. destruct (unlink template w) as [? w1].
  by destruct (close fd w1).
Qed.

(** With mkostemp the descriptor comes back close-on-exec. *)
Lemma mkstemp_cloexec_combined cfg template w fd name w' :
  HAVE_MKOSTEMP cfg = true ->
  mkstemp_cloexec cfg template w = (fd, name, w') -> 0 <= fd ->
  of_cloexec <$> (w_fds w' !! fd) = Some true.
Proof.
  unfold mkstemp_cloexec; intros -> H Hfd.
  apply mkostemp_ok in H; [|done].
  apply open_excl_ok in H as (l & _ & _ & ->); [|done].
  simpl. by rewrite lookup_insert_eq.
Qed.

(** C2 fails on the code in the build without mkostemp: the descriptor of
    every successful call is left inheritable.  F_SETFD is given
    [old_flags | O_CLOEXEC], and O_CLOEXEC has no bit in common with
    FD_CLOEXEC, the only bit F_SETFD looks at. *)
Theorem mkstemp_cloexec_fallback_inheritable cfg template w fd name w' :
  HAVE_MKOSTEMP cfg = false ->
  mkstemp_cloexec cfg template w = (fd, name, w') -> 0 <= fd ->
  of_cloexec <$> (w_fds w' !! fd) = Some false.
Proof.
  unfold mkstemp_cloexec, mkstemp; intros ->.
  destruct (mkostemp cfg template 0 w) as [[fd0 t0] w0] eqn:E.
  destruct (fd0 <? 0) eqn:Hneg; [intros [= <- <- <-]; lia|].
  apply mkostemp_ok in E; [|lia].
  apply open_excl_ok in E as (l & _ & _ & ->); [|lia].
  unfold fcntl_getfd; simpl. rewrite lookup_insert_eq.
  destruct (w_oracle w (S (w_clock w))); simpl.
  2:{ intros H; apply (f_equal (fun x => fst (fst x))) in H; revert H.
      destruct (mkstemp_unwind _ _ _) as [r w1] eqn:Eu; simpl.
      apply (f_equal fst) in Eu; rewrite mkstemp_unwind_fails in Eu; simpl in Eu. lia. }
  unfold fcntl_setfd; simpl. rewrite lookup_insert_eq.
  destruct (w_oracle w (S (S (w_clock w)))); simpl.
  2:{ intros H; apply (f_equal (fun x => fst (fst x))) in H; revert H.
      destruct (mkstemp_unwind _ _ _) as [r w1] eqn:Eu; simpl.
      apply (f_equal fst) in Eu; rewrite mkstemp_unwind_fails in Eu; simpl in Eu. lia. }
  intros [= <- <- <-] _. simpl. by rewrite lookup_insert_eq.
Qed.

Lemma mkstemp_cloexec_fallback_inheritable_witness :
  let r := mkstemp_cloexec Sample.portable "/tmp/t.XXXXXX" Sample.w_std in
  r.1.1 = 3 /\ of_cloexec <$> (w_fds r.2 !! 3) = Some false.
Proof.
  intros r; split; [by vm_compute|].
  refine (mkstemp_cloexec_fallback_inheritable Sample.portable "/tmp/t.XXXXXX"
            Sample.w_std 3 r.1.2 r.2 _ _ _); [by vm_compute|by vm_compute|lia].
Defined.
(** ** Name resolution *)

Lemma node_at_mono (fs fs' : gmap loc inode) l n :
  fs ⊆ fs' -> node_at fs l = Some n -> node_at fs' l = Some n.
Proof.
  intros Hsub; destruct l; simpl; [done|].
  intros H; eapply lookup_weaken; eauto.
Qed.

Lemma step_mono (fs fs' : gmap loc inode) cur c l :
  fs ⊆ fs' -> step fs cur c = Ok l -> step fs' cur c = Ok l.
Proof.
  intros Hsub; unfold step.
  destruct (node_at fs cur) as [[m|m]|] eqn:E; try done.
  rewrite (node_at_mono _ _ _ _ Hsub E).
  destruct (String.eqb c "."); [done|].
  destruct (String.eqb c ".."); [|done].
  destruct (node_at fs (parent cur)) as [[m'|m']|] eqn:E'; try done.
  by rewrite (node_at_mono _ _ _ _ Hsub E').
Qed.

Lemma walk_mono (fs fs' : gmap loc inode) cs cur l :
  fs ⊆ fs' -> walk fs cur cs = Ok l -> walk fs' cur cs = Ok l.
Proof.
  intros Hsub; revert cur; induction cs as [|c cs IH]; intros cur; simpl; [done|].
  destruct (step fs cur c) as [cur'|e] eqn:E; [|done].
  rewrite (step_mono _ _ _ _ _ Hsub E). apply IH.
Qed.

Lemma walk_app fs cur cs1 cs2 :
  walk fs cur (cs1 ++ cs2) =
  match walk fs cur cs1 with
  | Ok l => walk fs l cs2
  | Err e => Err e
  end.
Proof.
  revert cur; induction cs1 as [|c cs1 IH]; intros cur; simpl; [done|].
  destruct (step fs cur c); [apply IH|done].
Qed.

Lemma node_at_None_lookup (fs : gmap loc inode) l :
  node_at fs l = None -> fs !! l = None /\ l <> [].
Proof. destruct l; simpl; [done|]. intros ->; done. Qed.

Lemma node_at_lookup (fs : gmap loc inode) l : l <> [] -> node_at fs l = fs !! l.
Proof. by destruct l. Qed.

(** A name that is free stays where it was once it is taken. *)
Lemma create_target_resolve w path l :
  create_target w path = Ok l ->
  resolve w path = Ok l /\ w_fs w !! l = None /\ l <> [].
Proof.
  unfold create_target.
  destruct (resolve w path) as [l'|] eqn:E; [|done].
  destruct (node_at (w_fs w) l') eqn:En; [done|].
  intros [= <-]. by apply node_at_None_lookup in En as [? ?].
Qed.

Lemma resolve_mono w w' path l :
  w_fs w ⊆ w_fs w' -> w_cwd w = w_cwd w' ->
  resolve w path = Ok l -> resolve w' path = Ok l.
Proof.
  unfold resolve, start_of; intros Hsub <-.
  destruct path; [done|]. by apply walk_mono.
Qed.
(** ** The unwind block of mkstemp_cloexec *)

(** unlink(2) on a regular file that is there: the file goes, unless the
    call is made to fail, and then nothing changes. *)
Lemma unlink_created name l m w1 ru wu :
  resolve w1 name = Ok l -> w_fs w1 !! l = Some (File m) ->
  unlink name w1 = (ru, wu) ->
  w_fds wu = w_fds w1 /\ w_cwd wu = w_cwd w1 /\ w_umask wu = w_umask w1 /\
  (ru = 0 /\ w_fs wu = delete l (w_fs w1) \/ ru = -1 /\ w_fs wu = w_fs w1).
Proof.
  intros Hres Hl. unfold unlink, next_event, fail.
  destruct (w_oracle w1 (w_clock w1)) as [n|f].
  - change (resolve (tick w1) name) with (resolve w1 name). rewrite Hres.
    cbn [w_fs tick]. rewrite Hl. intros [= <- <-]. repeat split; try done. by left.
  - intros [= <- <-]. repeat split; try done. by right.
Qed.

(** After an exclusive creation, [unwind:] closes the descriptor and leaves
    errno as it found it; the file is gone if the unlink succeeded and is
    still there if it did not: the result of unlink is not looked at. *)
Lemma mkstemp_unwind_spec name flags mode w fd w0 w1 ru wu :
  open_excl name flags mode w = (fd, w0) -> 0 <= fd ->
  w_fs w1 = w_fs w0 -> w_fds w1 = w_fds w0 -> w_cwd w1 = w_cwd w0 ->
  unlink name w1 = (ru, wu) ->
  exists w2,
    mkstemp_unwind name fd w1 = (-1, w2) /\
    w_errno w2 = w_errno w1 /\ w_fds w2 = w_fds w /\ w_umask w2 = w_umask w1 /\
    (ru = 0 -> w_fs w2 = w_fs w) /\
    (ru <> 0 -> w_fs w2 = w_fs w0) /\
    exists l m, w_fs w !! l = None /\ w_fs w0 = <[l := File m]> (w_fs w).
Proof.
  intros Ho Hfd Hfs Hfds Hcwd Hu.
  apply open_excl_ok in Ho as (l & Hl & Ha & ->); [|done].
  apply create_target_resolve in Hl as (Hres & Hfree & Hne).
  apply alloc_fd_spec in Ha as [_ Hfdfree].
  simpl in Hfs, Hfds, Hcwd.
  assert (resolve w1 name = Ok l) as Hres1.
  { eapply resolve_mono; [| |exact Hres]; [|done].
    rewrite Hfs. by apply insert_subseteq. }
  assert (w_fs w1 !! l = Some (File (apply_umask mode w))) as Hl1
    by (rewrite Hfs; apply lookup_insert_eq).
  destruct (unlink_created _ _ _ _ _ _ Hres1 Hl1 Hu) as (Hufds & _ & Hum & Hufs).
  unfold mkstemp_unwind. rewrite Hu.
  assert (w_fds (snd (close fd wu)) = delete fd (w_fds wu) /\
          w_fs (snd (close fd wu)) = w_fs wu /\ w_umask (snd (close fd wu)) = w_umask wu)
    as (Hcl & Hcfs & Hcm).
  { unfold close, fail; simpl.
    destruct (w_fds wu !! fd) eqn:Efd; [destruct (w_oracle wu (w_clock wu))|]; simpl;
      rewrite ?delete_id by done; done. }
  destruct (close fd wu) as [rc wc]. simpl in Hcl, Hcfs, Hcm.
  eexists. split; [reflexivity|]. simpl.
  split; [done|]. split.
  { rewrite Hcl, Hufds, Hfds, delete_insert_eq. by apply delete_id. }
  split; [congruence|]. split; [|split].
  - intros ->. destruct Hufs as [[_ Hd]|[? _]]; [|done].
    rewrite Hcfs, Hd, Hfs, delete_insert_eq. by apply delete_id.
  - intros Hru. destruct Hufs as [[? _]|[_ Hd]]; [done|]. congruence.
  - by exists l, (apply_umask mode w).
Qed.

(** A failing mkstemp_cloexec returns -1 and leaves the descriptor table and
    the creation mask as they were; the name space is as it was too, except
    that in the build without mkostemp the file just made is left behind
    when the unlink of the [unwind:] block fails. *)
Lemma mkstemp_cloexec_fail cfg template w fd name w' :
  mkstemp_cloexec cfg template w = (fd, name, w') -> fd < 0 ->
  fd = -1 /\ w_fds w' = w_fds w /\ w_umask w' = w_umask w /\
  (w_fs w' = w_fs w \/
   HAVE_MKOSTEMP cfg = false /\
   exists l mode, w_fs w !! l = None /\ w_fs w' = <[l := File mode]> (w_fs w)).
Proof.
  unfold mkstemp_cloexec, mkstemp.
  destruct (HAVE_MKOSTEMP cfg) eqn:Hcfg.
  { intros H Hfd. apply mkostemp_fail in H as (-> & e & ->); [|done].
    repeat split; try done. by left. }
  destruct (mkostemp cfg template 0 w) as [[fd0 t0] w0] eqn:E.
  destruct (fd0 <? 0) eqn:Hneg.
  { intros [= <- <- <-] Hfd. apply mkostemp_fail in E as (-> & e & ->); [|done].
    repeat split; try done. by left. }
  apply mkostemp_ok in E; [|lia].
  pose proof E as Eo.
  apply open_excl_ok in Eo as (l & _ & _ & Hw0); [|lia].
  assert (w_fds w0 !! fd0 = Some {| of_cloexec := false; of_kind := Regular;
                                    of_data := []; of_pos := 0%nat |}) as Hlk.
  { rewrite Hw0; simpl. by rewrite lookup_insert_eq. }
  assert (forall w1, w_fs w1 = w_fs w0 -> w_fds w1 = w_fds w0 -> w_cwd w1 = w_cwd w0 ->
            w_umask w1 = w_umask w0 ->
            forall r w2, mkstemp_unwind t0 fd0 w1 = (r, w2) ->
            r = -1 /\ w_fds w2 = w_fds w /\ w_umask w2 = w_umask w /\
            (w_fs w2 = w_fs w \/
             false = false /\
             exists l mode, w_fs w !! l = None /\ w_fs w2 = <[l := File mode]> (w_fs w)))
    as Hunwind.
  { intros w1 Hfs1 Hfds1 Hcwd1 Hm1 r w2 Hr.
    destruct (unlink t0 w1) as [ru wu] eqn:Hu.
    destruct (mkstemp_unwind_spec _ _ _ _ _ _ w1 ru wu E)
      as (w2' & Hr' & _ & Hfds2 & Hm2 & Hok & Hko & l' & m' & Hfree & Hfs0);
      try done; try lia.
    rewrite Hr' in Hr. injection Hr as <- <-.
    split; [done|]. split; [done|]. split; [rewrite Hm2, Hm1, Hw0; done|].
    destruct (Z.eq_dec ru 0) as [->|Hne]; [left; by apply Hok|].
    right. split; [done|]. exists l', m'. split; [done|]. rewrite (Hko Hne). done. }
  unfold fcntl_getfd; cbn [next_event]. cbn [w_fds tick]. rewrite Hlk.
  destruct (w_oracle w0 (w_clock w0)) as [n|f]; cbn [fail].
  2:{ simpl. destruct (mkstemp_unwind _ _ _) as [r w2] eqn:Hr.
      intros [= <- <- <-] _. by eapply Hunwind; [| | | |exact Hr]. }
  simpl (if _ <? 0 then _ else _).
  unfold fcntl_setfd; cbn [next_event]. cbn [w_fds tick]. rewrite Hlk.
  destruct (w_oracle (tick w0) (w_clock (tick w0))) as [n'|f]; cbn [fail].
  2:{ simpl. destruct (mkstemp_unwind _ _ _) as [r w2] eqn:Hr.
      intros [= <- <- <-] _. by eapply Hunwind; [| | | |exact Hr]. }
  simpl. intros [= <- <- <-]; lia.
Qed.
Lemma fcntl_getfd_frame fd w r w' :
  fcntl_getfd fd w = (r, w') ->
  w_fs w' = w_fs w /\ w_fds w' = w_fds w /\ w_cwd w' = w_cwd w /\
  w_umask w' = w_umask w.
Proof.
  unfold fcntl_getfd, fail; simpl.
  destruct (w_fds w !! fd); [destruct (w_oracle w (w_clock w))|];
    by intros [= <- <-].
Qed.

Lemma fcntl_setfd_fail_frame fd arg w r w' :
  fcntl_setfd fd arg w = (r, w') -> r < 0 ->
  w_fs w' = w_fs w /\ w_fds w' = w_fds w /\ w_cwd w' = w_cwd w /\
  w_umask w' = w_umask w.
Proof.
  unfold fcntl_setfd, fail; simpl.
  destruct (w_fds w !! fd); [destruct (w_oracle w (w_clock w))|];
    intros [= <- <-]; done || lia.
Qed.

Lemma fcntl_setfd_ok_frame fd arg w r w' :
  fcntl_setfd fd arg w = (r, w') ->
  w_fs w' = w_fs w /\ w_cwd w' = w_cwd w /\ w_umask w' = w_umask w.
Proof.
  unfold fcntl_setfd, fail; simpl.
  destruct (w_fds w !! fd); [destruct (w_oracle w (w_clock w))|];
    by intros [= <- <-].
Qed.

(** When marking fails after the file was made, mkstemp_cloexec returns -1
    with the errno of the failed call and the descriptor closed; the file is
    unlinked, unless unlink fails: then it stays. *)
Lemma mkstemp_cloexec_mark_failure cfg template w fd0 t0 w0 r w1 ru wu :
  HAVE_MKOSTEMP cfg = false ->
  mkstemp cfg template w = (fd0, t0, w0) -> 0 <= fd0 ->
  (fcntl_getfd fd0 w0 = (r, w1) \/
   exists flags wg, fcntl_getfd fd0 w0 = (flags, wg) /\ 0 <= flags /\
     fcntl_setfd fd0 (Z.lor flags O_CLOEXEC) wg = (r, w1)) ->
  r < 0 ->
  unlink t0 w1 = (ru, wu) ->
  exists w',
    mkstemp_cloexec cfg template w = (-1, t0, w') /\
    w_errno w' = w_errno w1 /\ w_fds w' = w_fds w /\
    (ru = 0 -> w_fs w' = w_fs w) /\
    (ru <> 0 -> w_fs w' = w_fs w0 /\ w_fs w0 <> w_fs w).
Proof.
  intros Hcfg Hmk Hfd Hmark Hr Hu.
  unfold mkstemp_cloexec; rewrite Hcfg, Hmk.
  replace (fd0 <? 0) with false by lia.
  unfold mkstemp in Hmk. apply mkostemp_ok in Hmk; [|done].
  assert (w_fs w1 = w_fs w0 /\ w_fds w1 = w_fds w0 /\ w_cwd w1 = w_cwd w0) as (? & ? & ?).
  { destruct Hmark as [Hg|(flags & wg & Hg & Hflags & Hs)].
    - by apply fcntl_getfd_frame in Hg as (? & ? & ? & ?).
    - apply fcntl_getfd_frame in Hg as (? & ? & ? & ?).
      apply fcntl_setfd_fail_frame in Hs as (? & ? & ? & ?); [|done].
      repeat split; congruence. }
  destruct (mkstemp_unwind_spec _ _ _ _ _ _ w1 ru wu Hmk)
    as (w2 & Hun & He & Hfds2 & _ & Hok & Hko & l & m & Hfree & Hfs0); try done.
  exists w2. split.
  { destruct Hmark as [Hg|(flags & wg & Hg & Hflags & Hs)].
    - rewrite Hg. replace (r <? 0) with true by lia. by rewrite Hun.
    - rewrite Hg. replace (flags <? 0) with false by lia.
      rewrite Hs. replace (r <? 0) with true by lia. by rewrite Hun. }
  split; [done|]. split; [done|]. split; [done|].
  intros Hne. split; [by apply Hko|].
  rewrite Hfs0. intros Heq. apply (f_equal (fun m => m !! l)) in Heq.
  rewrite lookup_insert_eq in Heq. simpl in *. congruence.
Qed.

(** C3 as amended: a failing xmkstemp gives no name back and leaves the
    descriptor table as it was; it leaves the name space as it was too,
    except on one path: in the build without mkostemp, when the
    close-on-exec marking fails (either fcntl call, leaving state [w1]) the
    [unwind:] block calls unlink and does not look at its result, so that
    the file just made is gone when that unlink succeeds and stays on disk
    when it fails.  Either way the descriptor is closed and -1 is returned
    with errno as the failed marking call set it. *)
Theorem xmkstemp_failure_cleanup cfg :
  (forall dir prefix w fd name w',
      xmkstemp cfg dir prefix w = (fd, name, w') -> fd < 0 ->
      name = None /\ w_fds w' = w_fds w /\
      (w_fs w' = w_fs w \/
       HAVE_MKOSTEMP cfg = false /\
       exists l mode, w_fs w !! l = None /\ w_fs w' = <[l := File mode]> (w_fs w))) /\
  (forall template w fd0 t0 w0 r w1 ru wu,
      HAVE_MKOSTEMP cfg = false ->
      mkstemp cfg template w = (fd0, t0, w0) -> 0 <= fd0 ->
      (fcntl_getfd fd0 w0 = (r, w1) \/
       exists flags wg, fcntl_getfd fd0 w0 = (flags, wg) /\ 0 <= flags /\
         fcntl_setfd fd0 (Z.lor flags O_CLOEXEC) wg = (r, w1)) ->
      r < 0 ->
      unlink t0 w1 = (ru, wu) ->
      exists w',
        mkstemp_cloexec cfg template w = (-1, t0, w') /\
        w_errno w' = w_errno w1 /\ w_fds w' = w_fds w /\
        (ru = 0 -> w_fs w' = w_fs w) /\
        (ru <> 0 -> w_fs w' = w_fs w0 /\ w_fs w0 <> w_fs w)).
Proof.
  split; [|apply mkstemp_cloexec_mark_failure].
  intros dir prefix w fd name w'. unfold xmkstemp, asprintf_template; simpl.
  destruct (w_oracle w (w_clock w)) as [n|f];
    [|intros [= <- <- <-]; repeat split; try done; by left].
  destruct (mkstemp_cloexec _ _ _) as [[fd1 t1] w1] eqn:E.
  intros H Hfd.
  assert (fd1 = fd) as -> by (destruct (fd1 =? -1); by inversion H).
  apply mkstemp_cloexec_fail in E as (-> & Hfds & _ & Hfs); [|done].
  simpl in H. inversion H; subst; simpl. split; [done|]. split; [done|]. exact Hfs.
Qed.

Lemma xmkstemp_failure_cleanup_witness :
  let w := Sample.w_script [Proceed 0; Proceed 7; Proceed 0; Fault Eio; Proceed 0; Fault Eintr] in
  let v := Sample.w_script [Proceed 7; Fault Eio; Proceed 0; Fault Eintr] in
  (exists w',
     xmkstemp Sample.portable None "test" w = (-1, None, w') /\ w_fds w' = w_fds w) /\
  (exists w',
     mkstemp_cloexec Sample.portable "/tmp/t.XXXXXX" v = (-1, "/tmp/t.haaaaa", w') /\
     w_errno w' = EIO /\ w_fds w' = w_fds v /\ w_fs w' = w_fs v).
Proof.
  intros w v; split.
  - exists (snd (xmkstemp Sample.portable None "test" w)).
    split; [by vm_compute|].
    refine (proj1 (proj2 (proj1 (xmkstemp_failure_cleanup Sample.portable)
                            None "test" w (-1) None _ _ _))); [by vm_compute|lia].
  - set (w0 := snd (mkstemp Sample.portable "/tmp/t.XXXXXX" v)).
    set (w1 := snd (fcntl_getfd 3 w0)).
    set (wu := snd (unlink "/tmp/t.haaaaa" w1)).
    destruct (proj2 (xmkstemp_failure_cleanup Sample.portable)
                "/tmp/t.XXXXXX" v 3 "/tmp/t.haaaaa" w0 (-1) w1 0 wu eq_refl)
      as (w' & Hr & He & Hfds & Hok & _);
      [by vm_compute|lia|left; by vm_compute|lia|by vm_compute|].
    exists w'. split; [exact Hr|]. split; [rewrite He; by vm_compute|].
    split; [exact Hfds|by apply Hok].
Defined.

(** C3 as stated fails on the code: in the build without mkostemp, when the
    marking fails and the unlink of the [unwind:] block fails too, xmkstemp
    returns -1 and no name, and the file it made is still in /tmp. *)
Lemma xmkstemp_failure_leaves_file :
  let w := Sample.w_script [Proceed 0; Proceed 7; Proceed 0; Fault Eio; Fault Eacces] in
  let r := xmkstemp Sample.portable None "test" w in
  r.1.1 = -1 /\ r.1.2 = None /\ w_errno r.2 = EIO /\
  lookup_path w "/tmp/test.haaaaa" = None /\
  lookup_path r.2 "/tmp/test.haaaaa" = Some (File 384) /\
  w_fs r.2 <> w_fs w.
Proof.
  intros w r. repeat split; by vm_compute.
Qed.
(** ** xmkstemp and the creation mask *)

(** A successful mkstemp_cloexec adds one regular file, at the place its
    name leads to, with the permission bits the mask lets through. *)
Lemma mkstemp_cloexec_ok cfg template w fd name w' :
  mkstemp_cloexec cfg template w = (fd, name, w') -> 0 <= fd ->
  exists l,
    resolve w name = Ok l /\ w_fs w !! l = None /\
    w_fs w' = <[l := File (apply_umask (MKSTEMP_PERM cfg) w)]> (w_fs w) /\
    w_cwd w' = w_cwd w /\ w_umask w' = w_umask w.
Proof.
  assert (forall flags fd name w',
    mkostemp cfg template flags w = (fd, name, w') -> 0 <= fd ->
    exists l,
      resolve w name = Ok l /\ w_fs w !! l = None /\
      w_fs w' = <[l := File (apply_umask (MKSTEMP_PERM cfg) w)]> (w_fs w) /\
      w_cwd w' = w_cwd w /\ w_umask w' = w_umask w) as Hmk.
  { intros flags fd1 name1 w1 H Hfd. apply mkostemp_ok in H; [|done].
    apply open_excl_ok in H as (l & Hl & _ & ->); [|done].
    apply create_target_resolve in Hl as (? & ? & ?). by exists l. }
  unfold mkstemp_cloexec, mkstemp.
  destruct (HAVE_MKOSTEMP cfg); [apply Hmk|].
  destruct (mkostemp cfg template 0 w) as [[fd0 t0] w0] eqn:E.
  destruct (fd0 <? 0) eqn:Hneg; [intros [= <- <- <-]; lia|].
  apply Hmk in E as (l & ? & ? & Hfs & Hcwd & Hm); [|lia].
  destruct (fcntl_getfd fd0 w0) as [flags w1] eqn:Eg.
  apply fcntl_getfd_frame in Eg as (Hfs1 & _ & Hcwd1 & Hm1).
  destruct (flags <? 0).
  { intros Hx; apply (f_equal (fun x => fst (fst x))) in Hx; revert Hx.
    destruct (mkstemp_unwind _ _ _) as [r w2] eqn:Eu; simpl.
    apply (f_equal fst) in Eu; rewrite mkstemp_unwind_fails in Eu; simpl in Eu. lia. }
  destruct (fcntl_setfd _ _ _) as [r w2] eqn:Es.
  apply fcntl_setfd_ok_frame in Es as (Hfs2 & Hcwd2 & Hm2).
  destruct (r <? 0).
  { intros Hx; apply (f_equal (fun x => fst (fst x))) in Hx; revert Hx.
    destruct (mkstemp_unwind _ _ _) as [r' w3] eqn:Eu; simpl.
    apply (f_equal fst) in Eu; rewrite mkstemp_unwind_fails in Eu; simpl in Eu. lia. }
  intros [= <- <- <-] _. exists l. repeat split; congruence.
Qed.

Lemma owner_only_bits perm : Z.land (Z.land (Z.land perm 511) (Z.lnot 63)) 63 = 0.
Proof.
  rewrite <- Z.land_assoc, (Z.land_comm (Z.lnot 63)), Z.land_lnot_diag.
  apply Z.land_0_r.
Qed.

(** C6: xmkstemp leaves the creation mask as it found it, on every path; and
    the file of a successful call was created under the mask 077 -- its
    permission bits are those of the C library's mode without the group and
    other bits, whatever the caller's mask. *)
Theorem xmkstemp_scoped_umask cfg dir prefix w fd name w' :
  Z.land (w_umask w) 511 = w_umask w ->
  xmkstemp cfg dir prefix w = (fd, name, w') ->
  w_umask w' = w_umask w /\
  (0 <= fd ->
   exists path l mode,
     name = Some path /\ resolve w' path = Ok l /\
     w_fs w' !! l = Some (File mode) /\ w_fs w !! l = None /\
     mode = Z.land (Z.land (MKSTEMP_PERM cfg) 511) (Z.lnot 63) /\
     Z.land mode 63 = 0).
Proof.
  intros Hmask. unfold xmkstemp, asprintf_template; simpl.
  destruct (w_oracle w (w_clock w)) as [n|f]; [|intros [= <- <- <-]; split; [done|lia]].
  destruct (mkstemp_cloexec _ _ _) as [[fd1 t1] w1] eqn:E.
  intros H.
  assert (fd1 = fd /\ w' = set_umask (Z.land (w_umask w) 511) w1) as [-> ->]
    by (destruct (fd1 =? -1); by inversion H).
  destruct (Z.le_gt_cases 0 fd) as [Hfd|Hfd].
  - apply mkstemp_cloexec_ok in E as (l & Hres & Hfree & Hfs & Hcwd & Hm); [|done].
    split; [done|]. intros _.
    replace (fd =? -1) with false in H by lia. injection H as <-.
    exists t1, l, (Z.land (Z.land (MKSTEMP_PERM cfg) 511) (Z.lnot 63)).
    simpl. repeat split; try done.
    + eapply resolve_mono; [| |exact Hres]; simpl; [|done].
      rewrite Hfs. by apply insert_subseteq.
    + rewrite Hfs. by rewrite lookup_insert_eq.
    + apply owner_only_bits.
  - split; [done|lia].
Qed.

Lemma xmkstemp_scoped_umask_witness :
  exists name w',
    xmkstemp Sample.linux None "test" Sample.w_std = (3, name, w') /\
    w_umask w' = 18 /\
    lookup_path w' "/tmp/test.eebaaa" = Some (File 384).
Proof.
  exists (Some "/tmp//test.eebaaa"), (snd (xmkstemp Sample.linux None "test" Sample.w_std)).
  split; [by vm_compute|].
  destruct (xmkstemp_scoped_umask Sample.linux None "test" Sample.w_std 3
              (Some "/tmp//test.eebaaa") (snd (xmkstemp Sample.linux None "test" Sample.w_std)))
    as [Hm _]; [by vm_compute|by vm_compute|].
  split; [exact Hm|by vm_compute].
Defined.
(** ** close_all_fds *)

Lemma close_fds fd w : w_fds (snd (close fd w)) = delete fd (w_fds w).
Proof.
  unfold close, fail; simpl.
  destruct (w_fds w !! fd) eqn:E; simpl.
  - by destruct (w_oracle w (w_clock w)).
  - by rewrite delete_id.
Qed.

(** The test on errno, [end] and [*end] passes exactly for the names
    [strtol_accepts] takes, and the descriptor is closed unless it is the
    stream's own or excluded. *)
Lemma sweep_entry_fds d ns d_name exclude w :
  w_fds (sweep_entry (d, ns) d_name exclude w) =
  match strtol_accepts d_name with
  | Some fd => if (d =? fd) || in_set fd exclude then w_fds w else delete fd (w_fds w)
  | None => w_fds w
  end.
Proof.
  unfold sweep_entry, strtol_accepts, strtol, dirfd.
  destruct (strtol_parse d_name) as [[v e] ov]; simpl.
  destruct ov; simpl; [done|].
  destruct ((e =? 0)%nat || (e <? String.length d_name)%nat); simpl; [done|].
  destruct (d =? to_int v); simpl; [done|].
  destruct (in_set (to_int v) exclude); [done|].
  by rewrite close_fds.
Qed.

Lemma sweep_entries_gone d names exclude w x :
  w_fds w !! x = None -> w_fds (sweep_entries d names exclude w) !! x = None.
Proof.
  revert w; induction names as [|n names IH]; intros w Hx; simpl; [done|].
  apply IH. rewrite sweep_entry_fds.
  destruct (strtol_accepts n) as [fd|]; [|done].
  destruct ((d =? fd) || in_set fd exclude); [done|].
  destruct (decide (fd = x)) as [->|]; [apply lookup_delete_eq|].
  by rewrite lookup_delete_ne.
Qed.

Lemma sweep_entries_swept d names exclude w x :
  swept strtol_accepts d exclude names x ->
  w_fds (sweep_entries d names exclude w) !! x = None.
Proof.
  intros (n & Hin & Hacc & Hd & Hex).
  revert w; induction names as [|n' names IH]; intros w; [by inversion Hin|].
  simpl. apply elem_of_cons in Hin as [<-|Hin]; [|by apply IH].
  apply sweep_entries_gone. rewrite sweep_entry_fds, Hacc, Hex.
  replace (d =? x) with false by lia. apply lookup_delete_eq.
Qed.

Lemma sweep_entries_kept d names exclude w x :
  ~ swept strtol_accepts d exclude names x ->
  w_fds (sweep_entries d names exclude w) !! x = w_fds w !! x.
Proof.
  revert w; induction names as [|n names IH]; intros w Hno; simpl; [done|].
  rewrite IH.
  - rewrite sweep_entry_fds.
    destruct (strtol_accepts n) as [fd|] eqn:Hacc; [|done].
    destruct (d =? fd) eqn:Hd; simpl; [done|].
    destruct (in_set fd exclude) eqn:Hex; [done|].
    destruct (decide (fd = x)) as [->|]; [|by rewrite lookup_delete_ne].
    destruct Hno. exists n. repeat split; try done; [left|lia].
  - intros (n' & Hin & ?). apply Hno. exists n'. split; [by right|done].
Qed.

Lemma opendir_fddir_ok w d names w1 :
  opendir_fddir w = (Some (d, names), w1) ->
  w_fddir w = Some names /\ w_fds w !! d = None /\ 0 <= d /\
  exists o, w_fds w1 = <[d := o]> (w_fds w).
Proof.
  unfold opendir_fddir; simpl.
  destruct (w_fddir w) as [ns|]; [|done].
  destruct (w_oracle w (w_clock w)); [|done].
  destruct (alloc_fd 0 (tick w)) as [fd|] eqn:Ha; [|done].
  intros [= <- <- <-]. apply alloc_fd_spec in Ha as [? ?]. simpl in *.
  repeat split; try done; try lia. eauto.
Qed.

(** A name of digits only is taken by strtol as it stands. *)
Lemma read_digits_pure s acc v :
  digits_value acc s = Some v -> read_digits acc s = (String.length s, v).
Proof.
  revert acc; induction s as [|c s IH]; intros acc; simpl.
  - by intros [= ->].
  - destruct (digit_of c); [|done]. intros H. by rewrite (IH _ H).
Qed.

Lemma digit_not_space c d : digit_of c = Some d -> isspace c = false.
Proof.
  unfold digit_of, isspace.
  destruct ((48 <=? nat_of_ascii c)%nat && (nat_of_ascii c <=? 57)%nat) eqn:E; [|done].
  intros _. apply andb_true_iff in E as [?%Nat.leb_le ?%Nat.leb_le].
  apply orb_false_iff; split; [apply Nat.eqb_neq; lia|].
  apply andb_false_iff; right. apply Nat.leb_gt; lia.
Qed.

Lemma digit_not_sign c d :
  digit_of c = Some d -> Ascii.eqb c "-" = false /\ Ascii.eqb c "+" = false.
Proof.
  intros H; split; apply Ascii.eqb_neq; intros ->; by vm_compute in H.
Qed.

Lemma digits_value_ge s acc v : 0 <= acc -> digits_value acc s = Some v -> 0 <= v.
Proof.
  revert acc; induction s as [|c s IH]; intros acc Hacc; simpl.
  - intros [= <-]; done.
  - unfold digit_of at 1.
    destruct ((48 <=? nat_of_ascii c)%nat && (nat_of_ascii c <=? 57)%nat) eqn:E; [|done].
    apply andb_true_iff in E as [?%Nat.leb_le ?%Nat.leb_le].
    apply IH. lia.
Qed.

Lemma pure_digit_name_accepted s v :
  pure_digit_name s = Some v -> v <= LONG_MAX -> strtol_accepts s = Some (to_int v).
Proof.
  unfold pure_digit_name, strtol_accepts, strtol_parse.
  destruct s as [|c s]; [done|]. intros Hv Hmax.
  pose proof (digits_value_ge _ _ _ (Z.le_refl 0) Hv) as Hpos.
  pose proof (read_digits_pure _ _ _ Hv) as Hrd.
  simpl in Hv. destruct (digit_of c) as [d|] eqn:Hd; [|done].
  cbn [skip_spaces]. rewrite (digit_not_space _ _ Hd).
  cbn [read_sign]. destruct (digit_not_sign _ _ Hd) as [-> ->].
  rewrite Hrd. cbn [String.length].
  replace (v >? LONG_MAX) with false by lia.
  replace (v <? LONG_MIN) with false by (unfold LONG_MIN; lia).
  cbn [orb Nat.add Nat.eqb]. by rewrite Nat.ltb_irrefl.
Qed.
Lemma classic_swept_dec accept d exclude names x :
  swept accept d exclude names x \/ ~ swept accept d exclude names x.
Proof.
  induction names as [|n names IH].
  - right. intros (n & Hin & _). by inversion Hin.
  - destruct IH as [(n' & Hin & ?)|Hno].
    { left. exists n'. split; [by right|done]. }
    destruct (accept n) as [fd|] eqn:Hacc.
    2:{ right. intros (n' & Hin & Hn' & ?). apply elem_of_cons in Hin as [->|Hin].
        - congruence.
        - apply Hno. by exists n'. }
    destruct (decide (fd = x)) as [->|Hne].
    2:{ right. intros (n' & Hin & Hn' & ?). apply elem_of_cons in Hin as [->|Hin].
        - congruence.
        - apply Hno. by exists n'. }
    destruct (decide (x = d)) as [->|Hd].
    { right. intros (n' & _ & _ & ? & _). done. }
    destruct (in_set x exclude) eqn:Hex.
    { right. intros (n' & _ & _ & _ & ?). congruence. }
    left. exists n. repeat split; try done. left.
Qed.
(** *** Strings *)

Lemma str_app_cons x a b : String x a +:+ b = String x (a +:+ b).
Proof. done. Qed.

Lemma str_app_nil_l s : "" +:+ s = s.
Proof. done. Qed.

Lemma str_app_nil_r s : s +:+ "" = s.
Proof. induction s as [|c s IH]; [done|]. by rewrite str_app_cons, IH. Qed.

Lemma str_app_assoc a b c : (a +:+ b) +:+ c = a +:+ b +:+ c.
Proof. induction a as [|x a IH]; [done|]. by rewrite !str_app_cons, IH. Qed.

Lemma str_app_empty a b : a +:+ b = "" -> a = "" /\ b = "".
Proof. destruct a; [done|]. by rewrite str_app_cons. Qed.

(** ** What strtol takes *)

Lemma str_length_app a b : String.length (a +:+ b) = (String.length a + String.length b)%nat.
Proof. induction a as [|c a IH]; [done|]. rewrite str_app_cons. simpl. by rewrite IH. Qed.

Lemma skip_spaces_spec s :
  exists sp,
    s = sp +:+ snd (skip_spaces s) /\ all_space sp = true /\
    String.length sp = fst (skip_spaces s) /\
    starts_with isspace (snd (skip_spaces s)) = false.
Proof.
  induction s as [|c s (sp & Hs & Hsp & Hlen & Hst)]; simpl.
  - by exists "".
  - destruct (isspace c) eqn:Hc.
    + destruct (skip_spaces s) as [k r]. simpl in *.
      exists (String c sp). rewrite str_app_cons, <- Hs. simpl. by rewrite Hc, Hsp, Hlen.
    + exists "". simpl. by rewrite Hc.
Qed.

Lemma skip_spaces_app sp r :
  all_space sp = true -> starts_with isspace r = false ->
  skip_spaces (sp +:+ r) = (String.length sp, r).
Proof.
  intros Hsp Hr. induction sp as [|c sp IH].
  - rewrite str_app_nil_l. destruct r as [|c r]; [done|]. simpl in *. by rewrite Hr.
  - simpl in Hsp. apply andb_true_iff in Hsp as [Hc Hsp].
    rewrite str_app_cons. simpl. by rewrite Hc, (IH Hsp).
Qed.

Lemma read_digits_spec s acc :
  exists ds rest,
    s = ds +:+ rest /\ String.length ds = fst (read_digits acc s) /\
    digits_value acc ds = Some (snd (read_digits acc s)).
Proof.
  revert acc; induction s as [|c s IH]; intros acc; simpl.
  - by exists "", "".
  - destruct (digit_of c) as [d|] eqn:Hd.
    + destruct (IH (10 * acc + d)) as (ds & rest & Hs & Hlen & Hv).
      destruct (read_digits (10 * acc + d) s) as [k v]. simpl in *.
      exists (String c ds), rest. rewrite str_app_cons, <- Hs. simpl.
      by rewrite Hd, Hlen.
    + by exists "", (String c s).
Qed.

Lemma read_digits_le s acc : (fst (read_digits acc s) <= String.length s)%nat.
Proof.
  revert acc; induction s as [|c s IH]; intros acc; simpl; [done|].
  destruct (digit_of c) as [d|]; [|simpl; lia].
  specialize (IH (10 * acc + d)). destruct (read_digits _ s). simpl in *. lia.
Qed.

Lemma pure_digit_name_first ds v :
  pure_digit_name ds = Some v ->
  exists c d r, ds = String c r /\ digit_of c = Some d.
Proof.
  destruct ds as [|c r]; [done|]. simpl.
  destruct (digit_of c) as [d|] eqn:Hd; [|done]. intros _. by exists c, d, r.
Qed.

(** The names strtol converts in full are those of the shape spelled out in
    [strtol_shape]. *)
Lemma strtol_accepts_shape d_name x :
  strtol_accepts d_name = Some x <-> strtol_shape d_name x.
Proof.
  unfold strtol_accepts, strtol_parse, strtol_shape. split.
  - destruct (skip_spaces_spec d_name) as (sp & Hs & Hsp & Hlsp & _).
    destruct (skip_spaces d_name) as [nsp s1]. simpl in *.
    assert (exists sg, s1 = sg +:+ snd (read_sign s1) /\
                       String.length sg = fst (fst (read_sign s1)) /\
                       (sg = "" \/ sg = "+" \/ sg = "-") /\
                       snd (fst (read_sign s1)) = String.eqb sg "-")
      as (sg & Hs1 & Hlsg & Hsg & Hneg).
    { destruct s1 as [|c s1]; [exists ""; by repeat split; auto|]. simpl.
      destruct (Ascii.eqb_spec c "-") as [->|];
        [exists "-"; by repeat split; auto|].
      destruct (Ascii.eqb_spec c "+") as [->|];
        [exists "+"; by repeat split; auto|].
      exists ""; by repeat split; auto. }
    destruct (read_sign s1) as [[nsg neg] s2]. simpl in *.
    destruct (read_digits_spec s2 0) as (ds & rest & Hs2 & Hlds & Hv).
    pose proof (read_digits_le s2 0) as Hle.
    destruct (read_digits 0 s2) as [nd v]. simpl in *.
    destruct nd as [|nd]; [done|].
    set (sv := if neg then - v else v).
    assert (String.length d_name
            = (String.length sp + String.length sg + String.length ds
               + String.length rest)%nat) as Hlen.
    { rewrite Hs, Hs1, Hs2, !str_length_app. lia. }
    destruct (Z.gtb_spec sv LONG_MAX); [done|].
    destruct (Z.ltb_spec sv LONG_MIN); [done|]. cbn [orb].
    destruct (Nat.eqb_spec (nsp + nsg + S nd) 0); [lia|].
    destruct (Nat.ltb_spec (nsp + nsg + S nd) (String.length d_name)); [done|].
    intros [= <-].
    assert (rest = "") as -> by (destruct rest; [done|simpl in Hlen; lia]).
    rewrite str_app_nil_r in Hs2. subst s2.
    exists sp, sg, ds, v. rewrite <- Hneg. fold sv.
    repeat split; try done; try congruence.
    destruct ds; [done|]. done.
  - intros (sp & sg & ds & v & -> & Hsp & Hsg & Hv & Hrange & ->).
    destruct (pure_digit_name_first _ _ Hv) as (c & d & r & -> & Hd).
    pose proof (digit_not_space _ _ Hd) as Hns.
    destruct (digit_not_sign _ _ Hd) as [Hnm Hnp].
    assert (digits_value 0 (String c r) = Some v) as Hdv by done.
    pose proof (read_digits_pure _ _ _ Hdv) as Hrd.
    rewrite skip_spaces_app; [|done|by destruct Hsg as [->|[->| ->]]].
    assert (read_sign (sg +:+ String c r)
            = (String.length sg, String.eqb sg "-", String c r)) as ->.
    { destruct Hsg as [->|[->| ->]]; [|done..].
      rewrite str_app_nil_l. simpl. by rewrite Hnm, Hnp. }
    rewrite Hrd. cbn [String.length].
    destruct Hrange as [Hlo Hhi].
    destruct (Z.gtb_spec (if String.eqb sg "-" then - v else v) LONG_MAX); [lia|].
    destruct (Z.ltb_spec (if String.eqb sg "-" then - v else v) LONG_MIN); [lia|].
    cbn [orb]. rewrite !str_length_app. cbn [String.length].
    destruct (Nat.eqb_spec (String.length sp + String.length sg + S (String.length r)) 0);
      [lia|].
    rewrite Nat.add_assoc, Nat.ltb_irrefl. done.
Qed.

(** C7 as amended: when /proc/self/fd can be read, a descriptor that was
    open is closed by close_all_fds exactly when some entry name is
    converted in full by strtol without a range error, the value as an
    [int] is that descriptor, it is not the descriptor of the directory
    stream and it is not excluded; any other descriptor is left as it was,
    and the descriptor of the stream is still open when the loop ends,
    whether the listing names it or not.
    The names strtol converts in full are: white space, an optional sign,
    then digits only, with a value that fits a [long]; so names of digits
    only are all taken, with their value. *)
Theorem close_all_fds_closes_iff cfg exclude w d names w1 x o :
  opendir_fddir w = (Some (d, names), w1) ->
  w_fds w !! x = Some o ->
  (w_fds (close_all_fds cfg exclude w) !! x = None <->
   swept strtol_accepts d exclude names x) /\
  (~ swept strtol_accepts d exclude names x ->
   w_fds (close_all_fds cfg exclude w) !! x = Some o) /\
  is_Some (w_fds (sweep_entries d names exclude w1) !! d) /\
  (forall d_name y, strtol_accepts d_name = Some y <-> strtol_shape d_name y) /\
  (forall d_name v,
     pure_digit_name d_name = Some v -> v <= LONG_MAX ->
     strtol_accepts d_name = Some (to_int v)).
Proof.
  intros Hopen Hx. unfold close_all_fds, closedir, dirfd. rewrite Hopen. simpl.
  rewrite close_fds.
  apply opendir_fddir_ok in Hopen as (_ & Hd & _ & od & Hfds).
  assert (x <> d) as Hxd by congruence.
  rewrite lookup_delete_ne by done.
  assert (~ swept strtol_accepts d exclude names x ->
          w_fds (sweep_entries d names exclude w1) !! x = Some o) as Hkept.
  { intros Hno. rewrite sweep_entries_kept by done.
    rewrite Hfds. by rewrite lookup_insert_ne. }
  split; [split|split; [|split; [|split]]].
  - intros Hnone.
    destruct (classic_swept_dec strtol_accepts d exclude names x) as [?|Hno]; [done|].
    rewrite (Hkept Hno) in Hnone. done.
  - apply sweep_entries_swept.
  - done.
  - rewrite sweep_entries_kept by (by intros (? & _ & _ & ? & _)).
    rewrite Hfds, lookup_insert_eq. by eexists.
  - apply strtol_accepts_shape.
  - apply pure_digit_name_accepted.
Qed.
Lemma close_all_fds_closes_iff_witness :
  let w := Sample.w_listing ["."; ".."; "0"; "1"; "2"; "3"; "5"; "6"; "7"] in
  w_fds (close_all_fds Sample.linux [0; 1; 2] w) !! 5 = None /\
  w_fds (close_all_fds Sample.linux [0; 1; 2] w) !! 1 = Some Sample.tty.
Proof.
  intros w.
  set (names := ["."; ".."; "0"; "1"; "2"; "3"; "5"; "6"; "7"]).
  split.
  - refine (proj2 (proj1 (close_all_fds_closes_iff Sample.linux [0; 1; 2] w 3 names
                             (snd (opendir_fddir w)) 5 Sample.tty _ _)) _);
      [by vm_compute|by vm_compute|].
    exists "5". split; [unfold names; set_solver|].
    split; [by vm_compute|]. split; [done|by vm_compute].
  - refine (proj1 (proj2 (close_all_fds_closes_iff Sample.linux [0; 1; 2] w 3 names
                             (snd (opendir_fddir w)) 1 Sample.tty _ _)) _);
      [by vm_compute|by vm_compute|].
    intros (n & _ & _ & _ & Hex). by vm_compute in Hex.
Defined.

(** C7 as stated fails on the code: with an entry called "+5" in the listing
    descriptor 5 is closed, although no entry that is a string of digits
    stands for it. *)
Lemma close_all_fds_signed_name :
  let w := Sample.w_listing ["+5"] in
  fst (opendir_fddir w) = Some (3, ["+5"]) /\
  w_fds w !! 5 = Some Sample.tty /\
  ~ (w_fds (close_all_fds Sample.linux [0; 1; 2] w) !! 5 = None <->
     swept pure_digit_name 3 [0; 1; 2] ["+5"] 5).
Proof.
  intros w. split; [by vm_compute|]. split; [by vm_compute|].
  intros [Hclosed _].
  destruct Hclosed as (n & Hin & Hacc & _); [by vm_compute|].
  apply list_elem_of_singleton in Hin as ->. by vm_compute in Hacc.
Qed.

(** The sweep of the specification's test: with 0, 1, 2, 5, 6 and 7 open and
    0, 1, 2 excluded, 0, 1 and 2 are what is left, by either strategy, and a
    second sweep changes nothing. *)
Example close_all_fds_sweep :
  let w := Sample.w_listing ["."; ".."; "0"; "1"; "2"; "3"; "5"; "6"; "7"] in
  let w1 := close_all_fds Sample.linux [0; 1; 2] w in
  w_fds w1 = Sample.stdio /\
  w_fds (close_all_fds Sample.linux [0; 1; 2] w1) = Sample.stdio /\
  w_fds (close_all_fds Sample.linux [0; 1; 2] (Sample.world_of Sample.six ∅ None Sample.calm))
  = Sample.stdio.
Proof. by vm_compute. Qed.
(** ** mkdir_p *)

Lemma break_slash_shorter p seg p' :
  break_slash p = (seg, Some p') -> (String.length p' < String.length p)%nat.
Proof.
  revert seg; induction p as [|c p IH]; intros seg; simpl; [done|].
  destruct (Ascii.eqb c "/"); [intros [= <- <-]; lia|].
  destruct (break_slash p) as [seg0 e]. intros [= <- ->].
  specialize (IH _ eq_refl). lia.
Qed.

Lemma break_slash_none p : break_slash p = ("", None) -> p = "".
Proof.
  destruct p as [|c p]; simpl; [done|].
  destruct (Ascii.eqb c "/"); [done|]. by destruct (break_slash p).
Qed.

(** The accumulated directories, read off with strchr as the code does. *)
Lemma prefixes_from_break done seg0 p :
  prefixes_from done seg0 p =
  let '(seg, e) := break_slash p in
  match seg0 +:+ seg with
  | "" => []
  | _ => [done +:+ seg0 +:+ seg]
  end ++
  match e with
  | None => []
  | Some p' => prefixes_from (done +:+ seg0 +:+ seg +:+ "/") "" p'
  end.
Proof.
  revert seg0; induction p as [|c p IH]; intros seg0; simpl.
  - rewrite str_app_nil_r. by destruct seg0.
  - destruct (Ascii.eqb c "/").
    + rewrite str_app_nil_r. by destruct seg0.
    + rewrite IH. destruct (break_slash p) as [seg e].
      by rewrite !str_app_assoc, !str_app_cons.
Qed.

(** The loop of mkdir_p does what the specification's algorithm does, and
    it ends before the fuel does. *)
Lemma mkdir_p_loop_create_all fuel done p mode w :
  (String.length p < fuel)%nat ->
  mkdir_p_loop fuel done p mode 0 w =
  Some (create_all (prefixes_from done "" p) mode w).
Proof.
  revert done p w; induction fuel as [|fuel IH]; intros done p w Hlen; [lia|].
  destruct p as [|c p]; [done|].
  rewrite prefixes_from_break.
  cbn [mkdir_p_loop].
  destruct (break_slash (String c p)) as [seg e] eqn:Eb.
  destruct seg as [|x seg].
  - destruct e as [p'|]; [|by apply break_slash_none in Eb].
    apply break_slash_shorter in Eb. rewrite !str_app_nil_l. simpl in *.
    apply IH. lia.
  - rewrite !str_app_nil_l. cbn [create_all List.app].
    destruct (mkdir (done +:+ String x seg) mode w) as [rc w1].
    destruct (rc =? 0) eqn:Hrc; cbn [negb andb].
    + destruct e as [p'|]; [|done].
      apply break_slash_shorter in Eb. simpl in *. apply IH. lia.
    + destruct (w_errno w1 =? EEXIST); cbn [negb]; [|done].
      destruct e as [p'|]; [|done].
      apply break_slash_shorter in Eb. simpl in *. apply IH. lia.
Qed.

(** mkdir_p on a non-empty path whose copy succeeds. *)
Lemma mkdir_p_create_all path mode w n :
  path <> "" -> w_oracle w (w_clock w) = Proceed n ->
  mkdir_p (Some path) mode w =
  Some (create_all (segment_prefixes path) mode (tick w)).
Proof.
  intros Hne Hev. unfold mkdir_p, strdup, next_event. rewrite Hev.
  destruct path as [|c p]; [done|].
  unfold segment_prefixes.
  destruct (Ascii.eqb c "/") eqn:Ec.
  - cbn [prefixes_from]. rewrite Ec, str_app_nil_l.
    apply mkdir_p_loop_create_all; simpl; lia.
  - apply mkdir_p_loop_create_all; simpl; lia.
Qed.
Lemma nonempty_seg_app acc seg :
  nonempty_seg (acc +:+ seg) = [] -> acc = "" /\ seg = "".
Proof.
  destruct (acc +:+ seg) eqn:E; [|done]. intros _. by apply str_app_empty.
Qed.

Lemma split_from_noslash seg acc :
  noslash seg = true -> split_from acc seg = nonempty_seg (acc +:+ seg).
Proof.
  revert acc; induction seg as [|c seg IH]; intros acc; simpl.
  - by rewrite str_app_nil_r.
  - intros [Hc Hs]%andb_true_iff. apply negb_true_iff in Hc. rewrite Hc.
    rewrite IH by done. by rewrite str_app_assoc.
Qed.

Lemma split_from_slash seg acc t :
  noslash seg = true ->
  split_from acc (seg +:+ "/" +:+ t) = nonempty_seg (acc +:+ seg) ++ split_from "" t.
Proof.
  revert acc; induction seg as [|c seg IH]; intros acc; simpl.
  - by rewrite str_app_nil_r.
  - intros [Hc Hs]%andb_true_iff. apply negb_true_iff in Hc.
    rewrite str_app_cons. cbn [split_from]. rewrite Hc.
    rewrite IH by done. by rewrite str_app_assoc.
Qed.

Lemma noslash_snoc seg c :
  noslash seg = true -> Ascii.eqb c "/" = false ->
  noslash (seg +:+ String c "") = true.
Proof.
  intros Hs Hc; induction seg as [|x seg IH].
  - rewrite str_app_nil_l. simpl. by rewrite Hc.
  - rewrite str_app_cons. simpl in *.
    apply andb_true_iff in Hs as [-> Hs]. by rewrite IH.
Qed.

Lemma boundary_slash done cs0 : boundary done cs0 -> boundary (done +:+ "/") cs0.
Proof. intros H t. rewrite str_app_assoc, H. done. Qed.

Lemma boundary_seg done cs0 seg :
  boundary done cs0 -> noslash seg = true ->
  boundary (done +:+ seg +:+ "/") (cs0 ++ nonempty_seg seg).
Proof.
  intros H Hs t. rewrite !str_app_assoc, H, split_from_slash by done.
  by rewrite str_app_nil_l, app_assoc.
Qed.

(** The accumulated directories have the initial segments of the path's
    components as their components. *)
Lemma prefixes_components s done cs0 seg :
  boundary done cs0 -> noslash seg = true ->
  map split_path (prefixes_from done seg s) = inits_from cs0 (split_from seg s).
Proof.
  revert done cs0 seg; induction s as [|c s IH]; intros done cs0 seg Hb Hs; simpl.
  - destruct seg as [|x seg]; [done|]. simpl.
    unfold split_path. rewrite Hb, split_from_noslash by done. done.
  - destruct (Ascii.eqb c "/") eqn:Hc.
    + destruct seg as [|x seg]; simpl.
      * apply IH; [by apply boundary_slash|done].
      * unfold split_path at 1. rewrite Hb, split_from_noslash by done.
        rewrite str_app_nil_l. simpl. f_equal.
        apply (IH _ (cs0 ++ [String x seg]) ""); [|done].
        by apply (boundary_seg done cs0 (String x seg)).
    + apply IH; [done|]. by apply noslash_snoc.
Qed.

Lemma segment_prefixes_components path :
  map split_path (segment_prefixes path) = inits_from [] (split_path path).
Proof. apply prefixes_components; [|done]. intros t. done. Qed.

Lemma is_absolute_app a b : a <> "" -> is_absolute (a +:+ b) = is_absolute a.
Proof. by destruct a. Qed.

(** The accumulated directories are non-empty names, absolute when the
    path is. *)
Lemma prefixes_absolute s done seg q :
  q ∈ prefixes_from done seg s ->
  q <> "" /\ is_absolute q = is_absolute (done +:+ seg +:+ s).
Proof.
  revert done seg; induction s as [|c s IH]; intros done seg; simpl.
  - destruct seg as [|x seg]; [by intros ?%elem_of_nil|].
    intros ->%list_elem_of_singleton. rewrite str_app_nil_r. split; [|done].
    intros [_ [=]]%str_app_empty.
  - destruct (Ascii.eqb c "/") eqn:Hc.
    + apply Ascii.eqb_eq in Hc as ->.
      destruct seg as [|x seg].
      * intros H%IH. by rewrite !str_app_assoc in H.
      * intros [->|H%IH]%elem_of_cons.
        -- split; [intros [_ [=]]%str_app_empty|].
           rewrite <- str_app_assoc.
           rewrite (is_absolute_app (done +:+ String x seg)); [done|].
           intros [_ [=]]%str_app_empty.
        -- by rewrite !str_app_assoc in H.
    + intros H%IH. by rewrite !str_app_assoc in H.
Qed.

Lemma segment_prefixes_absolute path q :
  q ∈ segment_prefixes path -> q <> "" /\ is_absolute q = is_absolute path.
Proof. apply prefixes_absolute. Qed.
Lemma grows_refl w : grows w w.
Proof. repeat split; auto. Qed.

Lemma grows_trans w1 w2 w3 : grows w1 w2 -> grows w2 w3 -> grows w1 w3.
Proof.
  intros (Hs1 & Hc1 & Hk1) (Hs2 & Hc2 & Hk2). split; [by etrans|].
  split; [congruence|]. intros l n H3.
  destruct (Hk2 _ _ H3) as [H2|]; [|by right]. by apply Hk1.
Qed.

Lemma grows_tick w : grows w (tick w).
Proof. apply (grows_refl w). Qed.

Lemma errno_of_not_EEXIST f : errno_of f <> EEXIST.
Proof. by destruct f. Qed.

Lemma walk_not_EEXIST fs cs cur : walk fs cur cs <> Err EEXIST.
Proof.
  revert cur; induction cs as [|c cs IH]; intros cur; simpl; [done|].
  destruct (step fs cur c) as [l|e] eqn:E; [apply IH|].
  unfold step in E. repeat case_match; by simplify_eq.
Qed.

(** mkdir(2) only ever adds a directory; its result is 0 or -1. *)
Lemma mkdir_grows d mode w rc w1 :
  mkdir d mode w = (rc, w1) -> grows w w1 /\ (rc = 0 \/ rc = -1).
Proof.
  unfold mkdir, fail; simpl.
  destruct (w_oracle w (w_clock w)).
  2:{ intros [= <- <-]. split; [exact (grows_refl w)|by right]. }
  destruct (create_target (tick w) d) as [l|e] eqn:Et.
  2:{ intros [= <- <-]. split; [exact (grows_refl w)|by right]. }
  intros [= <- <-]. split; [|by left].
  apply create_target_resolve in Et as (_ & Hfree & _). simpl in Hfree.
  split; [by apply insert_subseteq|]. split; [done|].
  simpl. intros l' n'. rewrite lookup_insert.
  case_decide; [intros [= <-]; by right|by left].
Qed.

(** After a mkdir that succeeded or met an existing entry, the name leads
    to an entry. *)
Lemma mkdir_there d mode w rc w1 :
  mkdir d mode w = (rc, w1) -> rc = 0 \/ w_errno w1 = EEXIST ->
  d <> "" /\
  exists l n,
    walk (w_fs w1) (start_of w d) (split_path d) = Ok l /\
    node_at (w_fs w1) l = Some n.
Proof.
  unfold mkdir, fail, create_target, resolve; simpl.
  destruct (w_oracle w (w_clock w)) as [k|f].
  2:{ intros [= <- <-] [|He]; [done|]. simpl in He.
      by apply errno_of_not_EEXIST in He. }
  destruct d as [|c d]; [intros [= <- <-] [|]; done|].
  set (p := String c d).
  change (start_of (tick w) p) with (start_of w p).
  destruct (walk (w_fs w) (start_of w p) (split_path p)) as [l|e] eqn:Ew.
  2:{ intros [= <- <-] [|He]; [done|]. simpl in He. subst e.
      by apply walk_not_EEXIST in Ew. }
  destruct (node_at (w_fs w) l) as [n|] eqn:En.
  { intros [= <- <-] _. split; [done|]. by exists l, n. }
  intros [= <- <-] _. split; [done|]. simpl.
  apply node_at_None_lookup in En as [Hfree Hne].
  exists l, (Dir (apply_umask mode (tick w))). split.
  - eapply walk_mono; [|exact Ew]. by apply insert_subseteq.
  - rewrite node_at_lookup by done. apply lookup_insert_eq.
Qed.

Lemma create_all_grows dirs mode w rc w' :
  create_all dirs mode w = (rc, w') -> grows w w'.
Proof.
  revert w; induction dirs as [|d dirs IH]; intros w; simpl.
  - intros [= <- <-]. apply grows_refl.
  - destruct (mkdir d mode w) as [rc1 w1] eqn:Em.
    apply mkdir_grows in Em as [Hg _].
    destruct (rc1 =? 0); [intros ?%IH; by eapply grows_trans|].
    destruct (w_errno w1 =? EEXIST); [intros ?%IH; by eapply grows_trans|].
    by intros [= <- <-].
Qed.

Lemma start_of_grows w w' d : grows w w' -> start_of w' d = start_of w d.
Proof. intros (_ & Hc & _). unfold start_of. by rewrite Hc. Qed.

(** A name that leads somewhere keeps doing so while the name space grows. *)
Lemma there_grows w w' start cs l n :
  grows w w' -> walk (w_fs w) start cs = Ok l -> node_at (w_fs w) l = Some n ->
  walk (w_fs w') start cs = Ok l /\ node_at (w_fs w') l = Some n.
Proof.
  intros (Hs & _ & _) Hw Hn. split.
  - by eapply walk_mono.
  - by eapply node_at_mono.
Qed.

(** When the algorithm goes through, the last directory of the list is
    there. *)
Lemma create_all_there cs pre dirs mode start w w' :
  (forall d, d ∈ dirs -> start_of w d = start) ->
  map split_path dirs = inits_from pre cs ->
  (cs = [] -> exists l n, walk (w_fs w) start pre = Ok l /\ node_at (w_fs w) l = Some n) ->
  create_all dirs mode w = (0, w') ->
  exists l n, walk (w_fs w') start (pre ++ cs) = Ok l /\ node_at (w_fs w') l = Some n.
Proof.
  revert pre dirs w; induction cs as [|c cs IH]; intros pre dirs w Hstart Hmap Hpre.
  - destruct dirs; [|done]. simpl. intros [= <-]. rewrite app_nil_r. by apply Hpre.
  - destruct dirs as [|d dirs]; [done|]. simpl in Hmap. injection Hmap as Hd Hmap.
    simpl. destruct (mkdir d mode w) as [rc w1] eqn:Em.
    pose proof (mkdir_grows _ _ _ _ _ Em) as [Hg Hrc].
    assert (rc = 0 \/ w_errno w1 = EEXIST -> create_all dirs mode w1 = (0, w') ->
            exists l n, walk (w_fs w') start (pre ++ c :: cs) = Ok l /\
                        node_at (w_fs w') l = Some n) as Hgo.
    { intros Hok Hrest.
      destruct (mkdir_there _ _ _ _ _ Em Hok) as (_ & l & n & Hw & Hn).
      rewrite Hd, (Hstart d) in Hw by left.
      rewrite (cons_middle c pre cs), app_assoc.
      apply (IH (pre ++ [c]) dirs w1); try done.
      - intros d' Hd'. rewrite (start_of_grows _ _ _ Hg). apply Hstart. by right.
      - intros _. by exists l, n. }
    destruct (rc =? 0) eqn:E0; [apply Hgo; lia|].
    destruct (w_errno w1 =? EEXIST) eqn:Ee; [apply Hgo; lia|].
    intros [= -> <-]. lia.
Qed.

Lemma split_from_acc acc s : acc <> "" -> split_from acc s <> [].
Proof.
  revert acc; induction s as [|c s IH]; intros acc Hacc; simpl.
  - by destruct acc.
  - destruct (Ascii.eqb c "/"); [by destruct acc|].
    apply IH. intros [_ [=]]%str_app_empty.
Qed.

Lemma split_path_nil path : path <> "" -> split_path path = [] -> is_absolute path = true.
Proof.
  destruct path as [|c s]; [done|]. intros _. unfold split_path; simpl.
  destruct (Ascii.eqb c "/"); [done|]. intros H. by apply split_from_acc in H.
Qed.
(** C4 as amended: when mkdir_p returns success the full path leads to an
    entry, and that entry is a directory unless it was there before the call
    (a regular file in the place of the last component is taken for the
    directory, since mkdir reports EEXIST for it too); for "/a/b/c" with "/a"
    a regular file the call fails. *)
Theorem mkdir_p_success mode w :
  (forall path w',
     mkdir_p (Some path) mode w = Some (0, w') ->
     exists l n,
       resolve w' path = Ok l /\ node_at (w_fs w') l = Some n /\
       (is_dir n \/ node_at (w_fs w) l = Some n)) /\
  (forall m,
     w_fs w !! ["a"] = Some (File m) ->
     exists rc w', mkdir_p (Some "/a/b/c") mode w = Some (rc, w') /\ rc < 0).
Proof.
  split.
  - intros path w' H.
    destruct (decide (path = "")) as [->|Hne]; [done|].
    destruct (w_oracle w (w_clock w)) as [k|f] eqn:Hev.
    2:{ unfold mkdir_p, strdup, next_event in H. rewrite Hev in H.
        by destruct path. }
    rewrite (mkdir_p_create_all _ _ _ _ Hne Hev) in H. injection H as H.
    pose proof (create_all_grows _ _ _ _ _ H) as Hg.
    destruct (create_all_there (split_path path) [] (segment_prefixes path) mode
                (start_of w path) (tick w) w') as (l & n & Hw & Hn); try done.
    + intros d [_ Hd]%segment_prefixes_absolute.
      unfold start_of. by rewrite Hd.
    + apply segment_prefixes_components.
    + intros Hnil. apply split_path_nil in Hnil; [|done].
      unfold start_of. rewrite Hnil. by exists [], (Dir 493).
    + exists l, n. split; [|split; [done|]].
      * unfold resolve. destruct path; [done|].
        by rewrite (start_of_grows _ _ _ Hg).
      * destruct l as [|c l]; [injection Hn as <-; by left|].
        destruct Hg as (_ & _ & Hk). simpl in Hn.
        destruct (Hk _ _ Hn) as [?|?]; [by right|by left].
  - intros m Ha.
    assert (forall w0, w_fs w0 = w_fs w ->
              exists e, mkdir "/a" mode w0 = (-1, set_errno e (tick w0))) as Hm1.
    { intros w0 Hfs. unfold mkdir, create_target, resolve, start_of, fail, next_event.
      destruct (w_oracle w0 (w_clock w0)); [|by eexists].
      change (split_path "/a") with ["a"]. simpl. rewrite Hfs, Ha. by eexists. }
    assert (forall w0, w_fs w0 = w_fs w ->
              exists e, e <> EEXIST /\
                        mkdir "/a/b" mode w0 = (-1, set_errno e (tick w0))) as Hm2.
    { intros w0 Hfs. unfold mkdir, create_target, resolve, start_of, fail, next_event.
      destruct (w_oracle w0 (w_clock w0)) as [k|f];
        [|exists (errno_of f); split; [apply errno_of_not_EEXIST|done]].
      change (split_path "/a/b") with ["a"; "b"]. simpl. unfold step. simpl.
      rewrite Hfs, Ha. by exists ENOTDIR. }
    destruct (w_oracle w (w_clock w)) as [k|f] eqn:Hev.
    2:{ unfold mkdir_p, strdup, next_event. rewrite Hev. by eexists _, _. }
    rewrite (mkdir_p_create_all _ _ _ k) by done.
    change (segment_prefixes "/a/b/c") with ["/a"; "/a/b"; "/a/b/c"].
    cbn [create_all]. destruct (Hm1 (tick w)) as [e1 ->]; [done|].
    cbn [Z.eqb w_errno set_errno].
    destruct (e1 =? EEXIST); [|by eexists _, _].
    destruct (Hm2 (set_errno e1 (tick (tick w)))) as (e2 & He2 & ->); [done|].
    cbn [Z.eqb w_errno set_errno].
    replace (e2 =? EEXIST) with false by lia. by eexists _, _.
Qed.

Lemma mkdir_p_success_witness :
  (exists l,
     resolve (snd (default (0, Sample.w_std) (mkdir_p (Some "/x/y") 493 Sample.w_std)))
             "/x/y" = Ok l) /\
  (exists rc w',
     mkdir_p (Some "/a/b/c") 493 Sample.w_file_a = Some (rc, w') /\ rc < 0).
Proof.
  split.
  - destruct (proj1 (mkdir_p_success 493 Sample.w_std) "/x/y"
                (snd (default (0, Sample.w_std) (mkdir_p (Some "/x/y") 493 Sample.w_std))))
      as (l & n & Hl & _); [by vm_compute|].
    by exists l.
  - refine (proj2 (mkdir_p_success 493 Sample.w_file_a) 420 _). by vm_compute.
Defined.

(** C4 as stated fails on the code: with a regular file at /a, mkdir_p("/a")
    returns success and /a is still the regular file. *)
Lemma mkdir_p_over_regular_file :
  exists w',
    mkdir_p (Some "/a") 493 Sample.w_file_a = Some (0, w') /\
    lookup_path w' "/a" = Some (File 420) /\
    ~ is_dir (File 420).
Proof.
  exists (snd (default (0, Sample.w_std) (mkdir_p (Some "/a") 493 Sample.w_file_a))).
  split; [by vm_compute|]. split; [by vm_compute|]. by intros [].
Qed.
Lemma create_all_app dirs1 dirs mode w w1 :
  create_all dirs1 mode w = (0, w1) ->
  create_all (dirs1 ++ dirs) mode w = create_all dirs mode w1.
Proof.
  revert w; induction dirs1 as [|d dirs1 IH]; intros w; simpl.
  - by intros [= <-].
  - destruct (mkdir d mode w) as [rc w'].
    destruct (rc =? 0) eqn:E0; [apply IH|].
    destruct (w_errno w' =? EEXIST); [apply IH|].
    intros [= -> <-]. lia.
Qed.

Lemma lookup_path_grows w w' d n :
  grows w w' -> lookup_path w d = Some n -> lookup_path w' d = Some n.
Proof.
  intros Hg. unfold lookup_path, resolve. destruct d as [|c d]; [done|].
  rewrite (start_of_grows _ _ _ Hg).
  destruct (walk (w_fs w) _ _) as [l|] eqn:Hw; [|done]. intros Hn.
  destruct (there_grows _ _ _ _ _ _ Hg Hw Hn) as [-> ?]. done.
Qed.

(** When the algorithm goes through, every directory of the list is there. *)
Lemma create_all_each_there dirs mode w w' d :
  create_all dirs mode w = (0, w') -> d ∈ dirs -> is_Some (lookup_path w' d).
Proof.
  revert w; induction dirs as [|d0 dirs IH]; intros w H Hin; [by inversion Hin|].
  simpl in H. destruct (mkdir d0 mode w) as [rc w1] eqn:Em.
  pose proof (mkdir_grows _ _ _ _ _ Em) as [Hg _].
  assert (rc = 0 \/ w_errno w1 = EEXIST -> create_all dirs mode w1 = (0, w') ->
          is_Some (lookup_path w' d)) as Hgo.
  { intros Hok Hrest. apply elem_of_cons in Hin as [->|Hin]; [|by eapply IH].
    destruct (mkdir_there _ _ _ _ _ Em Hok) as (Hne & l & n & Hw & Hn).
    exists n. apply (lookup_path_grows w1); [by eapply create_all_grows|].
    unfold lookup_path, resolve. destruct d0; [done|].
    by rewrite (start_of_grows _ _ _ Hg), Hw. }
  destruct (rc =? 0) eqn:E0; [apply Hgo; [lia|done]|].
  destruct (w_errno w1 =? EEXIST) eqn:Ee; [apply Hgo; [lia|done]|].
  injection H as -> <-. lia.
Qed.

(** C8: mkdir_p gives -EINVAL for a NULL or empty path and -ENOMEM when the
    path cannot be copied; otherwise it is the specification's algorithm on
    the accumulated directories: at a directory [d] reached with everything
    before it made or found, an already-exists failure (or a success) lets
    the walk continue with the rest, and any other failure is returned from
    there, with nothing removed and the directories before [d] in place. *)
Theorem mkdir_p_errors mode w :
  mkdir_p None mode w = Some (- EINVAL, w) /\
  mkdir_p (Some "") mode w = Some (- EINVAL, w) /\
  (forall path f,
     path <> "" -> w_oracle w (w_clock w) = Fault f ->
     exists w', mkdir_p (Some path) mode w = Some (- ENOMEM, w') /\ w_fs w' = w_fs w) /\
  (forall path k dirs1 d dirs2 w1 rc w2,
     path <> "" -> w_oracle w (w_clock w) = Proceed k ->
     segment_prefixes path = dirs1 ++ d :: dirs2 ->
     create_all dirs1 mode (tick w) = (0, w1) ->
     mkdir d mode w1 = (rc, w2) ->
     (rc = 0 \/ w_errno w2 = EEXIST ->
      mkdir_p (Some path) mode w = Some (create_all dirs2 mode w2)) /\
     (rc <> 0 -> w_errno w2 <> EEXIST ->
      mkdir_p (Some path) mode w = Some (rc, w2) /\ rc = -1 /\
      w_fs w ⊆ w_fs w2 /\
      forall d', d' ∈ dirs1 -> is_Some (lookup_path w2 d'))).
Proof.
  split; [done|]. split; [done|]. split.
  - intros path f Hne Hev. unfold mkdir_p, strdup, next_event. rewrite Hev.
    destruct path; [done|]. by eexists.
  - intros path k dirs1 d dirs2 w1 rc w2 Hne Hev Hseg H1 Hm.
    rewrite (mkdir_p_create_all _ _ _ _ Hne Hev), Hseg.
    rewrite (create_all_app _ _ _ _ _ H1). cbn [create_all]. rewrite Hm.
    pose proof (mkdir_grows _ _ _ _ _ Hm) as [Hg2 Hrc].
    pose proof (create_all_grows _ _ _ _ _ H1) as Hg1.
    split.
    + intros [->|He]; [done|]. rewrite He.
      change (EEXIST =? EEXIST) with true. by destruct (rc =? 0).
    + intros Hrc0 He.
      replace (rc =? 0) with false by lia.
      replace (w_errno w2 =? EEXIST) with false by lia.
      split; [done|]. split; [lia|]. split.
      * destruct Hg1 as [? _], Hg2 as [? _]. by etrans.
      * intros d' Hd'.
        destruct (create_all_each_there _ _ _ _ _ H1 Hd') as [n Hn].
        exists n. by eapply lookup_path_grows.
Qed.

Lemma mkdir_p_errors_witness :
  exists w2,
    mkdir_p (Some "/a/b/c") 493 Sample.w_file_a = Some (-1, w2) /\
    w_errno w2 = ENOTDIR /\ is_Some (lookup_path w2 "/a").
Proof.
  set (w := Sample.w_file_a).
  set (w1 := snd (create_all ["/a"] 493 (tick w))).
  set (w2 := snd (mkdir "/a/b" 493 w1)).
  destruct (proj2 (proj2 (proj2 (mkdir_p_errors 493 w))) "/a/b/c" 4096%nat
              ["/a"] "/a/b" ["/a/b/c"] w1 (-1) w2) as [_ Hhalt];
    [done|by vm_compute|by vm_compute|by vm_compute|by vm_compute|].
  destruct Hhalt as (Hr & _ & _ & Hthere); [lia|by vm_compute|].
  exists w2. split; [exact Hr|]. split; [by vm_compute|].
  apply Hthere. apply list_elem_of_singleton. done.
Defined.
(** ** Copying: bytes and offsets *)

Lemma pwrite_nonnil data pos chunk :
  chunk <> [] ->
  pwrite data pos chunk =
  take pos data ++ replicate (pos - length data) x00 ++ chunk
    ++ drop (pos + length chunk) data.
Proof. by destruct chunk. Qed.

Lemma pwrite_front_length (data : list Byte.byte) pos :
  length (take pos data ++ replicate (pos - length data) x00) = pos.
Proof. rewrite length_app, length_take, length_replicate. lia. Qed.

(** Two writes one after the other are one write of both chunks. *)
Lemma pwrite_pwrite data pos a b :
  pwrite (pwrite data pos a) (pos + length a) b = pwrite data pos (a ++ b).
Proof.
  destruct (decide (a = [])) as [->|Ha].
  { simpl. by rewrite Nat.add_0_r. }
  destruct (decide (b = [])) as [->|Hb].
  { by rewrite app_nil_r. }
  rewrite (pwrite_nonnil _ _ b Hb), (pwrite_nonnil _ _ a Ha).
  rewrite (pwrite_nonnil _ _ (a ++ b)) by (by destruct a).
  pose proof (pwrite_front_length data pos) as Hfront.
  set (front := take pos data ++ replicate (pos - length data) x00) in *.
  set (tail := drop (pos + length a) data).
  assert (length (front ++ a) = pos + length a)%nat as Hfa
    by (rewrite length_app; lia).
  replace (take pos data ++ replicate (pos - length data) x00 ++ a ++ tail)
    with ((front ++ a) ++ tail) by (unfold front; by rewrite <- !app_assoc).
  rewrite take_app_length' by done.
  replace (pos + length a - length ((front ++ a) ++ tail))%nat with 0%nat
    by (rewrite length_app; lia).
  rewrite drop_app_add' by done.
  unfold tail. rewrite drop_drop, length_app.
  replace (pos + length a + length b)%nat with (pos + (length a + length b))%nat by lia.
  simpl. unfold front. by rewrite <- !app_assoc.
Qed.

(** Reading back where the chunk was written gives the chunk. *)
Lemma pwrite_read_back data pos chunk :
  take (length chunk) (drop pos (pwrite data pos chunk)) = chunk.
Proof.
  destruct (decide (chunk = [])) as [->|Hc]; [done|].
  rewrite pwrite_nonnil by done. rewrite app_assoc.
  rewrite drop_app_length' by (by rewrite pwrite_front_length).
  by rewrite take_app_length.
Qed.

Lemma put_nil o : put [] o = o.
Proof. destruct o; unfold put; simpl. by rewrite Nat.add_0_r. Qed.

Lemma put_put a b o : put b (put a o) = put (a ++ b) o.
Proof.
  unfold put; simpl. rewrite pwrite_pwrite, length_app. f_equal. lia.
Qed.

Lemma advance_0 o : advance 0 o = o.
Proof. destruct o; unfold advance; simpl. by rewrite Nat.add_0_r. Qed.

Lemma advance_advance j k o : advance k (advance j o) = advance (j + k) o.
Proof. unfold advance; simpl. f_equal. lia. Qed.

Lemma unread_advance j o : unread (advance j o) = drop j (unread o).
Proof. unfold unread, advance; simpl. by rewrite drop_drop. Qed.

(** Writing never adds to what is left to read behind the same descriptor. *)
Lemma unread_put c o : (length (unread (put c o)) <= length (unread o))%nat.
Proof.
  unfold unread, put; simpl.
  destruct (decide (c = [])) as [->|Hc].
  { simpl. rewrite !length_drop. lia. }
  rewrite pwrite_nonnil by done. rewrite !length_drop, !length_app.
  rewrite length_take, length_replicate, length_drop. lia.
Qed.

Lemma moved_le n count avail :
  (moved n count avail <= length avail)%nat /\ Z.of_nat (moved n count avail) <= Z.max 0 count.
Proof. unfold moved. lia. Qed.

Lemma moved_pos n count avail :
  0 < count -> avail <> [] -> (0 < moved n count avail)%nat.
Proof. unfold moved. destruct avail; [done|]. simpl. lia. Qed.

Lemma moved_0 n count avail : 0 < count -> moved n count avail = 0%nat -> avail = [].
Proof.
  intros Hc H. destruct avail as [|x avail]; [done|].
  pose proof (moved_pos n count (x :: avail) Hc ltac:(done)). lia.
Qed.
(** ** Copying: the system calls *)

Lemma read_spec from count w nr buf w' :
  read from count w = (nr, buf, w') ->
  w_oracle w' = w_oracle w /\ w_clock w' = S (w_clock w) /\
  ((nr = -1 /\ buf = [] /\ w_fds w' = w_fds w /\ w_io w' = w_io w) \/
   (exists o,
      w_fds w !! from = Some o /\
      buf = take (length buf) (unread o) /\ nr = Z.of_nat (length buf) /\
      (length buf <= length (unread o))%nat /\ nr <= Z.max 0 count /\
      (0 < count -> nr = 0 -> unread o = []) /\
      w_fds w' = <[from := advance (length buf) o]> (w_fds w) /\
      w_io w' = w_io w ++ [IoRead from buf])).
Proof.
  unfold read; simpl.
  destruct (w_fds w !! from) as [o|]; [|intros [= <- <- <-]; repeat split; try done; by left].
  destruct (w_oracle w (w_clock w)) as [n|f]; [|intros [= <- <- <-]; repeat split; try done; by left].
  intros [= <- <- <-]. split; [done|]. split; [done|]. right. exists o.
  pose proof (moved_le n count (unread o)) as [Hm1 Hm2].
  assert (length (take (moved n count (unread o)) (unread o))
          = moved n count (unread o)) as Hlen
    by (rewrite length_take; lia).
  rewrite Hlen. repeat split; try done; try lia.
  intros Hc H0. apply (moved_0 n count); [done|lia].
Qed.

Lemma write_spec to bytes w nw w' :
  write to bytes w = (nw, w') ->
  w_oracle w' = w_oracle w /\ w_clock w' = S (w_clock w) /\
  ((nw = -1 /\ w_fds w' = w_fds w /\ w_io w' = w_io w) \/
   (exists o n,
      w_fds w !! to = Some o /\ w_oracle w (w_clock w) = Proceed n /\
      nw = Z.of_nat (length (take n bytes)) /\
      w_fds w' = <[to := put (take n bytes) o]> (w_fds w) /\
      w_io w' = w_io w ++ [IoWrite to (take n bytes)])).
Proof.
  unfold write, fail; simpl.
  destruct (w_fds w !! to) as [o|]; [|intros [= <- <-]; repeat split; try done; by left].
  destruct (w_oracle w (w_clock w)) as [n|f] eqn:E; [|intros [= <- <-]; repeat split; try done; by left].
  intros [= <- <-]. split; [done|]. split; [done|]. right. by exists o, n.
Qed.

Lemma fstat_spec fd w r isreg size w' :
  fstat fd w = (r, isreg, size, w') ->
  w_fds w' = w_fds w /\ w_oracle w' = w_oracle w /\ w_clock w' = S (w_clock w) /\
  w_io w' = w_io w /\
  (r = -1 \/ r = 0 /\ exists o, w_fds w !! fd = Some o /\ 0 <= size /\
                                   (isreg = true <-> of_kind o = Regular)).
Proof.
  unfold fstat; simpl.
  destruct (w_fds w !! fd) as [o|]; [|intros [= <- <- <- <-]; repeat split; try done; by left].
  destruct (w_oracle w (w_clock w)) as [n|f]; [|intros [= <- <- <- <-]; repeat split; try done; by left].
  intros [= <- <- <- <-]. repeat split; try done. right. split; [done|].
  exists o. repeat split; try done; try lia; by destruct (of_kind o).
Qed.

Lemma sendfile_spec to from count w nw w' :
  from <> to ->
  sendfile to from count w = (nw, w') ->
  w_oracle w' = w_oracle w /\ w_clock w' = S (w_clock w) /\ w_io w' = w_io w /\
  ((nw = -1 /\ w_fds w' = w_fds w) \/
   (exists i o chunk,
      w_fds w !! from = Some i /\ w_fds w !! to = Some o /\
      chunk = take (length chunk) (unread i) /\ nw = Z.of_nat (length chunk) /\
      (length chunk <= length (unread i))%nat /\ nw <= Z.max 0 count /\
      (0 < count -> nw = 0 -> unread i = []) /\
      w_fds w' = <[to := put chunk o]> (<[from := advance (length chunk) i]> (w_fds w)))).
Proof.
  intros Hne. unfold sendfile, fail; simpl.
  destruct (w_fds w !! from) as [i|] eqn:Ei; [|intros [= <- <-]; repeat split; try done; by left].
  destruct (w_fds w !! to) as [o|] eqn:Eo; [|intros [= <- <-]; repeat split; try done; by left].
  destruct (w_oracle w (w_clock w)) as [n|f]; [|intros [= <- <-]; repeat split; try done; by left].
  destruct (of_kind i); [|intros [= <- <-]; repeat split; try done; by left].
  rewrite lookup_insert_ne by done. rewrite Eo.
  intros [= <- <-]. repeat split; try done. right. exists i, o.
  pose proof (moved_le n count (unread i)) as [Hm1 Hm2].
  assert (length (take (moved n count (unread i)) (unread i))
          = moved n count (unread i)) as Hlen
    by (rewrite length_take; lia).
  eexists. rewrite Hlen. repeat split; try done; try lia.
  intros Hc H0. apply (moved_0 n count); [done|lia].
Qed.
(** ** Copying: the buffered loop *)

Lemma write_chunk_result fuel to buf off nr w r w' :
  write_chunk fuel to buf off nr w = Some (r, w') -> r = 0 \/ r = -2.
Proof.
  revert off nr w; induction fuel as [|fuel IH]; intros off nr w; simpl.
  - destruct (nr >? 0); [done|]. intros [= <- <-]; by left.
  - destruct (nr >? 0); [|intros [= <- <-]; by left].
    destruct (write _ _ _) as [nw w1].
    destruct (nw <? 0); [intros [= <- <-]; by right|apply IH].
Qed.

(** One more piece of what was read goes out. *)
Lemma copying_write from to src dst jr jw w w' n bytes :
  from <> to -> copying from to src dst jr jw w ->
  bytes = take (jr - jw) (drop jw (unread src)) ->
  w_fds w' = <[to := put (take n bytes) (put (take jw (unread src)) dst)]> (w_fds w) ->
  copying from to src dst jr (jw + length (take n bytes)) w' /\
  (length (take n bytes) <= jr - jw)%nat.
Proof.
  intros Hne (Hf & Ht & Hj) -> Hfds.
  assert (length (take n (take (jr - jw) (drop jw (unread src))))
          = Nat.min n (jr - jw)) as Hlen.
  { rewrite !length_take, length_drop. lia. }
  split; [|lia]. unfold copying. rewrite Hfds.
  rewrite lookup_insert_ne by done. rewrite lookup_insert_eq.
  split; [done|]. split; [|lia]. f_equal.
  rewrite put_put. f_equal. rewrite Hlen, take_take.
  apply take_take_drop.
Qed.

Lemma write_chunk_copying fuel from to src dst buf jr :
  from <> to ->
  forall off nr jw w w',
  copying from to src dst jr jw w ->
  0 <= off -> 0 <= nr ->
  take (Z.to_nat nr) (drop (Z.to_nat off) buf) = take (jr - jw) (drop jw (unread src)) ->
  Z.to_nat nr = (jr - jw)%nat ->
  write_chunk fuel to buf off nr w = Some (0, w') ->
  copying from to src dst jr jr w'.
Proof.
  intros Hne. induction fuel as [|fuel IH]; intros off nr jw w w' Hc Hoff Hnr Hbuf Hlen.
  - simpl. destruct (Z.gtb_spec nr 0) as [E|E]; [done|]. intros [= <-].
    destruct Hc as (? & ? & ?). assert (jr = jw) as -> by lia. repeat split; try done; lia.
  - simpl. destruct (Z.gtb_spec nr 0) as [E|E].
    2:{ intros [= <-]. destruct Hc as (? & ? & ?).
        assert (jr = jw) as -> by lia. repeat split; try done; lia. }
    destruct (write to _ w) as [nw w1] eqn:Ew.
    apply write_spec in Ew as (_ & _ & [(-> & _)|(o & n & Ho & _ & -> & Hfds & _)]).
    { simpl. done. }
    rewrite Hbuf in Hfds |- *.
    set (k := length (take n (take (jr - jw) (drop jw (unread src))))) in *.
    replace (Z.of_nat k <? 0) with false by lia.
    destruct Hc as (Hf & Ht & Hj). rewrite Ht in Ho. injection Ho as <-.
    destruct (copying_write from to src dst jr jw w w1 n _ Hne
                (conj Hf (conj Ht Hj)) eq_refl Hfds) as [Hc1 Hle].
    fold k in Hc1, Hle.
    apply IH with (jw := (jw + k)%nat); try done; try lia.
    replace (Z.to_nat (nr - Z.of_nat k)) with (Z.to_nat nr - k)%nat by lia.
    replace (Z.to_nat (off + Z.of_nat k)) with (Z.to_nat off + k)%nat by lia.
    rewrite <- drop_drop, take_drop_commute.
    replace (k + (Z.to_nat nr - k))%nat with (Z.to_nat nr) by lia.
    rewrite Hbuf. rewrite <- (drop_drop (unread src) k jw).
    rewrite (take_drop_commute (drop jw (unread src)) (jr - (jw + k)) k).
    by replace (k + (jr - (jw + k)))%nat with (jr - jw)%nat by lia.
Qed.

(** The buffered loop: when it returns 0, all that was left of the source
    has been read and written. *)
Lemma copy_file_simple_copying fuel from to src dst :
  from <> to ->
  forall j w w',
  copying from to src dst j j w ->
  copy_file_simple fuel from to w = Some (0, w') ->
  copying from to src dst (length (unread src)) (length (unread src)) w'.
Proof.
  intros Hne. induction fuel as [|fuel IH]; intros j w w' Hc; [done|].
  simpl. destruct (read from BUFSZ w) as [[nr buf] w1] eqn:Er.
  apply read_spec in Er
    as (_ & _ & [(-> & _)|(o & Ho & Hbuf & -> & Hle & _ & Heof & Hfds & _)]).
  { simpl. done. }
  destruct Hc as (Hf & Ht & Hj). rewrite Hf in Ho. injection Ho as <-.
  rewrite unread_advance in Hbuf, Hle, Heof. rewrite length_drop in Hle.
  assert (copying from to src dst (j + length buf) j w1) as Hc1.
  { unfold copying. rewrite Hfds, lookup_insert_eq, lookup_insert_ne by done.
    rewrite advance_advance. repeat split; try done; lia. }
  destruct (Z.gtb_spec (Z.of_nat (length buf)) 0) as [Epos|Epos].
  - destruct (write_chunk fuel to buf 0 (Z.of_nat (length buf)) w1)
      as [[r w2]|] eqn:Ewc; [|done].
    destruct (write_chunk_result _ _ _ _ _ _ _ _ Ewc) as [->| ->]; [|done].
    simpl. apply (IH (j + length buf)%nat).
    apply (write_chunk_copying fuel from to src dst buf (j + length buf) Hne
             0 (Z.of_nat (length buf)) j w1 w2); try done; try lia.
    rewrite Nat2Z.id. simpl. rewrite drop_0, take_ge by done.
    replace (j + length buf - j)%nat with (length buf) by lia. done.
  - replace (Z.of_nat (length buf) <? 0) with false by lia.
    intros [= <-].
    assert (length buf = 0)%nat as Hz by lia.
    assert (drop j (unread src) = []) as Hd by (apply Heof; unfold BUFSZ; lia).
    apply (f_equal length) in Hd. rewrite length_drop in Hd. simpl in Hd.
    rewrite Hz, Nat.add_0_r in Hc1.
    replace (length (unread src)) with j by lia. done.
Qed.
(** ** Copying: the sendfile loops *)

Lemma copying_fds from to src dst jr jw w w' :
  w_fds w' = w_fds w -> copying from to src dst jr jw w -> copying from to src dst jr jw w'.
Proof. unfold copying. by intros ->. Qed.

Lemma copying_start from to src dst w :
  w_fds w !! from = Some src -> w_fds w !! to = Some dst ->
  copying from to src dst 0 0 w.
Proof.
  intros Hf Ht. unfold copying. rewrite advance_0, take_0, put_nil.
  repeat split; try done; lia.
Qed.

Lemma copying_end from to src dst w :
  copying from to src dst (length (unread src)) (length (unread src)) w ->
  w_fds w !! from = Some (advance (length (unread src)) src) /\
  w_fds w !! to = Some (put (unread src) dst).
Proof. intros (Hf & Ht & _). by rewrite take_ge in Ht. Qed.

(** One sendfile call: it fails and moves nothing, or moves the next bytes;
    it moves none only at the end of the source. *)
Lemma copying_sendfile from to src dst j count w nw w' :
  from <> to -> 0 < count ->
  copying from to src dst j j w ->
  sendfile to from count w = (nw, w') ->
  (nw = -1 /\ copying from to src dst j j w') \/
  (0 <= nw <= count /\
   copying from to src dst (j + Z.to_nat nw) (j + Z.to_nat nw) w' /\
   (nw = 0 -> j = length (unread src))).
Proof.
  intros Hne Hcount Hc Hs.
  apply (sendfile_spec _ _ _ _ _ _ Hne) in Hs
    as (_ & _ & _ & [(-> & Hfds)|(i & o & chunk & Hi & Ho & Hch & -> & Hle & Hmax & Heof & Hfds)]).
  { left. split; [done|]. by eapply copying_fds. }
  right. destruct Hc as (Hf & Ht & Hj).
  rewrite Hf in Hi. injection Hi as <-. rewrite Ht in Ho. injection Ho as <-.
  rewrite unread_advance in Hch, Hle, Heof. rewrite length_drop in Hle.
  split; [lia|]. rewrite Nat2Z.id. split.
  - unfold copying. rewrite Hfds, lookup_insert_eq.
    rewrite lookup_insert_ne, lookup_insert_eq by done.
    rewrite advance_advance, put_put, Hch, take_take_drop.
    rewrite length_take, length_drop.
    replace (length chunk `min` (length (unread src) - j))%nat with (length chunk) by lia.
    repeat split; try done; lia.
  - intros H0. assert (drop j (unread src) = []) as Hd by (apply Heof; lia).
    apply (f_equal length) in Hd. rewrite length_drop in Hd. simpl in Hd. lia.
Qed.

Lemma sendfile_sized_copying fuel from to src dst :
  from <> to ->
  forall left j w ex w',
  0 <= left ->
  copying from to src dst j j w ->
  sendfile_sized fuel from to left w = Some (ex, w') ->
  match ex with
  | ReturnZero =>
      copying from to src dst (length (unread src)) (length (unread src)) w'
  | _ => exists j', copying from to src dst j' j' w'
  end.
Proof.
  intros Hne. induction fuel as [|fuel IH]; intros left j w ex w' Hleft Hc; simpl.
  - destruct (Z.eqb_spec left 0); [|done]. intros [= <- <-]. by exists j.
  - destruct (Z.eqb_spec left 0); [intros [= <- <-]; by exists j|].
    destruct (sendfile to from left w) as [nw w1] eqn:Es.
    assert (0 < left) as Hpos by lia.
    destruct (copying_sendfile _ _ _ _ _ _ _ _ _ Hne Hpos Hc Es)
      as [(-> & Hc1)|(Hnw & Hc1 & Heof)].
    { simpl. intros [= <- <-]. by exists j. }
    replace (nw <? 0) with false by lia.
    destruct (Z.eqb_spec nw 0) as [->|Hnz].
    + intros [= <- <-]. rewrite <- (Heof eq_refl). simpl in Hc1.
      by rewrite Nat.add_0_r in Hc1.
    + assert (0 <= left - nw) as Hleft' by lia.
      apply (IH _ _ _ _ _ Hleft' Hc1).
Qed.

Lemma sendfile_drain_copying fuel from to src dst :
  from <> to ->
  forall j w ex w',
  copying from to src dst j j w ->
  sendfile_drain fuel from to w = Some (ex, w') ->
  match ex with
  | FallBack => exists j', copying from to src dst j' j' w'
  | _ => copying from to src dst (length (unread src)) (length (unread src)) w'
  end.
Proof.
  intros Hne. induction fuel as [|fuel IH]; intros j w ex w' Hc; simpl; [done|].
  destruct (sendfile to from (1024 * 1024) w) as [nw w1] eqn:Es.
  assert (0 < 1024 * 1024) as Hpos by lia.
  destruct (copying_sendfile _ _ _ _ _ _ _ _ _ Hne Hpos Hc Es)
    as [(-> & Hc1)|(Hnw & Hc1 & Heof)].
  { simpl. intros [= <- <-]. by exists j. }
  destruct (Z.eqb_spec nw 0) as [->|Hnz]; simpl.
  - intros [= <- <-]. rewrite <- (Heof eq_refl). simpl in Hc1.
    by rewrite Nat.add_0_r in Hc1.
  - replace (nw <? 0) with false by lia. apply (IH _ _ _ _ Hc1).
Qed.

(** C5: when ul_copy_file returns 0 for two distinct open descriptors, what
    was left to read of the source -- and exactly that -- has been written
    at the destination's offset: the source is at its end, the destination
    holds these bytes from its old offset on and its offset has moved by
    their number.  An empty source leaves the destination as it was.  This
    holds for every length of the source, whatever size fstat reports for it
    and whatever sendfile calls fail on the way. *)
Theorem ul_copy_file_exact cfg fuel from to w src dst w' :
  from <> to ->
  w_fds w !! from = Some src -> w_fds w !! to = Some dst ->
  ul_copy_file cfg fuel from to w = Some (0, w') ->
  exists dst',
    w_fds w' !! from = Some (advance (length (unread src)) src) /\
    w_fds w' !! to = Some dst' /\
    dst' = put (unread src) dst /\
    take (length (unread src)) (drop (of_pos dst) (of_data dst')) = unread src /\
    of_pos dst' = (of_pos dst + length (unread src))%nat /\
    (unread src = [] -> dst' = dst).
Proof.
  intros Hne Hf Ht Hcopy.
  assert (copying from to src dst (length (unread src)) (length (unread src)) w') as Hend.
  { pose proof (copying_start _ _ _ _ _ Hf Ht) as Hc0.
    unfold ul_copy_file in Hcopy.
    destruct (HAVE_SENDFILE cfg);
      [|exact (copy_file_simple_copying _ _ _ _ _ Hne _ _ _ Hc0 Hcopy)].
    destruct (fstat from w) as [[[r isreg] size] w1] eqn:Efs.
    apply fstat_spec in Efs as (Hfds1 & _ & _ & _ & Hr).
    pose proof (copying_fds _ _ _ _ _ _ _ _ Hfds1 Hc0) as Hc1.
    destruct Hr as [->|(-> & o & Ho & Hsize & _)]; [done|]. simpl in Hcopy.
    destruct isreg; simpl in Hcopy;
      [|exact (copy_file_simple_copying _ _ _ _ _ Hne _ _ _ Hc1 Hcopy)].
    destruct (sendfile_sized fuel from to _ w1) as [[ex w2]|] eqn:Esz; [|done].
    apply (sendfile_sized_copying _ _ _ _ _ Hne _ _ _ _ _ Hsize Hc1) in Esz.
    destruct ex.
    - destruct Esz as [j2 Hc2].
      destruct (sendfile_drain fuel from to w2) as [[ex3 w3]|] eqn:Edr; [|done].
      apply (sendfile_drain_copying _ _ _ _ _ Hne _ _ _ _ Hc2) in Edr.
      destruct ex3.
      + by injection Hcopy as <-.
      + by injection Hcopy as <-.
      + destruct Edr as [j3 Hc3].
        exact (copy_file_simple_copying _ _ _ _ _ Hne _ _ _ Hc3 Hcopy).
    - by injection Hcopy as <-.
    - destruct Esz as [j2 Hc2].
      exact (copy_file_simple_copying _ _ _ _ _ Hne _ _ _ Hc2 Hcopy). }
  apply copying_end in Hend as [Hf' Ht'].
  exists (put (unread src) dst). repeat split; try done.
  - apply pwrite_read_back.
  - intros ->. apply put_nil.
Qed.
Lemma ul_copy_file_exact_witness :
  let w := Sample.w_copy Sample.five 2 (Sample.script [Proceed 0; Proceed 2; Fault Eio; Proceed 1]) in
  exists w',
    ul_copy_file Sample.linux 10 3 4 w = Some (0, w') /\
    w_fds w' !! 4 = Some (Sample.file_of [Byte.x03; Byte.x04; Byte.x05] 3).
Proof.
  intros w.
  set (w' := snd (default (0, w) (ul_copy_file Sample.linux 10 3 4 w))).
  exists w'. split; [by vm_compute|].
  destruct (ul_copy_file_exact Sample.linux 10 3 4 w (Sample.file_of Sample.five 2)
              (Sample.file_of [] 0) w') as (dst' & _ & Ht & -> & _);
    [done|by vm_compute|by vm_compute|by vm_compute|].
  rewrite Ht. by vm_compute.
Defined.

(** The cases the specification singles out, run on the model: an empty
    source, a source longer than the 8 KiB buffer copied by the buffered loop
    in short reads and short writes, and a sendfile call that fails half-way
    with the buffered loop taking over. *)
Example ul_copy_file_cases :
  let big := replicate (Z.to_nat 9000) Byte.x2a in
  Sample.outcome 4 (ul_copy_file Sample.linux 10 3 4 (Sample.w_copy [] 0 Sample.calm))
  = Some (0, []) /\
  Sample.outcome 4 (ul_copy_file Sample.portable 20 3 4
                      (Sample.w_copy big 0 (fun _ => Proceed 3000)))
  = Some (0, big) /\
  Sample.outcome 4 (ul_copy_file Sample.linux 20 3 4
                      (Sample.w_copy big 0
                         (Sample.script [Proceed 0; Proceed 4000; Fault Eio])))
  = Some (0, big).
Proof. vm_compute. repeat split. Qed.

(** The size fstat reports is advisory.  A source that reports size 0 and
    has five bytes is copied by the second sendfile loop, which runs until a
    call moves nothing (fstat, one call that moves the bytes, one that moves
    nothing: three calls); a source that reports more than it has is copied
    by the first loop, which ends at the call that moves nothing. *)
Example ul_copy_file_advisory_size :
  let run oracle := ul_copy_file Sample.linux 10 3 4 (Sample.w_copy Sample.five 0 oracle) in
  Sample.outcome 4 (run (Sample.script [Proceed 0])) = Some (0, Sample.five) /\
  option_map (fun r => w_clock r.2) (run (Sample.script [Proceed 0])) = Some 3%nat /\
  Sample.outcome 4 (run (Sample.script [Proceed 4096])) = Some (0, Sample.five) /\
  option_map (fun r => w_clock r.2) (run (Sample.script [Proceed 4096])) = Some 3%nat.
Proof. vm_compute. repeat split. Qed.

(** ** Early end of file on the sendfile path *)

Lemma sized_run_unfold from to n left w left' w' :
  sized_run from to n left w left' w' ->
  forall fuel,
    sendfile_sized (n + fuel) from to left w = sendfile_sized fuel from to left' w'.
Proof.
  induction 1 as [|n left w nw w1 left' w' Hleft Hs Hnw _ IH]; intros fuel; [done|].
  cbn [Nat.add sendfile_sized].
  replace (left =? 0) with false by lia. rewrite Hs.
  replace (nw <? 0) with false by lia. replace (nw =? 0) with false by lia.
  apply IH.
Qed.

(** C9: in the loop that counts the size down, at whatever turn (after [n]
    turns that moved data), a sendfile call that reports zero bytes while the
    counter [left] is not zero ends the copy at once with return value 0. *)
Theorem ul_copy_file_zero_transfer cfg fuel from to w size w1 n left w2 w3 :
  HAVE_SENDFILE cfg = true ->
  fstat from w = (0, true, size, w1) ->
  sized_run from to n size w1 left w2 ->
  left <> 0 ->
  sendfile to from left w2 = (0, w3) ->
  (n < fuel)%nat ->
  ul_copy_file cfg fuel from to w = Some (0, w3).
Proof.
  intros Hcfg Hfs Hrun Hleft Hz Hfuel.
  unfold ul_copy_file. rewrite Hcfg, Hfs. simpl.
  replace fuel with (n + S (fuel - S n))%nat by lia.
  rewrite (sized_run_unfold _ _ _ _ _ _ _ Hrun).
  cbn [sendfile_sized]. replace (left =? 0) with false by lia.
  by rewrite Hz.
Qed.

Lemma ul_copy_file_zero_transfer_witness :
  let w := Sample.w_copy Sample.five 2 Sample.calm in
  exists w3,
    ul_copy_file Sample.linux 5 3 4 w = Some (0, w3) /\
    w_clock w3 = 3%nat /\
    Sample.outcome 4 (Some (0, w3)) = Some (0, [Byte.x03; Byte.x04; Byte.x05]).
Proof.
  intros w.
  set (w1 := snd (fstat 3 w)).
  set (w2 := snd (sendfile 4 3 4096 w1)).
  set (w3 := snd (sendfile 4 3 4093 w2)).
  exists w3. split; [|split; vm_compute; reflexivity].
  apply (ul_copy_file_zero_transfer Sample.linux 5 3 4 w 4096 w1 1 4093 w2 w3);
    [done|vm_compute; reflexivity| |done|vm_compute; reflexivity|lia].
  apply (sized_run_turn 3 4 0 4096 w1 3 w2 4093 w2);
    [done|vm_compute; reflexivity|done|apply sized_run_here].
Defined.
(** ** Termination of the buffered loop *)

Lemma write_progress_next w w' :
  w_oracle w' = w_oracle w -> w_clock w' = S (w_clock w) ->
  write_progress w -> write_progress w'.
Proof. unfold write_progress. intros -> -> H t Ht. apply H. lia. Qed.

Lemma write_stalls_next w w' :
  w_oracle w' = w_oracle w -> w_clock w' = S (w_clock w) ->
  write_stalls w -> write_stalls w'.
Proof. unfold write_stalls. intros -> -> H t Ht. apply H. lia. Qed.

Lemma unread_of_insert_put w w' to o c fd :
  w_fds w !! to = Some o -> w_fds w' = <[to := put c o]> (w_fds w) ->
  (length (unread_of w' fd) <= length (unread_of w fd))%nat.
Proof.
  intros Ho Hfds. unfold unread_of. rewrite Hfds.
  destruct (decide (to = fd)) as [->|Hne].
  - rewrite lookup_insert_eq, Ho. apply unread_put.
  - by rewrite lookup_insert_ne.
Qed.

(** With every write taking at least a byte, the inner loop ends within as
    many turns as there are bytes to write. *)
Lemma write_chunk_total fuel to buf :
  forall off nr w,
  write_progress w -> 0 <= off -> off + nr <= Z.of_nat (length buf) ->
  (Z.to_nat nr <= fuel)%nat ->
  exists r w',
    write_chunk fuel to buf off nr w = Some (r, w') /\ write_progress w' /\
    forall fd, (length (unread_of w' fd) <= length (unread_of w fd))%nat.
Proof.
  induction fuel as [|fuel IH]; intros off nr w Hp Hoff Hlen Hfuel; simpl.
  - destruct (Z.gtb_spec nr 0); [lia|]. by exists 0, w.
  - destruct (Z.gtb_spec nr 0) as [Hnr|]; [|by exists 0, w].
    destruct (write to _ w) as [nw w1] eqn:Ew.
    apply write_spec in Ew
      as (Hor & Hcl & [(-> & Hfds & _)|(o & n & Ho & Hev & -> & Hfds & _)]).
    { simpl. exists (-2), w1. split; [done|].
      split; [by eapply write_progress_next|].
      intros fd. unfold unread_of. by rewrite Hfds. }
    set (bytes := take (Z.to_nat nr) (drop (Z.to_nat off) buf)) in *.
    assert (length bytes = Z.to_nat nr) as Hb.
    { unfold bytes. rewrite length_take, length_drop. lia. }
    assert (n <> 0)%nat as Hn.
    { intros ->. by apply (Hp (w_clock w)). }
    assert (length (take n bytes) = Nat.min n (Z.to_nat nr)) as Hk
      by (rewrite length_take; lia).
    set (k := length (take n bytes)) in *.
    replace (Z.of_nat k <? 0) with false by lia.
    destruct (IH (off + Z.of_nat k) (nr - Z.of_nat k) w1) as (r & w' & Hwc & Hp' & Hun);
      try lia.
    { by eapply write_progress_next. }
    exists r, w'. split; [done|]. split; [done|].
    intros fd. etrans; [apply Hun|]. by eapply unread_of_insert_put.
Qed.

(** With every write taking at least a byte, copy_file_simple returns. *)
Lemma copy_file_simple_total fuel from to :
  forall w,
  write_progress w ->
  (length (unread_of w from) + Z.to_nat BUFSZ + 1 <= fuel)%nat ->
  exists r w', copy_file_simple fuel from to w = Some (r, w').
Proof.
  induction fuel as [|fuel IH]; intros w Hp Hfuel; [lia|].
  cbn [copy_file_simple]. destruct (read from BUFSZ w) as [[nr buf] w1] eqn:Er.
  apply read_spec in Er
    as (Hor & Hcl & [(-> & _)|(o & Ho & Hbuf & -> & Hle & Hmax & _ & Hfds & _)]).
  { simpl. by eexists _, _. }
  pose proof (write_progress_next _ _ Hor Hcl Hp) as Hp1.
  assert (length (unread_of w1 from) = length (unread o) - length buf)%nat as Hun1.
  { unfold unread_of. rewrite Hfds, lookup_insert_eq, unread_advance, length_drop. done. }
  assert (unread_of w from = unread o) as Hun0 by (unfold unread_of; by rewrite Ho).
  rewrite Hun0 in Hfuel. unfold BUFSZ in Hmax, Hfuel.
  destruct (Z.gtb_spec (Z.of_nat (length buf)) 0) as [Hpos|Hzero].
  - destruct (write_chunk_total fuel to buf 0 (Z.of_nat (length buf)) w1)
      as (r & w2 & -> & Hp2 & Hun2); try done; try lia.
    destruct (r <? 0); [by eexists _, _|].
    apply IH; [done|]. specialize (Hun2 from). unfold BUFSZ. lia.
  - replace (Z.of_nat (length buf) <? 0) with false by lia. by eexists _, _.
Qed.

(** While every write takes nothing, the inner loop never ends. *)
Lemma write_chunk_stalls fuel to buf :
  forall off nr w o,
  write_stalls w -> w_fds w !! to = Some o -> 0 < nr ->
  write_chunk fuel to buf off nr w = None.
Proof.
  induction fuel as [|fuel IH]; intros off nr w o Hs Ho Hnr; simpl.
  - by replace (nr >? 0) with true by lia.
  - replace (nr >? 0) with true by lia.
    unfold write, next_event. cbn [w_fds w_oracle w_clock tick].
    rewrite Ho, (Hs (w_clock w)) by done. rewrite take_0. cbn [length Z.of_nat Z.ltb Z.compare].
    rewrite Z.add_0_r, Z.sub_0_r.
    apply (IH _ _ _ (put [] o)); [|simpl; by rewrite lookup_insert_eq|done].
    intros t Ht. simpl in *. apply Hs. lia.
Qed.

(** More fuel does not change a result. *)
Lemma write_chunk_fuel fuel fuel' to buf off nr w r :
  write_chunk fuel to buf off nr w = Some r -> (fuel <= fuel')%nat ->
  write_chunk fuel' to buf off nr w = Some r.
Proof.
  revert fuel' off nr w; induction fuel as [|fuel IH]; intros fuel' off nr w; simpl.
  - destruct (nr >? 0) eqn:E; [done|]. intros [= <-] _. destruct fuel'; simpl; by rewrite E.
  - intros H Hle. destruct fuel' as [|fuel']; [lia|]. simpl.
    destruct (nr >? 0); [|done].
    destruct (write _ _ _) as [nw w1]. destruct (nw <? 0); [done|].
    apply IH; [done|lia].
Qed.

Lemma copy_file_simple_fuel fuel fuel' from to w r :
  copy_file_simple fuel from to w = Some r -> (fuel <= fuel')%nat ->
  copy_file_simple fuel' from to w = Some r.
Proof.
  revert fuel' w; induction fuel as [|fuel IH]; intros fuel' w; [done|].
  intros H Hle. destruct fuel' as [|fuel']; [lia|]. simpl in *.
  destruct (read from BUFSZ w) as [[nr buf] w1].
  destruct (nr >? 0); [|done].
  destruct (write_chunk fuel to buf 0 nr w1) as [[r1 w2]|] eqn:Ewc; [|done].
  rewrite (write_chunk_fuel _ fuel' _ _ _ _ _ _ Ewc) by lia.
  destruct (r1 <? 0); [done|]. apply IH; [done|lia].
Qed.
(** ** Every chunk is flushed before the next read *)

(** The writes of the inner loop take what is pending piece by piece; when
    the loop ends with 0 nothing is pending any more. *)
Lemma write_chunk_log fuel from to buf :
  forall off nr w r w',
  0 <= off ->
  write_chunk fuel to buf off nr w = Some (r, w') ->
  exists l,
    w_io w' = w_io w ++ l /\
    forall tail,
      (if r =? 0 then flushed from to [] tail else tail = []) ->
      flushed from to (take (Z.to_nat nr) (drop (Z.to_nat off) buf)) (l ++ tail).
Proof.
  induction fuel as [|fuel IH]; intros off nr w r w' Hoff; simpl.
  - destruct (Z.gtb_spec nr 0) as [|Hnr]; [done|]. intros [= <- <-].
    exists []. rewrite app_nil_r. split; [done|]. intros tail Ht.
    by replace (Z.to_nat nr) with 0%nat by lia.
  - destruct (Z.gtb_spec nr 0) as [Hnr|Hnr].
    2:{ intros [= <- <-]. exists []. rewrite app_nil_r. split; [done|].
        intros tail Ht. by replace (Z.to_nat nr) with 0%nat by lia. }
    set (bytes := take (Z.to_nat nr) (drop (Z.to_nat off) buf)).
    destruct (write to bytes w) as [nw w1] eqn:Ew.
    apply write_spec in Ew
      as (_ & _ & [(-> & _ & Hio)|(o & n & _ & _ & -> & _ & Hio)]).
    { simpl. intros [= <- <-]. exists []. rewrite app_nil_r. split; [done|].
      by intros tail ->. }
    set (k := length (take n bytes)).
    replace (Z.of_nat k <? 0) with false by lia.
    intros Hwc. apply IH in Hwc as (l & Hio' & Hl); [|lia].
    exists (IoWrite to (take n bytes) :: l). split.
    { rewrite Hio', Hio, <- app_assoc. done. }
    intros tail Ht. simpl. split; [done|].
    exists (drop k bytes). split.
    + unfold k. rewrite length_take.
      destruct (Nat.le_gt_cases n (length bytes)).
      * rewrite Nat.min_l by done. by rewrite take_drop.
      * rewrite Nat.min_r, take_ge, drop_all, app_nil_r by lia. done.
    + specialize (Hl tail Ht).
      assert (k <= Z.to_nat nr)%nat as Hk.
      { unfold k, bytes. rewrite !length_take. lia. }
      clearbody k.
      replace (Z.to_nat (nr - Z.of_nat k)) with (Z.to_nat nr - k)%nat in Hl by lia.
      replace (Z.to_nat (off + Z.of_nat k)) with (Z.to_nat off + k)%nat in Hl by lia.
      rewrite <- drop_drop, take_drop_commute in Hl.
      by replace (k + (Z.to_nat nr - k))%nat with (Z.to_nat nr) in Hl by lia.
Qed.

Lemma copy_file_simple_log fuel from to :
  forall w r w',
  copy_file_simple fuel from to w = Some (r, w') ->
  exists l, w_io w' = w_io w ++ l /\ flushed from to [] l.
Proof.
  induction fuel as [|fuel IH]; intros w r w'; [done|].
  simpl. destruct (read from BUFSZ w) as [[nr buf] w1] eqn:Er.
  apply read_spec in Er
    as (_ & _ & [(-> & _ & _ & Hio)|(o & _ & _ & -> & _ & _ & _ & _ & Hio)]).
  { simpl. intros [= <- <-]. exists []. by rewrite app_nil_r. }
  destruct (Z.gtb_spec (Z.of_nat (length buf)) 0) as [Hpos|Hzero].
  - destruct (write_chunk fuel to buf 0 (Z.of_nat (length buf)) w1)
      as [[r1 w2]|] eqn:Ewc; [|done].
    destruct (write_chunk_result _ _ _ _ _ _ _ _ Ewc) as [->| ->];
      apply (write_chunk_log _ from) in Ewc as (l1 & Hio1 & Hl1); try done;
      rewrite Nat2Z.id in Hl1; simpl in Hl1; rewrite drop_0, firstn_all in Hl1.
    + simpl. intros Hrest. apply IH in Hrest as (l2 & Hio2 & Hl2).
      exists (IoRead from buf :: l1 ++ l2). split.
      { rewrite Hio2, Hio1, Hio, <- !app_assoc. done. }
      simpl. split; [done|]. split; [done|]. by apply Hl1.
    + simpl. intros [= <- <-].
      exists (IoRead from buf :: l1). split.
      { rewrite Hio1, Hio, <- !app_assoc. done. }
      simpl. split; [done|]. split; [done|].
      rewrite <- (app_nil_r l1). by apply Hl1.
  - replace (Z.of_nat (length buf) <? 0) with false by lia.
    intros [= <- <-]. exists [IoRead from buf]. split; [done|]. simpl.
    assert (buf = []) as -> by (destruct buf; [done|simpl in Hzero; lia]).
    done.
Qed.

(** C10: as long as every write takes at least one byte copy_file_simple
    returns, for every state and so for every source, within a number of
    turns bounded by what is left to read; when writes keep taking nothing
    it never returns, whatever the fuel; and in every run that returns, each
    read comes only when all that was read before has been written. *)
Theorem copy_file_simple_termination from to :
  (forall w,
     write_progress w ->
     exists r w',
       copy_file_simple (length (unread_of w from) + Z.to_nat BUFSZ + 1) from to w
       = Some (r, w')) /\
  (forall w src dst n,
     w_fds w !! from = Some src -> unread src <> [] ->
     w_fds w !! to = Some dst ->
     w_oracle w (w_clock w) = Proceed n ->
     (forall t, (w_clock w < t)%nat -> w_oracle w t = Proceed 0) ->
     forall fuel, copy_file_simple fuel from to w = None) /\
  (forall fuel w r w',
     copy_file_simple fuel from to w = Some (r, w') ->
     exists l, w_io w' = w_io w ++ l /\ flushed from to [] l).
Proof.
  split; [|split].
  - intros w Hp. by apply copy_file_simple_total.
  - intros w src dst n Hsrc Hun Hdst Hev Hstall fuel.
    destruct fuel as [|fuel]; [done|]. simpl.
    unfold read, next_event. cbn [w_fds w_oracle w_clock tick].
    rewrite Hsrc, Hev.
    pose proof (moved_pos n BUFSZ (unread src) ltac:(done) Hun) as Hm.
    pose proof (moved_le n BUFSZ (unread src)) as [Hm1 _].
    set (chunk := take (moved n BUFSZ (unread src)) (unread src)).
    assert (length chunk = moved n BUFSZ (unread src)) as Hlen
      by (unfold chunk; rewrite length_take; lia).
    replace (Z.of_nat (length chunk) >? 0) with true by lia.
    assert (exists o, <[from := advance (length chunk) src]> (w_fds w) !! to = Some o)
      as [o Ho].
    { destruct (decide (from = to)) as [->|Hne].
      - rewrite lookup_insert_eq. by eexists.
      - rewrite lookup_insert_ne by done. by eexists. }
    rewrite (write_chunk_stalls fuel to chunk 0 (Z.of_nat (length chunk)) _ o);
      [done| |done|lia].
    intros t Ht. simpl in *. apply Hstall. lia.
  - intros fuel. apply copy_file_simple_log.
Qed.
Lemma copy_file_simple_termination_witness :
  let w := Sample.w_copy Sample.five 0 Sample.calm in
  let v := Sample.w_copy Sample.five 0 Sample.stalling in
  (exists r w',
     copy_file_simple (length (unread_of w 3) + Z.to_nat BUFSZ + 1) 3 4 w = Some (r, w')) /\
  (forall fuel, copy_file_simple fuel 3 4 v = None) /\
  (exists l,
     w_io (snd (default (0, w) (copy_file_simple 9 3 4 w))) = w_io w ++ l /\
     flushed 3 4 [] l).
Proof.
  intros w v.
  destruct (copy_file_simple_termination 3 4) as (Htotal & Hstall & Hlog).
  split; [|split].
  - apply Htotal. intros t _. done.
  - apply (Hstall v (Sample.file_of Sample.five 0) (Sample.file_of [] 0) 1%nat);
      try done.
    intros [|t] Ht; [simpl in Ht; lia|done].
  - apply (Hlog 9%nat w 0). by vm_compute.
Defined.
(** mkdir_p always returns. *)
Lemma mkdir_p_total path mode w : exists r w', mkdir_p path mode w = Some (r, w').
Proof.
  destruct path as [path|]; [|by eexists _, _].
  destruct (decide (path = "")) as [->|Hne]; [by eexists _, _|].
  destruct (w_oracle w (w_clock w)) as [k|f] eqn:Hev.
  - rewrite (mkdir_p_create_all _ _ _ _ Hne Hev).
    destruct (create_all _ _ _) as [r w']. by exists r, w'.
  - unfold mkdir_p, strdup, next_event. rewrite Hev.
    destruct path; [done|]. by eexists _, _.
Qed.

(** What strtol takes and what it does not. *)
Example strtol_accepts_cases :
  strtol_accepts "7" = Some 7 /\ strtol_accepts "+5" = Some 5 /\
  strtol_accepts " 5" = Some 5 /\ strtol_accepts "-3" = Some (-3) /\
  strtol_accepts "4294967301" = Some 5 /\
  strtol_accepts "" = None /\ strtol_accepts "." = None /\
  strtol_accepts "12x" = None /\ strtol_accepts "+" = None /\
  strtol_accepts "99999999999999999999" = None.
Proof. by vm_compute. Qed.

(** ** ul_copy_file returns *)






(** * Further properties of the code *)

(** ** dup_fd_cloexec: what a call leaves behind *)

Lemma lowest_free_least n fd fds r x :
  lowest_free n fd fds = Some r -> fd <= x < r -> is_Some (fds !! x).
Proof.
  revert fd; induction n as [|n IH]; intros fd; simpl; [done|].
  destruct (fds !! fd) eqn:E; [|intros [= <-]; lia].
  intros H Hx. destruct (decide (x = fd)) as [->|Hne]; [by rewrite E|].
  apply (IH _ H). lia.
Qed.

Lemma alloc_fd_least low w fd x :
  alloc_fd low w = Some fd -> low <= x < fd -> is_Some (w_fds w !! x).
Proof. unfold alloc_fd. apply lowest_free_least. Qed.

Lemma with_cloexec_twice a b o : with_cloexec a (with_cloexec b o) = with_cloexec a o.
Proof. done. Qed.

(** Closing the descriptor a call has just made gives the table back. *)
Lemma close_undoes_insert fd o w w0 :
  w_fds w !! fd = None -> w_fds w0 = <[fd := o]> (w_fds w) -> w_fs w0 = w_fs w ->
  w_fds (snd (close fd w0)) = w_fds w /\ w_fs (snd (close fd w0)) = w_fs w.
Proof.
  intros Hfree Hfds Hfs. unfold close, fail; simpl.
  rewrite Hfds, lookup_insert_eq.
  destruct (w_oracle w0 (w_clock w0)); simpl;
    rewrite Hfds, delete_insert_eq, delete_id by done; done.
Qed.

Lemma dup_unwind_spec fd o w w0 :
  w_fds w !! fd = None -> w_fds w0 = <[fd := o]> (w_fds w) -> w_fs w0 = w_fs w ->
  exists w', dup_unwind fd w0 = (-1, w') /\ w_fds w' = w_fds w /\ w_fs w' = w_fs w /\
             w_errno w' = w_errno w0.
Proof.
  intros Hfree Hfds Hfs. unfold dup_unwind.
  destruct (close_undoes_insert fd o w w0 Hfree Hfds Hfs) as [H1 H2].
  destruct (close fd w0) as [r w1]. simpl in *. by eexists.
Qed.

(** The path through dup(2): the lowest free descriptor, marked. *)
Lemma dup_then_mark_spec oldfd w fd w' :
  dup_then_mark oldfd w = (fd, w') ->
  (fd = -1 /\ w_fds w' = w_fds w /\ w_fs w' = w_fs w /\ w_errno w' <> 0) \/
  (exists o,
     w_fds w !! oldfd = Some o /\ alloc_fd 0 (tick w) = Some fd /\
     w_fds w' = <[fd := with_cloexec true o]> (w_fds w) /\ w_fs w' = w_fs w).
Proof.
  unfold dup_then_mark, dup, fail; simpl.
  destruct (w_fds w !! oldfd) as [o|] eqn:Ho; [|intros [= <- <-]; by left].
  destruct (w_oracle w (w_clock w)) as [n|f];
    [|intros [= <- <-]; left; repeat split; try done; by destruct f].
  destruct (alloc_fd 0 (tick w)) as [a|] eqn:Ha; [|intros [= <- <-]; by left].
  pose proof (alloc_fd_spec _ _ _ Ha) as [Hrange Hfree]. simpl in Hfree.
  replace (a <? 0) with false by lia.
  unfold fcntl_getfd; simpl. rewrite lookup_insert_eq.
  destruct (w_oracle w (S (w_clock w))) as [n1|f1]; simpl.
  2:{ intros H. left.
      edestruct (dup_unwind_spec a (with_cloexec false o) w) as (w2 & Hu & ? & ? & He);
        [done| | |rewrite Hu in H; injection H as <- <-]; [done..|].
      repeat split; try done. rewrite He. simpl. by destruct f1. }
  unfold fcntl_setfd; simpl. rewrite lookup_insert_eq.
  destruct (w_oracle w (S (S (w_clock w)))) as [n2|f2]; simpl.
  2:{ intros H. left.
      edestruct (dup_unwind_spec a (with_cloexec false o) w) as (w2 & Hu & ? & ? & He);
        [done| | |rewrite Hu in H; injection H as <- <-]; [done..|].
      repeat split; try done. rewrite He. simpl. by destruct f2. }
  intros [= <- <-]. right. exists o. simpl.
  rewrite insert_insert_eq. done.
Qed.

Lemma fcntl_dupfd_cloexec_spec oldfd lowfd w fd w' :
  fcntl_dupfd_cloexec oldfd lowfd w = (fd, w') ->
  (fd = -1 /\ w_fds w' = w_fds w /\ w_fs w' = w_fs w /\ w_nofile w' = w_nofile w) \/
  (exists o,
     w_fds w !! oldfd = Some o /\ alloc_fd lowfd (tick w) = Some fd /\ 0 <= lowfd /\
     w_fds w' = <[fd := with_cloexec true o]> (w_fds w) /\ w_fs w' = w_fs w).
Proof.
  unfold fcntl_dupfd_cloexec, fail; simpl.
  destruct (w_fds w !! oldfd) as [o|] eqn:Ho; [|intros [= <- <-]; by left].
  destruct (w_oracle w (w_clock w)) as [n|f]; [|intros [= <- <-]; by left].
  destruct (Z.ltb_spec lowfd 0); simpl; [intros [= <- <-]; by left|].
  destruct (w_nofile w <=? lowfd); [intros [= <- <-]; by left|].
  destruct (alloc_fd lowfd (tick w)) as [a|] eqn:Ha; [|intros [= <- <-]; by left].
  intros [= <- <-]. right. by exists o.
Qed.

(** A call of dup_fd_cloexec either fails, and then nothing is left of it, or
    adds one descriptor that was free: a copy of [oldfd] with close-on-exec
    on, at the lowest free place from 0 or from [lowfd] on. *)
Lemma dup_fd_cloexec_spec cfg oldfd lowfd w fd w' :
  dup_fd_cloexec cfg oldfd lowfd w = (fd, w') ->
  (fd = -1 /\ w_fds w' = w_fds w /\ w_fs w' = w_fs w /\ w_errno w' <> 0) \/
  (exists o low,
     w_fds w !! oldfd = Some o /\ w_fds w !! fd = None /\
     low <= fd < w_nofile w /\ (low = 0 \/ low = lowfd) /\ 0 <= low /\
     (forall x, low <= x < fd -> is_Some (w_fds w !! x)) /\
     w_fds w' = <[fd := with_cloexec true o]> (w_fds w) /\ w_fs w' = w_fs w).
Proof.
  assert (forall w0, w_fds w0 = w_fds w -> w_fs w0 = w_fs w -> w_nofile w0 = w_nofile w ->
            dup_then_mark oldfd w0 = (fd, w') ->
            (fd = -1 /\ w_fds w' = w_fds w /\ w_fs w' = w_fs w /\ w_errno w' <> 0) \/
            (exists o low,
               w_fds w !! oldfd = Some o /\ w_fds w !! fd = None /\
               low <= fd < w_nofile w /\ (low = 0 \/ low = lowfd) /\ 0 <= low /\
               (forall x, low <= x < fd -> is_Some (w_fds w !! x)) /\
               w_fds w' = <[fd := with_cloexec true o]> (w_fds w) /\ w_fs w' = w_fs w))
    as Hdup.
  { intros w0 Hfds Hfs Hnf H.
    apply dup_then_mark_spec in H as [(-> & ? & ? & ?)|(o & Ho & Ha & Hfds' & Hfs')].
    { left. repeat split; congruence. }
    right. exists o, 0.
    pose proof (alloc_fd_spec _ _ _ Ha) as [Hr Hfree].
    pose proof (fun x => alloc_fd_least 0 _ fd x Ha) as Hleast.
    simpl in *. rewrite Hfds in *. rewrite Hnf in *.
    split; [done|]. split; [done|]. split; [lia|]. split; [by left|].
    split; [done|]. split; [done|]. split; [done|congruence]. }
  unfold dup_fd_cloexec. destruct (HAVE_F_DUPFD_CLOEXEC cfg); [|by apply Hdup].
  destruct (fcntl_dupfd_cloexec oldfd lowfd w) as [fd1 w1] eqn:E1.
  apply fcntl_dupfd_cloexec_spec in E1
    as [(-> & ? & ? & ?)|(o & Ho & Ha & Hlow & Hfds' & Hfs')].
  { simpl. by apply Hdup. }
  pose proof (alloc_fd_spec _ _ _ Ha) as [Hr Hfree].
  pose proof (fun x => alloc_fd_least lowfd _ fd1 x Ha) as Hleast.
  replace (0 <=? fd1) with true by lia.
  intros [= <- <-]. right. exists o, lowfd. simpl in *.
  split; [done|]. split; [done|]. split; [lia|]. split; [by right|]. done.
Qed.

(** A successful dup_fd_cloexec adds exactly one descriptor and changes
    nothing else: the descriptor was free before the call, lies below
    RLIMIT_NOFILE, stands for what [oldfd] stands for and has close-on-exec
    set, on the fcntl path and on the dup path alike; and no descriptor
    between the floor [lowfd] and the result was free. *)
Theorem dup_fd_cloexec_fresh_copy cfg oldfd lowfd w fd w' :
  dup_fd_cloexec cfg oldfd lowfd w = (fd, w') -> 0 <= fd ->
  exists o,
    w_fds w !! oldfd = Some o /\ w_fds w !! fd = None /\ fd < w_nofile w /\
    w_fds w' = <[fd := with_cloexec true o]> (w_fds w) /\
    w_fs w' = w_fs w /\
    (forall x, 0 <= x < fd -> lowfd <= x -> is_Some (w_fds w !! x)).
Proof.
  intros H Hfd.
  apply dup_fd_cloexec_spec in H
    as [(-> & _)|(o & low & Ho & Hfree & Hr & Hlow & Hl0 & Hleast & Hfds & Hfs)]; [lia|].
  exists o. repeat split; try done; try lia.
  intros x Hx Hx'. apply Hleast. destruct Hlow as [->| ->]; lia.
Qed.

Lemma dup_fd_cloexec_fresh_copy_witness :
  let r := dup_fd_cloexec Sample.linux 1 5 Sample.w_std in
  r.1 = 5 /\ w_fds r.2 = <[5 := with_cloexec true Sample.tty]> Sample.stdio.
Proof.
  intros r.
  destruct (dup_fd_cloexec_fresh_copy Sample.linux 1 5 Sample.w_std 5 r.2)
    as (o & Ho & _ & _ & Hfds & _); [by vm_compute|lia|].
  split; [by vm_compute|].
  rewrite Hfds. f_equal. vm_compute in Ho. by injection Ho as <-.
Defined.

(** A failing dup_fd_cloexec returns -1 with errno set and leaves the
    descriptor table and the name space as they were: when marking the copy
    fails, the [unwind:] block has closed the copy again, even if that close
    reports an error of its own. *)
Theorem dup_fd_cloexec_failure cfg oldfd lowfd w fd w' :
  dup_fd_cloexec cfg oldfd lowfd w = (fd, w') -> fd < 0 ->
  fd = -1 /\ w_fds w' = w_fds w /\ w_fs w' = w_fs w /\ w_errno w' <> 0.
Proof.
  intros H Hfd.
  apply dup_fd_cloexec_spec in H as [?|(o & low & _ & _ & Hr & _ & Hl0 & _)]; [done|lia].
Qed.

Lemma dup_fd_cloexec_failure_witness :
  let w := Sample.w_script [Proceed 0; Proceed 0; Fault Eintr; Fault Eio] in
  let r := dup_fd_cloexec Sample.portable 0 0 w in
  r.1 = -1 /\ w_fds r.2 = w_fds w /\ w_errno r.2 = EINTR.
Proof.
  intros w r.
  destruct (dup_fd_cloexec_failure Sample.portable 0 0 w (-1) r.2)
    as (_ & Hfds & _); [by vm_compute|lia|].
  split; [by vm_compute|]. split; [exact Hfds|by vm_compute].
Defined.

(** When every descriptor below [lowfd] is in use, the result of a
    successful dup_fd_cloexec is at least [lowfd], whichever path made it:
    this is the situation in which the dup fallback keeps the floor. *)
Theorem dup_fd_cloexec_floor_when_busy cfg oldfd lowfd w fd w' :
  (forall x, 0 <= x < lowfd -> is_Some (w_fds w !! x)) ->
  dup_fd_cloexec cfg oldfd lowfd w = (fd, w') -> 0 <= fd -> lowfd <= fd.
Proof.
  intros Hbusy H Hfd.
  apply dup_fd_cloexec_spec in H
    as [(-> & _)|(o & low & _ & Hfree & _)]; [lia|].
  destruct (Z.le_gt_cases lowfd fd) as [|Hlt]; [done|].
  destruct (Hbusy fd) as [? Hx]; [lia|]. congruence.
Qed.

Lemma dup_fd_cloexec_floor_when_busy_witness :
  3 <= fst (dup_fd_cloexec Sample.portable 0 3 Sample.w_std).
Proof.
  apply (dup_fd_cloexec_floor_when_busy Sample.portable 0 3 Sample.w_std _
           (snd (dup_fd_cloexec Sample.portable 0 3 Sample.w_std))).
  - intros x Hx. assert (x = 0 \/ x = 1 \/ x = 2) as [->|[->| ->]] by lia;
      exists Sample.tty; by vm_compute.
  - by vm_compute.
  - by vm_compute.
Defined.

(** dup_fd_cloexec on a descriptor that is not open returns -1 with errno
    EBADF in either build and leaves the descriptor table alone. *)
Theorem dup_fd_cloexec_bad_descriptor cfg oldfd lowfd w :
  w_fds w !! oldfd = None ->
  fst (dup_fd_cloexec cfg oldfd lowfd w) = -1 /\
  w_errno (snd (dup_fd_cloexec cfg oldfd lowfd w)) = EBADF /\
  w_fds (snd (dup_fd_cloexec cfg oldfd lowfd w)) = w_fds w.
Proof.
  intros Ho. unfold dup_fd_cloexec, fcntl_dupfd_cloexec, dup_then_mark, dup, fail; simpl.
  destruct (HAVE_F_DUPFD_CLOEXEC cfg); simpl; rewrite Ho; simpl; [rewrite Ho|]; done.
Qed.

Lemma dup_fd_cloexec_bad_descriptor_witness :
  fst (dup_fd_cloexec Sample.linux 9 0 Sample.w_std) = -1 /\
  w_errno (snd (dup_fd_cloexec Sample.linux 9 0 Sample.w_std)) = EBADF.
Proof.
  destruct (dup_fd_cloexec_bad_descriptor Sample.linux 9 0 Sample.w_std) as (H1 & H2 & _);
    [by vm_compute|by split].
Defined.

(** ** Temporary files: the name and the descriptor of a successful call *)

Lemma substring_skip s t n : String.substring (String.length s) n (s +:+ t) = String.substring 0 n t.
Proof. induction s as [|c s IH]; [done|]. rewrite str_app_cons. simpl. apply IH. Qed.

Lemma substring_front s t : String.substring 0 (String.length s) (s +:+ t) = s.
Proof.
  induction s as [|c s IH]; [by destruct t|]. rewrite str_app_cons. simpl. by rewrite IH.
Qed.

(** A template that ends in six X has what is in front of them as stem. *)
Lemma template_stem_app stem : template_stem (stem +:+ "XXXXXX") = Some stem.
Proof.
  unfold template_stem. rewrite str_length_app. cbn [String.length].
  replace (String.length stem + 6 - 6)%nat with (String.length stem) by lia.
  rewrite substring_skip, substring_front. done.
Qed.

Lemma tmp_suffix_length k seed : String.length (tmp_suffix k seed) = k.
Proof. revert seed; induction k as [|k IH]; intros seed; simpl; [done|]. by rewrite IH. Qed.

Lemma tmp_letter_noslash n : Ascii.eqb (tmp_letter n) "/" = false.
Proof.
  unfold tmp_letter.
  assert (n mod 62 < 62)%nat as Hlt by (apply Nat.mod_upper_bound; lia).
  revert Hlt. generalize (n mod 62)%nat. intros k Hk.
  do 62 (destruct k as [|k]; [done|]). lia.
Qed.

Lemma tmp_suffix_noslash k seed : noslash (tmp_suffix k seed) = true.
Proof.
  revert seed; induction k as [|k IH]; intros seed; simpl; [done|].
  by rewrite tmp_letter_noslash, IH.
Qed.

Lemma gen_tempname_name attempts seed stem flags mode w fd name w' :
  gen_tempname attempts seed stem flags mode w = (fd, name, w') ->
  exists seed', name = stem +:+ tmp_suffix 6 seed'.
Proof.
  revert seed; induction attempts as [|k IH]; intros seed; cbn [gen_tempname].
  - intros [= <- <- <-]. by exists seed.
  - destruct (open_excl (stem +:+ tmp_suffix 6 seed) flags mode w) as [fd0 w0] eqn:E.
    destruct ((fd0 <? 0) && (w_errno w0 =? EEXIST)); [apply IH|].
    intros [= <- <- <-]. by exists seed.
Qed.

Lemma mkostemp_name cfg template flags w fd name w' :
  mkostemp cfg template flags w = (fd, name, w') -> 0 <= fd ->
  exists stem seed, template_stem template = Some stem /\ name = stem +:+ tmp_suffix 6 seed.
Proof.
  unfold mkostemp; simpl.
  destruct (w_oracle w (w_clock w)) as [seed|f]; [|intros [= <- <- <-]; lia].
  destruct (template_stem template) as [stem|]; [|intros [= <- <- <-]; lia].
  intros H _. apply gen_tempname_name in H as [seed' ->]. by exists stem, seed'.
Qed.

(** What a successful mkstemp_cloexec has done, in full. *)
Lemma mkstemp_cloexec_success cfg template w fd name w' :
  mkstemp_cloexec cfg template w = (fd, name, w') -> 0 <= fd ->
  exists stem seed l,
    template_stem template = Some stem /\ name = stem +:+ tmp_suffix 6 seed /\
    resolve w name = Ok l /\ w_fs w !! l = None /\ l <> [] /\
    w_fs w' = <[l := File (apply_umask (MKSTEMP_PERM cfg) w)]> (w_fs w) /\
    w_fds w !! fd = None /\
    w_fds w' = <[fd := {| of_cloexec := HAVE_MKOSTEMP cfg; of_kind := Regular;
                          of_data := []; of_pos := 0 |}]> (w_fds w) /\
    w_cwd w' = w_cwd w.
Proof.
  assert (forall flags fd name w',
    mkostemp cfg template flags w = (fd, name, w') -> 0 <= fd ->
    exists stem seed l,
      template_stem template = Some stem /\ name = stem +:+ tmp_suffix 6 seed /\
      resolve w name = Ok l /\ w_fs w !! l = None /\ l <> [] /\
      w_fs w' = <[l := File (apply_umask (MKSTEMP_PERM cfg) w)]> (w_fs w) /\
      w_fds w !! fd = None /\
      w_fds w' = <[fd := {| of_cloexec := negb (Z.land flags O_CLOEXEC =? 0);
                            of_kind := Regular; of_data := []; of_pos := 0 |}]> (w_fds w) /\
      w_cwd w' = w_cwd w /\ w_clock w' = S (w_clock w) /\ w_oracle w' = w_oracle w) as Hmk.
  { intros flags fd1 name1 w1 H Hfd.
    destruct (mkostemp_name _ _ _ _ _ _ _ H Hfd) as (stem & seed & Hstem & Hname).
    apply mkostemp_ok in H; [|done].
    apply open_excl_ok in H as (l & Hl & Ha & ->); [|done].
    apply create_target_resolve in Hl as (? & ? & ?).
    apply alloc_fd_spec in Ha as [_ ?].
    by exists stem, seed, l. }
  unfold mkstemp_cloexec, mkstemp.
  destruct (HAVE_MKOSTEMP cfg).
  { intros H Hfd. apply Hmk in H as (stem & seed & l & H); [|done].
    exists stem, seed, l. destruct H as (? & ? & ? & ? & ? & ? & ? & ? & ? & _).
    done. }
  destruct (mkostemp cfg template 0 w) as [[fd0 t0] w0] eqn:E.
  destruct (fd0 <? 0) eqn:Hneg; [intros [= <- <- <-]; lia|].
  apply Hmk in E as (stem & seed & l & Hs & Hn & Hres & Hfree & Hne & Hfs & Hfdfree & Hfds & Hcwd & _);
    [|lia].
  unfold fcntl_getfd; cbn [next_event]. cbn [w_fds tick]. rewrite Hfds, lookup_insert_eq.
  destruct (w_oracle w0 (w_clock w0)) as [n|f]; cbn [fail].
  2:{ intros Hx; apply (f_equal (fun x => fst (fst x))) in Hx; revert Hx.
      destruct (mkstemp_unwind _ _ _) as [r w2] eqn:Eu; simpl.
      apply (f_equal fst) in Eu; rewrite mkstemp_unwind_fails in Eu; simpl in Eu. lia. }
  simpl (if _ <? 0 then _ else _).
  unfold fcntl_setfd; cbn [next_event]. cbn [w_fds tick]. rewrite Hfds, lookup_insert_eq.
  destruct (w_oracle (tick w0) (w_clock (tick w0))) as [n'|f]; cbn [fail].
  2:{ intros Hx; apply (f_equal (fun x => fst (fst x))) in Hx; revert Hx.
      destruct (mkstemp_unwind _ _ _) as [r w2] eqn:Eu; simpl.
      apply (f_equal fst) in Eu; rewrite mkstemp_unwind_fails in Eu; simpl in Eu. lia. }
  simpl. intros [= <- <- <-] _. exists stem, seed, l. simpl.
  rewrite Hfds, insert_insert_eq. done.
Qed.

(** The name, the file and the descriptor of a successful mkstemp_cloexec. *)
Lemma mkstemp_cloexec_named cfg stem w fd name w' :
  mkstemp_cloexec cfg (stem +:+ "XXXXXX") w = (fd, name, w') -> 0 <= fd ->
  exists sfx,
    name = stem +:+ sfx /\ String.length sfx = 6%nat /\ noslash sfx = true /\
    lookup_path w name = None /\
    lookup_path w' name = Some (File (apply_umask (MKSTEMP_PERM cfg) w)) /\
    w_fds w !! fd = None /\
    w_fds w' = <[fd := {| of_cloexec := HAVE_MKOSTEMP cfg; of_kind := Regular;
                          of_data := []; of_pos := 0 |}]> (w_fds w).
Proof.
  intros H Hfd.
  apply mkstemp_cloexec_success in H
    as (stem' & seed & l & Hs & -> & Hres & Hfree & Hne & Hfs & Hfdfree & Hfds & Hcwd);
    [|done].
  rewrite template_stem_app in Hs. injection Hs as <-.
  exists (tmp_suffix 6 seed).
  split; [done|]. split; [apply tmp_suffix_length|]. split; [apply tmp_suffix_noslash|].
  split; [|split; [|done]].
  - unfold lookup_path. rewrite Hres. by rewrite node_at_lookup.
  - unfold lookup_path.
    rewrite (resolve_mono w w' _ l); [| |done|done].
    + rewrite node_at_lookup by done. rewrite Hfs. apply lookup_insert_eq.
    + rewrite Hfs. by apply insert_subseteq.
Qed.

(** A successful mkstemp_cloexec on a template [stem ++ "XXXXXX"] gives back
    the stem followed by six characters without a slash; no entry had that
    name before the call, afterwards it is a regular file with the mode of
    the C library under the current mask; the descriptor returned was free
    and is now open on that file, empty, at offset 0.  (Close-on-exec is set
    exactly in the build with mkostemp.) *)
Theorem mkstemp_cloexec_creates cfg stem w fd name w' :
  mkstemp_cloexec cfg (stem +:+ "XXXXXX") w = (fd, name, w') -> 0 <= fd ->
  exists sfx,
    name = stem +:+ sfx /\ String.length sfx = 6%nat /\ noslash sfx = true /\
    lookup_path w name = None /\
    lookup_path w' name = Some (File (apply_umask (MKSTEMP_PERM cfg) w)) /\
    w_fds w !! fd = None /\
    w_fds w' = <[fd := {| of_cloexec := HAVE_MKOSTEMP cfg; of_kind := Regular;
                          of_data := []; of_pos := 0 |}]> (w_fds w).
Proof. apply mkstemp_cloexec_named. Qed.

Lemma mkstemp_cloexec_creates_witness :
  let r := mkstemp_cloexec Sample.linux "/tmp/t.XXXXXX" Sample.w_std in
  r.1.1 = 3 /\ lookup_path Sample.w_std r.1.2 = None /\
  lookup_path r.2 r.1.2 = Some (File 384) /\ String.length r.1.2 = 13%nat.
Proof.
  intros r.
  destruct (mkstemp_cloexec_creates Sample.linux "/tmp/t." Sample.w_std 3 r.1.2 r.2)
    as (sfx & Hname & Hlen & _ & Hnew & Hthere & _); [by vm_compute|lia|].
  split; [by vm_compute|]. split; [exact Hnew|]. split; [|by vm_compute].
  rewrite Hthere. by vm_compute.
Defined.

(** The name, the file and the descriptor of a successful xmkstemp. *)
Lemma xmkstemp_named cfg dir prefix w fd name w' :
  xmkstemp cfg dir prefix w = (fd, name, w') -> 0 <= fd ->
  exists sfx path,
    name = Some path /\
    path = match dir with
           | Some d => d
           | None => match w_tmpdir w with Some d => d | None => _PATH_TMP cfg end
           end +:+ "/" +:+ prefix +:+ "." +:+ sfx /\
    String.length sfx = 6%nat /\ noslash sfx = true /\
    lookup_path w path = None /\ (exists mode, lookup_path w' path = Some (File mode)) /\
    w_fds w !! fd = None /\
    w_fds w' = <[fd := {| of_cloexec := HAVE_MKOSTEMP cfg; of_kind := Regular;
                          of_data := []; of_pos := 0 |}]> (w_fds w).
Proof.
  unfold xmkstemp, asprintf_template; simpl.
  set (tmpenv := match match dir with Some d => Some d | None => w_tmpdir w end with
                 | Some d => d | None => _PATH_TMP cfg end).
  assert (match dir with
          | Some d => d
          | None => match w_tmpdir w with Some d => d | None => _PATH_TMP cfg end
          end = tmpenv) as -> by (by destruct dir).
  destruct (w_oracle w (w_clock w)) as [n|f]; [|intros [= <- <- <-]; lia].
  replace (tmpenv +:+ "/" +:+ prefix +:+ ".XXXXXX")
    with ((tmpenv +:+ "/" +:+ prefix +:+ ".") +:+ "XXXXXX")
    by (by rewrite !str_app_assoc).
  destruct (mkstemp_cloexec _ _ _) as [[fd1 t1] w1] eqn:E.
  intros H Hfd.
  assert (fd1 = fd /\ w' = set_umask (Z.land (w_umask w) 511) w1) as [-> ->]
    by (destruct (fd1 =? -1); by inversion H).
  replace (fd =? -1) with false in H by lia. injection H as <-.
  apply mkstemp_cloexec_named in E
    as (sfx & -> & Hlen & Hns & Hnew & Hthere & Hfree & Hfds); [|done].
  exists sfx, ((tmpenv +:+ "/" +:+ prefix +:+ ".") +:+ sfx).
  split; [done|]. split; [by rewrite !str_app_assoc|].
  split; [done|]. split; [done|]. split; [exact Hnew|]. split; [by eexists|].
  done.
Qed.

(** The name a successful xmkstemp hands out is
    [<directory>/<prefix>.<six characters>], where the directory is the
    argument [dir] if it is given, else $TMPDIR if it is set, else _PATH_TMP;
    the six characters hold no slash, no entry had the name before the call
    and afterwards it is a regular file; the descriptor was free and is open
    on the empty file. *)
Theorem xmkstemp_name cfg dir prefix w fd name w' :
  xmkstemp cfg dir prefix w = (fd, name, w') -> 0 <= fd ->
  exists sfx path,
    name = Some path /\
    path = match dir with
           | Some d => d
           | None => match w_tmpdir w with Some d => d | None => _PATH_TMP cfg end
           end +:+ "/" +:+ prefix +:+ "." +:+ sfx /\
    String.length sfx = 6%nat /\ noslash sfx = true /\
    lookup_path w path = None /\ (exists mode, lookup_path w' path = Some (File mode)) /\
    w_fds w !! fd = None /\
    w_fds w' = <[fd := {| of_cloexec := HAVE_MKOSTEMP cfg; of_kind := Regular;
                          of_data := []; of_pos := 0 |}]> (w_fds w).
Proof. apply xmkstemp_named. Qed.

Lemma xmkstemp_name_witness :
  let r := xmkstemp Sample.linux (Some "/tmp") "test" Sample.w_std in
  r.1.1 = 3 /\ exists sfx, r.1.2 = Some ("/tmp/test." +:+ sfx) /\ String.length sfx = 6%nat.
Proof.
  intros r.
  destruct (xmkstemp_name Sample.linux (Some "/tmp") "test" Sample.w_std 3 r.1.2 r.2)
    as (sfx & path & Hname & -> & Hlen & _); [by vm_compute|lia|].
  split; [by vm_compute|]. exists sfx. split; [exact Hname|exact Hlen].
Defined.

Lemma lookup_path_mono w w' d n :
  w_fs w ⊆ w_fs w' -> w_cwd w = w_cwd w' ->
  lookup_path w d = Some n -> lookup_path w' d = Some n.
Proof.
  intros Hsub Hcwd. unfold lookup_path.
  destruct (resolve w d) as [l|] eqn:Hr; [|done].
  rewrite (resolve_mono _ _ _ _ Hsub Hcwd Hr). by apply node_at_mono.
Qed.

(** A successful xmkstemp takes nothing away from the name space. *)
Lemma xmkstemp_keeps cfg dir prefix w fd name w' :
  xmkstemp cfg dir prefix w = (fd, name, w') -> 0 <= fd ->
  w_fs w ⊆ w_fs w' /\ w_cwd w = w_cwd w'.
Proof.
  unfold xmkstemp, asprintf_template; simpl.
  destruct (w_oracle w (w_clock w)) as [n|f]; [|intros [= <- <- <-]; lia].
  destruct (mkstemp_cloexec _ _ _) as [[fd1 t1] w1] eqn:E.
  intros H Hfd.
  assert (fd1 = fd /\ w' = set_umask (Z.land (w_umask w) 511) w1) as [-> ->]
    by (destruct (fd1 =? -1); by inversion H).
  simpl. apply mkstemp_cloexec_ok in E as (l & _ & Hfree & -> & -> & _); [|done].
  split; [|done]. by apply insert_subseteq.
Qed.

(** Two successful calls of xmkstemp in a row never hand out the same name
    or the same descriptor, whatever directories and prefixes they are given:
    after the second call both files exist and both descriptors are open. *)
Theorem xmkstemp_twice_distinct cfg dir1 prefix1 dir2 prefix2 w fd1 name1 w1 fd2 name2 w2 :
  xmkstemp cfg dir1 prefix1 w = (fd1, Some name1, w1) -> 0 <= fd1 ->
  xmkstemp cfg dir2 prefix2 w1 = (fd2, Some name2, w2) -> 0 <= fd2 ->
  name1 <> name2 /\ fd1 <> fd2 /\
  is_Some (lookup_path w2 name1) /\ is_Some (lookup_path w2 name2) /\
  is_Some (w_fds w2 !! fd1) /\ is_Some (w_fds w2 !! fd2).
Proof.
  intros H1 Hfd1 H2 Hfd2.
  pose proof (xmkstemp_keeps _ _ _ _ _ _ _ H2 Hfd2) as [Hsub Hcwd].
  apply xmkstemp_named in H1
    as (sfx1 & p1 & [= <-] & _ & _ & _ & _ & [m1 Hthere1] & _ & Hfds1); [|done].
  apply xmkstemp_named in H2
    as (sfx2 & p2 & [= <-] & _ & _ & _ & Hnew2 & [m2 Hthere2] & Hfree2 & Hfds2); [|done].
  assert (w_fds w1 !! fd1 = Some {| of_cloexec := HAVE_MKOSTEMP cfg; of_kind := Regular;
                                    of_data := []; of_pos := 0 |}) as Hopen1
    by (rewrite Hfds1; apply lookup_insert_eq).
  assert (fd1 <> fd2) as Hfd by congruence.
  assert (name1 <> name2) as Hname by congruence.
  split; [done|]. split; [done|]. split; [|split; [by eexists|split]].
  - exists (File m1). by apply (lookup_path_mono w1).
  - rewrite Hfds2, lookup_insert_ne by done. by eexists.
  - rewrite Hfds2, lookup_insert_eq. by eexists.
Qed.

Lemma xmkstemp_twice_distinct_witness :
  let r1 := xmkstemp Sample.linux None "job" Sample.w_std in
  let r2 := xmkstemp Sample.linux None "job" r1.2 in
  r1.1.2 <> r2.1.2 /\ r1.1.1 = 3 /\ r2.1.1 = 4.
Proof.
  intros r1 r2.
  destruct (xmkstemp_twice_distinct Sample.linux None "job" None "job" Sample.w_std
              3 "/tmp//job.eebaaa" r1.2 4 "/tmp//job.febaaa" r2.2) as (Hname & _);
    [by vm_compute|lia|by vm_compute|lia|].
  split; [|by vm_compute].
  intros Heq. apply Hname. vm_compute in Heq. by injection Heq.
Defined.

(** ** close_all_fds: both strategies *)

Lemma in_set_elem x set : in_set x set = true <-> x ∈ set.
Proof.
  induction set as [|y set IH]; simpl.
  - split; [done|by intros ?%elem_of_nil].
  - rewrite elem_of_cons. destruct (Z.eqb_spec y x) as [->|Hne].
    + split; [by left|done].
    + rewrite IH. split; [by right|]. intros [?|?]; [congruence|done].
Qed.

Lemma close_fs fd w : w_fs (snd (close fd w)) = w_fs w /\ w_umask (snd (close fd w)) = w_umask w.
Proof.
  unfold close, fail; simpl.
  destruct (w_fds w !! fd); [destruct (w_oracle w (w_clock w))|]; done.
Qed.

Ltac cmp_cases :=
  repeat match goal with
         | |- context [?a <=? ?b] => destruct (Z.leb_spec a b)
         | |- context [?a <? ?b] => destruct (Z.ltb_spec a b)
         end;
  simpl; try done; try lia.

(** The loop over the table: every descriptor of the range that is not
    excluded is closed, nothing else is touched. *)
Lemma sweep_range_fds n fd exclude w x :
  w_fds (sweep_range n fd exclude w) !! x =
  if (fd <=? x) && (x <? fd + Z.of_nat n) && negb (in_set x exclude)
  then None else w_fds w !! x.
Proof.
  revert fd w; induction n as [|n IH]; intros fd w.
  - cbn [sweep_range]. change (Z.of_nat 0) with 0.
    destruct (Z.leb_spec fd x), (Z.ltb_spec x (fd + 0)); simpl; try done; lia.
  - cbn [sweep_range]. rewrite IH, Nat2Z.inj_succ.
    destruct (Z.eq_dec x fd) as [->|Hne].
    + replace (fd + 1 <=? fd) with false by lia.
      replace ((fd <=? fd) && (fd <? fd + Z.succ (Z.of_nat n))) with true by cmp_cases.
      simpl. destruct (in_set fd exclude); simpl; [done|].
      rewrite close_fds. apply lookup_delete_eq.
    + replace ((fd <=? x) && (x <? fd + Z.succ (Z.of_nat n)))
        with ((fd + 1 <=? x) && (x <? fd + 1 + Z.of_nat n)) by cmp_cases.
      destruct ((fd + 1 <=? x) && (x <? fd + 1 + Z.of_nat n) && negb (in_set x exclude));
        [done|].
      destruct (in_set fd exclude); [done|].
      rewrite close_fds. by rewrite lookup_delete_ne.
Qed.

Lemma sweep_range_fs n fd exclude w :
  w_fs (sweep_range n fd exclude w) = w_fs w /\
  w_umask (sweep_range n fd exclude w) = w_umask w.
Proof.
  revert fd w; induction n as [|n IH]; intros fd w; [done|].
  cbn [sweep_range]. destruct (IH (fd + 1) (if in_set fd exclude then w else (close fd w).2))
    as [-> ->].
  destruct (in_set fd exclude); [done|]. apply close_fs.
Qed.

Lemma sweep_entry_fs dir d_name exclude w :
  w_fs (sweep_entry dir d_name exclude w) = w_fs w /\
  w_umask (sweep_entry dir d_name exclude w) = w_umask w.
Proof.
  unfold sweep_entry, strtol.
  destruct (strtol_parse d_name) as [[v e] ov].
  destruct ov; simpl;
    repeat (match goal with |- context [if ?b then _ else _] => destruct b end; simpl);
    try done;
    match goal with
    | |- context [close ?fd ?w0] => destruct (close_fs fd w0) as [-> ->]
    end; done.
Qed.

Lemma sweep_entries_fs d names exclude w :
  w_fs (sweep_entries d names exclude w) = w_fs w /\
  w_umask (sweep_entries d names exclude w) = w_umask w.
Proof.
  revert w; induction names as [|n names IH]; intros w; [done|].
  simpl. destruct (IH (sweep_entry (d, n :: names) n exclude w)) as [-> ->].
  apply sweep_entry_fs.
Qed.

(** When the directory cannot be opened nothing is left of the attempt. *)
Lemma opendir_fddir_fail w w1 :
  opendir_fddir w = (None, w1) ->
  w_fds w1 = w_fds w /\ w_fs w1 = w_fs w /\ w_umask w1 = w_umask w.
Proof.
  unfold opendir_fddir; simpl.
  destruct (w_fddir w) as [ns|]; [|by intros [= <-]].
  destruct (w_oracle w (w_clock w)); [|by intros [= <-]].
  destruct (alloc_fd 0 (tick w)) as [fd|]; [done|]. by intros [= <-].
Qed.

Lemma opendir_fddir_fs w d names w1 :
  opendir_fddir w = (Some (d, names), w1) -> w_fs w1 = w_fs w /\ w_umask w1 = w_umask w.
Proof.
  unfold opendir_fddir; simpl.
  destruct (w_fddir w) as [ns|]; [|done].
  destruct (w_oracle w (w_clock w)); [|done].
  destruct (alloc_fd 0 (tick w)) as [fd|]; [|done]. by intros [= <- <- <-].
Qed.

(** The listing strategy: what is left in the table. *)
Lemma close_all_fds_listing cfg exclude w d names w1 x :
  opendir_fddir w = (Some (d, names), w1) ->
  w_fds (close_all_fds cfg exclude w) !! x =
  if decide (x = d) then None
  else w_fds (sweep_entries d names exclude w1) !! x.
Proof.
  intros Hopen. unfold close_all_fds, closedir, dirfd. rewrite Hopen. simpl.
  rewrite close_fds. case_decide as Hx.
  - subst. apply lookup_delete_eq.
  - by rewrite lookup_delete_ne.
Qed.

(** The table strategy: what is left in the table. *)
Lemma close_all_fds_walk cfg exclude w w1 x :
  opendir_fddir w = (None, w1) ->
  w_fds (close_all_fds cfg exclude w) !! x =
  if (0 <=? x) && (x <? get_fd_tabsize cfg) && negb (in_set x exclude)
  then None else w_fds w !! x.
Proof.
  intros Hopen. unfold close_all_fds. rewrite Hopen.
  apply opendir_fddir_fail in Hopen as (Hfds & _).
  rewrite sweep_range_fds, Hfds.
  replace ((0 <=? x) && (x <? 0 + Z.of_nat (Z.to_nat (get_fd_tabsize cfg))))
    with ((0 <=? x) && (x <? get_fd_tabsize cfg)) by cmp_cases.
  done.
Qed.

(** When /proc/self/fd cannot be opened, close_all_fds walks the table: a
    descriptor is closed exactly when it lies in [0, get_fd_tabsize()) and is
    not in the exclusion array; descriptors at or above the table size stay
    open, and a table size of 0 or less closes nothing. *)
Theorem close_all_fds_table_walk cfg exclude w x :
  fst (opendir_fddir w) = None ->
  w_fds (close_all_fds cfg exclude w) !! x =
  if (0 <=? x) && (x <? get_fd_tabsize cfg) && negb (in_set x exclude)
  then None else w_fds w !! x.
Proof.
  intros Hfail. destruct (opendir_fddir w) as [dir w1] eqn:Hopen.
  simpl in Hfail. subst dir. by eapply close_all_fds_walk.
Qed.

Lemma close_all_fds_table_walk_witness :
  let w := Sample.world_of Sample.six ∅ None Sample.calm in
  w_fds (close_all_fds Sample.portable [0; 1; 2] w) !! 6 = None /\
  w_fds (close_all_fds Sample.portable [0; 1; 2] w) !! 2 = Some Sample.tty.
Proof.
  intros w. split.
  - rewrite (close_all_fds_table_walk Sample.portable [0; 1; 2] w 6); by vm_compute.
  - rewrite (close_all_fds_table_walk Sample.portable [0; 1; 2] w 2); by vm_compute.
Defined.

(** Whatever strategy it takes, close_all_fds only closes: every descriptor
    open afterwards was open before and is unchanged (so the directory
    stream is not left open), every descriptor of the exclusion array is as
    it was, and the name space and the creation mask are untouched. *)
Theorem close_all_fds_only_closes cfg exclude w :
  w_fds (close_all_fds cfg exclude w) ⊆ w_fds w /\
  (forall x, x ∈ exclude -> w_fds (close_all_fds cfg exclude w) !! x = w_fds w !! x) /\
  w_fs (close_all_fds cfg exclude w) = w_fs w /\
  w_umask (close_all_fds cfg exclude w) = w_umask w.
Proof.
  destruct (opendir_fddir w) as [[[d names]|] w1] eqn:Hopen.
  - pose proof (opendir_fddir_fs _ _ _ _ Hopen) as [Hfs Hm].
    pose proof (opendir_fddir_ok _ _ _ _ Hopen) as (_ & Hd & _ & od & Hfds).
    assert (forall x, x <> d ->
              w_fds (sweep_entries d names exclude w1) !! x = None \/
              w_fds (sweep_entries d names exclude w1) !! x = w_fds w !! x) as Hsw.
    { intros x Hx.
      destruct (classic_swept_dec strtol_accepts d exclude names x) as [Hs|Hno].
      - left. by apply sweep_entries_swept.
      - right. rewrite sweep_entries_kept by done. rewrite Hfds. by rewrite lookup_insert_ne. }
    split; [|split].
    + apply map_subseteq_spec. intros x o.
      rewrite (close_all_fds_listing _ _ _ _ _ _ _ Hopen). case_decide as Hx; [done|].
      destruct (Hsw x Hx) as [-> | ->]; done.
    + intros x Hex%in_set_elem.
      rewrite (close_all_fds_listing _ _ _ _ _ _ _ Hopen). case_decide as Hx; [by subst|].
      rewrite sweep_entries_kept.
      * rewrite Hfds. by rewrite lookup_insert_ne.
      * intros (n & _ & _ & _ & Hn). congruence.
    + unfold close_all_fds, closedir. rewrite Hopen. simpl.
      destruct (close_fs d (sweep_entries d names exclude w1)) as [-> ->].
      destruct (sweep_entries_fs d names exclude w1) as [-> ->]. done.
  - pose proof (opendir_fddir_fail _ _ Hopen) as (Hfds & Hfs & Hm).
    split; [|split].
    + apply map_subseteq_spec. intros x o.
      rewrite (close_all_fds_walk _ _ _ _ _ Hopen). by case_match.
    + intros x Hex%in_set_elem.
      rewrite (close_all_fds_walk _ _ _ _ _ Hopen), Hex.
      by rewrite andb_false_r.
    + unfold close_all_fds. rewrite Hopen.
      destruct (sweep_range_fs (Z.to_nat (get_fd_tabsize cfg)) 0 exclude w1) as [-> ->].
      done.
Qed.

(** When the listing of /proc/self/fd names every open descriptor, the
    descriptors left open by close_all_fds are exactly the open ones of the
    exclusion array. *)
Theorem close_all_fds_faithful_listing cfg exclude w d names w1 :
  opendir_fddir w = (Some (d, names), w1) ->
  (forall x, is_Some (w_fds w !! x) ->
             exists d_name, d_name ∈ names /\ strtol_accepts d_name = Some x) ->
  forall x,
    w_fds (close_all_fds cfg exclude w) !! x =
    if in_set x exclude then w_fds w !! x else None.
Proof.
  intros Hopen Hall x.
  pose proof (opendir_fddir_ok _ _ _ _ Hopen) as (_ & Hd & _ & od & Hfds).
  rewrite (close_all_fds_listing _ _ _ _ _ _ _ Hopen).
  case_decide as Hx; [subst; by destruct (in_set d exclude)|].
  destruct (in_set x exclude) eqn:Hex.
  - rewrite sweep_entries_kept.
    + rewrite Hfds. by rewrite lookup_insert_ne.
    + intros (n & _ & _ & _ & Hn). congruence.
  - destruct (w_fds w !! x) as [o|] eqn:Ho.
    + apply sweep_entries_swept.
      destruct (Hall x) as (n & Hin & Hacc); [by rewrite Ho|]. by exists n.
    + apply sweep_entries_gone. rewrite Hfds. by rewrite lookup_insert_ne.
Qed.

Lemma close_all_fds_faithful_listing_witness :
  let w := Sample.w_listing ["0"; "1"; "2"; "3"; "5"; "6"; "7"] in
  w_fds (close_all_fds Sample.linux [1; 6] w) !! 5 = None /\
  w_fds (close_all_fds Sample.linux [1; 6] w) !! 6 = Some Sample.tty.
Proof.
  intros w.
  assert (forall x, is_Some (w_fds w !! x) ->
            exists d_name, d_name ∈ ["0"; "1"; "2"; "3"; "5"; "6"; "7"] /\
                           strtol_accepts d_name = Some x) as Hall.
  { intros x [o Hx]. change (w_fds w) with Sample.six in Hx.
    unfold Sample.six, Sample.stdio in Hx.
    destruct (decide (x = 5)) as [->|N5];
      [exists "5"; split; [by repeat constructor|by vm_compute]|].
    rewrite lookup_insert_ne in Hx by done.
    destruct (decide (x = 6)) as [->|N6];
      [exists "6"; split; [by repeat constructor|by vm_compute]|].
    rewrite lookup_insert_ne in Hx by done.
    destruct (decide (x = 7)) as [->|N7];
      [exists "7"; split; [by repeat constructor|by vm_compute]|].
    rewrite lookup_insert_ne in Hx by done.
    destruct (decide (x = 0)) as [->|N0];
      [exists "0"; split; [by repeat constructor|by vm_compute]|].
    rewrite lookup_insert_ne in Hx by done.
    destruct (decide (x = 1)) as [->|N1];
      [exists "1"; split; [by repeat constructor|by vm_compute]|].
    rewrite lookup_insert_ne in Hx by done.
    destruct (decide (x = 2)) as [->|N2];
      [exists "2"; split; [by repeat constructor|by vm_compute]|].
    rewrite lookup_insert_ne in Hx by done.
    by rewrite lookup_empty in Hx. }
  split.
  - rewrite (close_all_fds_faithful_listing Sample.linux [1; 6] w 3 _ (snd (opendir_fddir w))
               eq_refl Hall 5).
    done.
  - rewrite (close_all_fds_faithful_listing Sample.linux [1; 6] w 3 _ (snd (opendir_fddir w))
               eq_refl Hall 6).
    done.
Defined.

(** ** mkdir_p: what it adds *)

Lemma mkdir_adds d mode w rc w1 :
  mkdir d mode w = (rc, w1) ->
  w_fds w1 = w_fds w /\ w_umask w1 = w_umask w /\
  forall l n, w_fs w1 !! l = Some n ->
              w_fs w !! l = Some n \/ (w_fs w !! l = None /\ n = Dir (apply_umask mode w)).
Proof.
  unfold mkdir, fail; simpl.
  destruct (w_oracle w (w_clock w)).
  2:{ intros [= <- <-]. repeat split; try done. by left. }
  destruct (create_target (tick w) d) as [l|e] eqn:Et.
  2:{ intros [= <- <-]. repeat split; try done. by left. }
  intros [= <- <-]. split; [done|]. split; [done|].
  apply create_target_resolve in Et as (_ & Hfree & _). simpl in Hfree.
  simpl. intros l' n'. rewrite lookup_insert.
  case_decide; [intros [= <-]; subst; by right|by left].
Qed.

Lemma create_all_adds dirs mode w rc w' :
  create_all dirs mode w = (rc, w') ->
  w_fds w' = w_fds w /\ w_umask w' = w_umask w /\
  forall l n, w_fs w' !! l = Some n ->
              w_fs w !! l = Some n \/ (w_fs w !! l = None /\ n = Dir (apply_umask mode w)).
Proof.
  revert w; induction dirs as [|d dirs IH]; intros w; simpl.
  - intros [= <- <-]. repeat split; try done. by left.
  - destruct (mkdir d mode w) as [rc1 w1] eqn:Em.
    pose proof (mkdir_grows _ _ _ _ _ Em) as [(Hsub & _) _].
    apply mkdir_adds in Em as (Hfds1 & Hm1 & Hnew1).
    assert (create_all dirs mode w1 = (rc, w') ->
            w_fds w' = w_fds w /\ w_umask w' = w_umask w /\
            forall l n, w_fs w' !! l = Some n ->
              w_fs w !! l = Some n \/ (w_fs w !! l = None /\ n = Dir (apply_umask mode w)))
      as Hgo.
    { intros (Hfds & Hm & Hnew)%IH. split; [congruence|]. split; [congruence|].
      intros l n Hl. destruct (Hnew l n Hl) as [H1|[H1 ->]].
      - by apply Hnew1.
      - right. split.
        + destruct (w_fs w !! l) eqn:E; [|done].
          eapply lookup_weaken in E; [|exact Hsub]. congruence.
        + unfold apply_umask. by rewrite Hm1. }
    destruct (rc1 =? 0); [done|]. destruct (w_errno w1 =? EEXIST); [done|].
    intros [= <- <-]. split; [done|]. split; [done|exact Hnew1].
Qed.

(** Whatever it returns, mkdir_p only adds directories: every entry of the
    name space stays as it was, every new entry is a directory whose
    permission bits are [mode & 0777 & ~umask], and the descriptor table, the
    creation mask and the working directory are untouched. *)
Theorem mkdir_p_only_adds path mode w rc w' :
  mkdir_p path mode w = Some (rc, w') ->
  w_fs w ⊆ w_fs w' /\
  (forall l n, w_fs w' !! l = Some n -> w_fs w !! l = None ->
               n = Dir (Z.land (Z.land mode 511) (Z.lnot (w_umask w)))) /\
  w_fds w' = w_fds w /\ w_umask w' = w_umask w /\ w_cwd w' = w_cwd w.
Proof.
  destruct path as [path|];
    [|intros [= <- <-]; repeat split; try done; intros; congruence].
  destruct (decide (path = "")) as [->|Hne];
    [intros [= <- <-]; repeat split; try done; intros; congruence|].
  destruct (w_oracle w (w_clock w)) as [k|f] eqn:Hev.
  2:{ unfold mkdir_p, strdup, next_event. rewrite Hev.
      destruct path; [done|]. intros [= <- <-].
      repeat split; try done; simpl; intros; congruence. }
  rewrite (mkdir_p_create_all _ _ _ _ Hne Hev). intros [= H].
  pose proof (create_all_grows _ _ _ _ _ H) as (Hsub & Hcwd & _).
  apply create_all_adds in H as (Hfds & Hm & Hnew).
  split; [done|]. split; [|done].
  intros l n Hl Hfree. destruct (Hnew l n Hl) as [H1|[_ ->]]; [|done].
  simpl in H1. congruence.
Qed.

Lemma mkdir_p_only_adds_witness :
  let w' := snd (default (0, Sample.w_std) (mkdir_p (Some "/x/y") 511 Sample.w_std)) in
  w_fs w' !! ["tmp"] = Some (Dir 511) /\ w_fs w' !! ["x"; "y"] = Some (Dir 493).
Proof.
  intros w'.
  destruct (mkdir_p_only_adds (Some "/x/y") 511 Sample.w_std 0 w') as (Hsub & Hnew & _);
    [by vm_compute|].
  split.
  - eapply lookup_weaken; [|exact Hsub]. by vm_compute.
  - destruct (w_fs w' !! ["x"; "y"]) as [n|] eqn:E; [|by vm_compute in E].
    rewrite (Hnew _ _ E); by vm_compute.
Defined.

(** ** mkdir_p: only the components of the path matter *)







(** ** mkdir_p on what is there already *)

Lemma walk_prefix_there fs start cs1 cs2 l n :
  walk fs start (cs1 ++ cs2) = Ok l -> node_at fs l = Some n ->
  exists l1 n1, walk fs start cs1 = Ok l1 /\ node_at fs l1 = Some n1.
Proof.
  rewrite walk_app. destruct (walk fs start cs1) as [l1|e] eqn:Hw1; [|done].
  destruct cs2 as [|c cs2]; cbn [walk].
  - intros [= ->] Hn. by exists l, n.
  - destruct (step fs l1 c) as [l2|e] eqn:Es; [|done]. intros _ _.
    unfold step in Es. destruct (node_at fs l1) as [n1|] eqn:Hn1; [|done].
    by exists l1, n1.
Qed.

Lemma inits_from_prefix {A} (pre cs x : list A) :
  x ∈ inits_from pre cs -> exists rest, pre ++ cs = x ++ rest.
Proof.
  revert pre; induction cs as [|c cs IH]; intros pre; simpl; [by intros ?%elem_of_nil|].
  intros [->|H]%elem_of_cons.
  - exists cs. by rewrite <- app_assoc.
  - apply IH in H as [rest H]. exists rest. rewrite <- H. by rewrite <- app_assoc.
Qed.

(** When a name leads to an entry, so does every directory accumulated on
    the way. *)
Lemma lookup_path_prefixes w path d :
  is_Some (lookup_path w path) -> d ∈ segment_prefixes path -> is_Some (lookup_path w d).
Proof.
  intros [n Hn] Hd. unfold lookup_path, resolve in Hn.
  destruct path as [|c p]; [done|]. set (path := String c p) in *.
  destruct (walk (w_fs w) (start_of w path) (split_path path)) as [l|] eqn:Hw; [|done].
  destruct (segment_prefixes_absolute _ _ Hd) as [Hne Habs].
  assert (split_path d ∈ inits_from [] (split_path path)) as Hin.
  { rewrite <- segment_prefixes_components. apply list_elem_of_fmap. by exists d. }
  apply inits_from_prefix in Hin as [rest Hrest]. simpl in Hrest. rewrite Hrest in Hw.
  destruct (walk_prefix_there _ _ _ _ _ _ Hw Hn) as (l1 & n1 & Hw1 & Hn1).
  exists n1. unfold lookup_path, resolve, start_of in *. rewrite Habs.
  destruct d; [done|]. by rewrite Hw1.
Qed.

Lemma lookup_path_same w w' d :
  w_fs w' = w_fs w -> w_cwd w' = w_cwd w -> lookup_path w' d = lookup_path w d.
Proof. intros Hfs Hcwd. unfold lookup_path, resolve, start_of. by rewrite Hfs, Hcwd. Qed.

(** mkdir(2) on a name that is taken, when the call is not made to fail
    from outside: EEXIST. *)
Lemma mkdir_exists d mode w k :
  w_oracle w (w_clock w) = Proceed k ->
  is_Some (lookup_path w d) -> mkdir d mode w = (-1, set_errno EEXIST (tick w)).
Proof.
  intros Hev [n Hn]. unfold mkdir, create_target, next_event, fail. rewrite Hev.
  unfold lookup_path in Hn.
  change (resolve (tick w) d) with (resolve w d).
  destruct (resolve w d) as [l|]; [|done]. cbn [w_fs tick]. by rewrite Hn.
Qed.

Lemma no_fault_tick w : no_fault w -> no_fault (tick w).
Proof. intros H t f Ht. apply H. simpl in Ht. lia. Qed.

Lemma no_fault_same w w' :
  w_oracle w' = w_oracle w -> w_clock w' = w_clock w -> no_fault w -> no_fault w'.
Proof. unfold no_fault. intros -> -> H. exact H. Qed.

Lemma no_fault_now w : no_fault w -> exists k, w_oracle w (w_clock w) = Proceed k.
Proof.
  intros H. destruct (w_oracle w (w_clock w)) as [k|f] eqn:Hev; [by exists k|].
  by destruct (H (w_clock w) f).
Qed.

Lemma create_all_existing dirs mode w :
  no_fault w ->
  (forall d, d ∈ dirs -> is_Some (lookup_path w d)) ->
  exists w', create_all dirs mode w = (0, w') /\ w_fs w' = w_fs w /\ w_fds w' = w_fds w.
Proof.
  revert w; induction dirs as [|d dirs IH]; intros w Hnf Hall; simpl; [by exists w|].
  destruct (no_fault_now _ Hnf) as [k Hev].
  rewrite (mkdir_exists _ _ _ k) by (done || apply Hall; left).
  cbn [Z.eqb w_errno set_errno]. change (EEXIST =? EEXIST) with true. cbn iota.
  destruct (IH (set_errno EEXIST (tick w))) as (w' & -> & ? & ?); [| |by exists w'].
  - by apply (no_fault_same (tick w)), no_fault_tick.
  - intros d' Hd'. rewrite (lookup_path_same w) by done. apply Hall. by right.
Qed.

Lemma mkdir_p_on_existing path mode w :
  is_Some (lookup_path w path) -> no_fault w ->
  exists w',
    mkdir_p (Some path) mode w = Some (0, w') /\ w_fs w' = w_fs w /\ w_fds w' = w_fds w.
Proof.
  intros Hthere Hnf.
  assert (path <> "") as Hne by (intros ->; by destruct Hthere).
  destruct (no_fault_now _ Hnf) as [k Hev].
  rewrite (mkdir_p_create_all _ _ _ _ Hne Hev).
  destruct (create_all_existing (segment_prefixes path) mode (tick w)) as (w' & -> & ? & ?).
  { by apply no_fault_tick. }
  { intros d Hd. rewrite (lookup_path_same w) by done. by apply lookup_path_prefixes with path. }
  by exists w'.
Qed.

(** After a successful mkdir_p the path leads to an entry. *)
Lemma mkdir_p_there path mode w w' :
  mkdir_p (Some path) mode w = Some (0, w') -> is_Some (lookup_path w' path).
Proof.
  intros H.
  destruct (decide (path = "")) as [->|Hne]; [done|].
  destruct (w_oracle w (w_clock w)) as [k|f] eqn:Hev.
  2:{ unfold mkdir_p, strdup, next_event in H. rewrite Hev in H. by destruct path. }
  rewrite (mkdir_p_create_all _ _ _ _ Hne Hev) in H. injection H as H.
  pose proof (create_all_grows _ _ _ _ _ H) as Hg.
  destruct (create_all_there (split_path path) [] (segment_prefixes path) mode
              (start_of (tick w) path) (tick w) w') as (l & n & Hw & Hn); try done.
  - intros d [_ Hd]%segment_prefixes_absolute. unfold start_of. by rewrite Hd.
  - apply segment_prefixes_components.
  - intros Hnil. apply split_path_nil in Hnil; [|done].
    unfold start_of. rewrite Hnil. by exists [], (Dir 493).
  - exists n. rewrite app_nil_l in Hw. unfold lookup_path, resolve.
    destruct path; [done|]. rewrite (start_of_grows _ _ _ Hg). by rewrite Hw.
Qed.

(** On a path that already leads to an entry, a name shorter than PATH_MAX,
    and with no call made to fail from outside, mkdir_p returns 0 and
    changes neither the name space nor the descriptor table: every mkdir on
    the way reports EEXIST, which the loop takes for success. *)
Theorem mkdir_p_existing path mode w :
  is_Some (lookup_path w path) -> (String.length path < PATH_MAX)%nat -> no_fault w ->
  exists w',
    mkdir_p (Some path) mode w = Some (0, w') /\ w_fs w' = w_fs w /\ w_fds w' = w_fds w.
Proof. intros Hthere _ Hnf. by apply mkdir_p_on_existing. Qed.

Lemma mkdir_p_existing_witness :
  exists w',
    mkdir_p (Some "/tmp/") 493 Sample.w_std = Some (0, w') /\
    w_fs w' = w_fs Sample.w_std /\ w_fds w' = w_fds Sample.w_std.
Proof.
  apply (mkdir_p_existing "/tmp/" 493 Sample.w_std).
  - exists (Dir 511). by vm_compute.
  - vm_compute. lia.
  - by intros t f _.
Defined.

(** mkdir_p is idempotent: after a successful call, a second call on the same
    path, in a state with the same name space and with no call made to fail
    from outside, returns 0 and adds nothing. *)
Theorem mkdir_p_idempotent path mode w w1 v :
  mkdir_p (Some path) mode w = Some (0, w1) ->
  w_fs v = w_fs w1 -> w_cwd v = w_cwd w1 -> no_fault v ->
  exists v', mkdir_p (Some path) mode v = Some (0, v') /\ w_fs v' = w_fs v.
Proof.
  intros H Hfs Hcwd Hnf. apply mkdir_p_there in H.
  rewrite <- (lookup_path_same w1 v) in H by done.
  destruct (mkdir_p_on_existing path mode v H Hnf) as (v' & ? & ? & _).
  by exists v'.
Qed.

Lemma mkdir_p_idempotent_witness :
  let w1 := snd (default (0, Sample.w_std) (mkdir_p (Some "a/b") 493 Sample.w_std)) in
  exists v', mkdir_p (Some "a/b") 493 w1 = Some (0, v') /\ w_fs v' = w_fs w1.
Proof.
  intros w1.
  apply (mkdir_p_idempotent "a/b" 493 Sample.w_std w1 w1);
    [by vm_compute|done|done|by intros t f _].
Defined.

(** ** mkdir_p when the environment makes no call fail *)







(** A component longer than NAME_MAX makes mkdir_p fail with ENAMETOOLONG,
    after the directories in front of it were made. *)
Example mkdir_p_long_component :
  let long := String.concat "" (replicate 256 "a") in
  exists w',
    mkdir_p (Some ("/x/" +:+ long)) 493 Sample.w_std = Some (-1, w') /\
    w_errno w' = ENAMETOOLONG /\ w_fs w' !! ["x"] = Some (Dir 493).
Proof.
  intros long.
  exists (snd (default (0, Sample.w_std) (mkdir_p (Some ("/x/" +:+ long)) 493 Sample.w_std))).
  repeat split; by vm_compute.
Qed.

(** ** mkdir_p on a tree of directories *)









(** ** stripoff_last_component *)

Lemma strrchr_slash_none s : strrchr_slash s = None <-> noslash s = true.
Proof.
  induction s as [|c s IH]; simpl; [done|].
  destruct (strrchr_slash s) as [i|].
  - split; [done|]. intros [_ H]%andb_true_iff. by apply IH in H.
  - destruct (Ascii.eqb c "/"); simpl; [done|]. split; [intros _; by apply IH|done].
Qed.

(** The last slash splits the string into what is in front of it and a
    part without a slash. *)
Lemma strrchr_slash_some s p :
  strrchr_slash s = Some p ->
  s = cut_at s p +:+ "/" +:+ string_at s (S p) /\ noslash (string_at s (S p)) = true.
Proof.
  revert p; induction s as [|c s IH]; intros p; simpl; [done|].
  destruct (strrchr_slash s) as [i|] eqn:E.
  - intros [= <-]. destruct (IH i eq_refl) as [Hs Hn]. split; [|done].
    cbn [cut_at]. rewrite str_app_cons. by rewrite <- Hs.
  - destruct (Ascii.eqb_spec c "/") as [->|]; [|done]. intros [= <-].
    split; [done|]. by apply strrchr_slash_none.
Qed.

Lemma strrchr_slash_join dir base :
  noslash base = true ->
  strrchr_slash (dir +:+ "/" +:+ base) = Some (String.length dir).
Proof.
  intros Hb. induction dir as [|c dir IH].
  - change ("" +:+ "/" +:+ base) with (String "/" base). simpl.
    by apply strrchr_slash_none in Hb as ->.
  - rewrite str_app_cons. simpl. by rewrite IH.
Qed.

Lemma cut_at_join dir t : cut_at (dir +:+ t) (String.length dir) = dir.
Proof.
  induction dir as [|c dir IH]; [by destruct t|]. rewrite str_app_cons. simpl. by rewrite IH.
Qed.

Lemma string_at_join dir t : string_at (dir +:+ t) (String.length dir) = t.
Proof. induction dir as [|c dir IH]; [by destruct t|]. by rewrite str_app_cons. Qed.

Lemma stripoff_join dir base :
  noslash base = true ->
  stripoff_last_component (Some (dir +:+ "/" +:+ base)) = (Some base, Some dir).
Proof.
  intros Hb. unfold stripoff_last_component. rewrite strrchr_slash_join by done.
  rewrite cut_at_join.
  replace (dir +:+ "/" +:+ base) with ((dir +:+ "/") +:+ base) by apply str_app_assoc.
  replace (S (String.length dir)) with (String.length (dir +:+ "/"))
    by (rewrite str_length_app; simpl; lia).
  by rewrite string_at_join.
Qed.

Lemma stripoff_split path base dir :
  stripoff_last_component (Some path) = (Some base, Some dir) ->
  path = dir +:+ "/" +:+ base /\ noslash base = true.
Proof.
  unfold stripoff_last_component.
  destruct (strrchr_slash path) as [p|] eqn:E; [|done].
  intros [= <- <-]. by apply strrchr_slash_some.
Qed.

(** The components of a name are those of what is in front of a slash and
    those of what is behind it. *)
Lemma split_from_join a b acc :
  split_from acc (a +:+ "/" +:+ b) = split_from acc a ++ split_from "" b.
Proof.
  revert acc; induction a as [|c a IH]; intros acc.
  - by rewrite str_app_nil_l.
  - rewrite str_app_cons. simpl. destruct (Ascii.eqb c "/").
    + by rewrite IH, app_assoc.
    + apply IH.
Qed.

(** stripoff_last_component cuts the buffer at its last slash: it returns
    [base] and leaves [dir] in the buffer exactly when the path was
    [dir ++ "/" ++ base] with no slash in [base].  The slash itself is in
    neither part, and joining the two parts with a slash gives the path
    back. *)
Theorem stripoff_last_component_round_trip path base dir :
  stripoff_last_component (Some path) = (Some base, Some dir) <->
  path = dir +:+ "/" +:+ base /\ noslash base = true.
Proof.
  split; [apply stripoff_split|]. intros [-> Hb]. by apply stripoff_join.
Qed.

(** stripoff_last_component returns NULL for a NULL path and for a path
    without a slash, and then leaves the buffer as it was; it returns NULL
    in no other case. *)
Theorem stripoff_last_component_no_slash :
  stripoff_last_component None = (None, None) /\
  forall path,
    (noslash path = true -> stripoff_last_component (Some path) = (None, Some path)) /\
    (fst (stripoff_last_component (Some path)) = None -> noslash path = true).
Proof.
  split; [done|]. intros path. unfold stripoff_last_component.
  destruct (strrchr_slash path) as [p|] eqn:E.
  - split; [|done]. intros H. apply strrchr_slash_none in H. congruence.
  - split; [done|]. intros _. by apply strrchr_slash_none.
Qed.

(** After stripoff_last_component the components of the original name are
    those of the directory part kept in the buffer followed by the returned
    base name (none for an empty base name); and when the directory part is
    not empty, the original name leads where the directory part leads,
    followed by a step to the base name. *)
Theorem stripoff_last_component_resolve path base dir w :
  stripoff_last_component (Some path) = (Some base, Some dir) ->
  split_path path = split_path dir ++ nonempty_seg base /\
  (dir <> "" ->
   resolve w path =
   match resolve w dir with
   | Ok l => walk (w_fs w) l (nonempty_seg base)
   | Err e => Err e
   end).
Proof.
  intros [-> Hb]%stripoff_split.
  assert (split_path (dir +:+ "/" +:+ base) = split_path dir ++ nonempty_seg base) as Hsp.
  { unfold split_path. rewrite split_from_join. by rewrite (split_from_noslash base ""). }
  split; [done|]. intros Hne. unfold resolve. rewrite Hsp.
  destruct dir as [|c dir]; [done|]. rewrite str_app_cons.
  unfold start_of. cbn [is_absolute]. apply walk_app.
Qed.

Lemma stripoff_last_component_resolve_witness :
  stripoff_last_component (Some "/usr/lib/x.so") = (Some "x.so", Some "/usr/lib") /\
  split_path "/usr/lib/x.so" = split_path "/usr/lib" ++ ["x.so"].
Proof.
  split; [by vm_compute|].
  apply (stripoff_last_component_resolve "/usr/lib/x.so" "x.so" "/usr/lib" Sample.w_std).
  by vm_compute.
Defined.

(** For a name directly below the root, as in "/etc", the directory part
    left in the buffer is the empty string, not "/": handed on to mkdir_p it
    is refused with -EINVAL. *)
Theorem stripoff_last_component_top_level name mode w :
  noslash name = true ->
  stripoff_last_component (Some ("/" +:+ name)) = (Some name, Some "") /\
  mkdir_p (snd (stripoff_last_component (Some ("/" +:+ name)))) mode w = Some (- EINVAL, w).
Proof.
  intros Hn. pose proof (stripoff_join "" name Hn) as H.
  rewrite str_app_nil_l in H. by rewrite H.
Qed.

Lemma stripoff_last_component_top_level_witness :
  stripoff_last_component (Some "/etc") = (Some "etc", Some "") /\
  mkdir_p (snd (stripoff_last_component (Some "/etc"))) 493 Sample.w_std
  = Some (- EINVAL, Sample.w_std).
Proof. apply (stripoff_last_component_top_level "etc" 493 Sample.w_std). by vm_compute. Defined.

(** ** Copying: whatever the outcome *)

(** The inner loop, whatever it returns: it has written a part of what was
    pending, all of it when it returns 0. *)
Lemma write_chunk_copying_any fuel from to src dst buf jr :
  from <> to ->
  forall off nr jw w r w',
  copying from to src dst jr jw w ->
  0 <= off -> 0 <= nr ->
  take (Z.to_nat nr) (drop (Z.to_nat off) buf) = take (jr - jw) (drop jw (unread src)) ->
  Z.to_nat nr = (jr - jw)%nat ->
  write_chunk fuel to buf off nr w = Some (r, w') ->
  exists jw', copying from to src dst jr jw' w' /\
              (r = 0 /\ jw' = jr \/ r = -2 /\ (jw' < jr)%nat).
Proof.
  intros Hne. induction fuel as [|fuel IH]; intros off nr jw w r w' Hc Hoff Hnr Hbuf Hlen.
  - simpl. destruct (Z.gtb_spec nr 0) as [E|E]; [done|]. intros [= <- <-].
    exists jw. split; [done|]. left. destruct Hc as (? & ? & ?). split; [done|lia].
  - simpl. destruct (Z.gtb_spec nr 0) as [E|E].
    2:{ intros [= <- <-]. exists jw. split; [done|]. left.
        destruct Hc as (? & ? & ?). split; [done|lia]. }
    destruct (write to _ w) as [nw w1] eqn:Ew.
    apply write_spec in Ew as (_ & _ & [(-> & Hfds & _)|(o & n & Ho & _ & -> & Hfds & _)]).
    { simpl. intros [= <- <-]. exists jw. split; [by eapply copying_fds|].
      right. split; [done|lia]. }
    rewrite Hbuf in Hfds |- *.
    set (k := length (take n (take (jr - jw) (drop jw (unread src))))) in *.
    replace (Z.of_nat k <? 0) with false by lia.
    destruct Hc as (Hf & Ht & Hj). rewrite Ht in Ho. injection Ho as <-.
    destruct (copying_write from to src dst jr jw w w1 n _ Hne
                (conj Hf (conj Ht Hj)) eq_refl Hfds) as [Hc1 Hle].
    fold k in Hc1, Hle.
    apply IH with (jw := (jw + k)%nat); try done; try lia.
    replace (Z.to_nat (nr - Z.of_nat k)) with (Z.to_nat nr - k)%nat by lia.
    replace (Z.to_nat (off + Z.of_nat k)) with (Z.to_nat off + k)%nat by lia.
    rewrite <- drop_drop, take_drop_commute.
    replace (k + (Z.to_nat nr - k))%nat with (Z.to_nat nr) by lia.
    rewrite Hbuf. rewrite <- (drop_drop (unread src) k jw).
    rewrite (take_drop_commute (drop jw (unread src)) (jr - (jw + k)) k).
    by replace (k + (jr - (jw + k)))%nat with (jr - jw)%nat by lia.
Qed.

(** The buffered loop, whatever it returns: the destination has received a
    part of what was read, in order; all of it unless a write failed. *)
Lemma copy_file_simple_copying_any fuel from to src dst :
  from <> to ->
  forall j w r w',
  copying from to src dst j j w ->
  copy_file_simple fuel from to w = Some (r, w') ->
  exists jr jw, copying from to src dst jr jw w' /\
    (r = 0 /\ jw = jr /\ jr = length (unread src) \/
     r = -1 /\ jw = jr \/
     r = -2 /\ (jw < jr)%nat).
Proof.
  intros Hne. induction fuel as [|fuel IH]; intros j w r w' Hc; [done|].
  simpl. destruct (read from BUFSZ w) as [[nr buf] w1] eqn:Er.
  apply read_spec in Er
    as (_ & _ & [(-> & _ & Hfds & _)|(o & Ho & Hbuf & -> & Hle & _ & Heof & Hfds & _)]).
  { simpl. intros [= <- <-]. exists j, j. split; [by eapply copying_fds|].
    right. left. done. }
  destruct Hc as (Hf & Ht & Hj). rewrite Hf in Ho. injection Ho as <-.
  rewrite unread_advance in Hbuf, Hle, Heof. rewrite length_drop in Hle.
  assert (copying from to src dst (j + length buf) j w1) as Hc1.
  { unfold copying. rewrite Hfds, lookup_insert_eq, lookup_insert_ne by done.
    rewrite advance_advance. repeat split; try done; lia. }
  destruct (Z.gtb_spec (Z.of_nat (length buf)) 0) as [Epos|Epos].
  - destruct (write_chunk fuel to buf 0 (Z.of_nat (length buf)) w1)
      as [[r1 w2]|] eqn:Ewc; [|done].
    apply (write_chunk_copying_any fuel from to src dst buf (j + length buf) Hne
             0 (Z.of_nat (length buf)) j w1) in Ewc as (jw' & Hc2 & Hr); try done; try lia.
    2:{ rewrite Nat2Z.id. simpl. rewrite drop_0, take_ge by done.
        replace (j + length buf - j)%nat with (length buf) by lia. done. }
    destruct Hr as [(-> & ->)|(-> & Hlt)]; simpl.
    + by apply (IH (j + length buf)%nat).
    + intros [= <- <-]. exists (j + length buf)%nat, jw'. split; [done|].
      right. right. done.
  - replace (Z.of_nat (length buf) <? 0) with false by lia.
    intros [= <- <-].
    assert (length buf = 0)%nat as Hz by lia.
    assert (drop j (unread src) = []) as Hd by (apply Heof; unfold BUFSZ; lia).
    apply (f_equal length) in Hd. rewrite length_drop in Hd. simpl in Hd.
    rewrite Hz, Nat.add_0_r in Hc1.
    exists j, j. split; [done|]. left. repeat split; lia.
Qed.

Lemma ul_copy_file_copying_any cfg fuel from to w src dst rc w' :
  from <> to ->
  w_fds w !! from = Some src -> w_fds w !! to = Some dst ->
  ul_copy_file cfg fuel from to w = Some (rc, w') ->
  exists jr jw, copying from to src dst jr jw w' /\
    (rc = 0 /\ jw = jr /\ jr = length (unread src) \/
     rc = -1 /\ jw = jr \/
     rc = -2 /\ (jw < jr)%nat).
Proof.
  intros Hne Hf Ht Hcopy.
  pose proof (copying_start _ _ _ _ _ Hf Ht) as Hc0.
  unfold ul_copy_file in Hcopy.
  destruct (HAVE_SENDFILE cfg);
    [|exact (copy_file_simple_copying_any _ _ _ _ _ Hne _ _ _ _ Hc0 Hcopy)].
  destruct (fstat from w) as [[[r isreg] size] w1] eqn:Efs.
  apply fstat_spec in Efs as (Hfds1 & _ & _ & _ & Hr).
  pose proof (copying_fds _ _ _ _ _ _ _ _ Hfds1 Hc0) as Hc1.
  destruct Hr as [->|(-> & o & Ho & Hsize & _)].
  { simpl in Hcopy. injection Hcopy as <- <-. exists 0%nat, 0%nat. split; [done|].
    right. left. done. }
  simpl in Hcopy.
  destruct isreg; simpl in Hcopy;
    [|exact (copy_file_simple_copying_any _ _ _ _ _ Hne _ _ _ _ Hc1 Hcopy)].
  destruct (sendfile_sized fuel from to _ w1) as [[ex w2]|] eqn:Esz; [|done].
  apply (sendfile_sized_copying _ _ _ _ _ Hne _ _ _ _ _ Hsize Hc1) in Esz.
  destruct ex.
  - destruct Esz as [j2 Hc2].
    destruct (sendfile_drain fuel from to w2) as [[ex3 w3]|] eqn:Edr; [|done].
    apply (sendfile_drain_copying _ _ _ _ _ Hne _ _ _ _ Hc2) in Edr.
    destruct ex3.
    + injection Hcopy as <- <-. eexists _, _. split; [exact Edr|]. left. done.
    + injection Hcopy as <- <-. eexists _, _. split; [exact Edr|]. left. done.
    + destruct Edr as [j3 Hc3].
      exact (copy_file_simple_copying_any _ _ _ _ _ Hne _ _ _ _ Hc3 Hcopy).
  - injection Hcopy as <- <-. eexists _, _. split; [exact Esz|]. left. done.
  - destruct Esz as [j2 Hc2].
    exact (copy_file_simple_copying_any _ _ _ _ _ Hne _ _ _ _ Hc2 Hcopy).
Qed.

(** Whatever ul_copy_file returns for two distinct open descriptors, the
    destination has received an initial part of what was left of the source,
    in order, written from its old offset on, and the source offset has moved
    over at least that much: all of it on return 0; on -1 (fstat or read
    failed) everything read so far was written; on -2 (a write failed)
    bytes were read from the source that never reached the destination. *)
Theorem ul_copy_file_partial cfg fuel from to w src dst rc w' :
  from <> to ->
  w_fds w !! from = Some src -> w_fds w !! to = Some dst ->
  ul_copy_file cfg fuel from to w = Some (rc, w') ->
  exists jr jw,
    (jw <= jr <= length (unread src))%nat /\
    w_fds w' !! from = Some (advance jr src) /\
    w_fds w' !! to = Some (put (take jw (unread src)) dst) /\
    (rc = 0 /\ jw = length (unread src) \/
     rc = -1 /\ jw = jr \/
     rc = -2 /\ (jw < jr)%nat).
Proof.
  intros Hne Hf Ht Hcopy.
  destruct (ul_copy_file_copying_any _ _ _ _ _ _ _ _ _ Hne Hf Ht Hcopy)
    as (jr & jw & (Hf' & Ht' & Hj) & Hrc).
  exists jr, jw. split; [lia|]. split; [done|]. split; [done|]. lia.
Qed.

Lemma ul_copy_file_partial_witness :
  let w := Sample.w_copy Sample.five 0 (Sample.script [Proceed 3; Proceed 2; Fault Enospc]) in
  let w' := snd (default (0, w) (ul_copy_file Sample.portable 9 3 4 w)) in
  ul_copy_file Sample.portable 9 3 4 w = Some (-2, w') /\
  exists jr jw,
    (jw <= jr <= 5)%nat /\
    w_fds w' !! 3 = Some (advance jr (Sample.file_of Sample.five 0)) /\
    w_fds w' !! 4 = Some (put (take jw Sample.five) (Sample.file_of [] 0)) /\
    (-2 = 0 /\ jw = 5%nat \/ -2 = -1 /\ jw = jr \/ -2 = -2 /\ (jw < jr)%nat).
Proof.
  intros w w'. split; [by vm_compute|].
  apply (ul_copy_file_partial Sample.portable 9 3 4 w (Sample.file_of Sample.five 0)
           (Sample.file_of [] 0) (-2) w'); [done|by vm_compute|by vm_compute|by vm_compute].
Defined.

(** ** Copying: what is left alone *)

Lemma only_touches_refl from to w : only_touches from to w w.
Proof. by repeat split. Qed.

Lemma only_touches_trans from to w1 w2 w3 :
  only_touches from to w1 w2 -> only_touches from to w2 w3 -> only_touches from to w1 w3.
Proof.
  intros (H1 & D1 & F1 & M1) (H2 & D2 & F2 & M2). repeat split; try congruence.
  - intros fd ? ?. rewrite H2, H1; done.
  - intros H. by apply D1, D2.
  - intros H. by apply D2, D1.
Qed.

Lemma only_touches_same from to w w' :
  w_fds w' = w_fds w -> w_fs w' = w_fs w -> w_umask w' = w_umask w ->
  only_touches from to w w'.
Proof. intros Hfds ? ?. unfold only_touches. rewrite Hfds. by repeat split. Qed.

(** An update of an open descriptor. *)
Lemma only_touches_update from to w w' fd o o' :
  fd = from \/ fd = to -> w_fds w !! fd = Some o ->
  w_fds w' = <[fd := o']> (w_fds w) -> w_fs w' = w_fs w -> w_umask w' = w_umask w ->
  only_touches from to w w'.
Proof.
  intros Hfd Ho Hfds ? ?. unfold only_touches. rewrite Hfds. repeat split; try done.
  - intros x ? ?. rewrite lookup_insert_ne; [done|]. destruct Hfd; congruence.
  - rewrite lookup_insert. case_decide; [subst; by rewrite Ho|done].
  - rewrite lookup_insert. case_decide; [subst; by eexists|done].
Qed.

Lemma read_touches from to count w nr buf w' :
  read from count w = (nr, buf, w') -> only_touches from to w w'.
Proof.
  unfold read; simpl.
  destruct (w_fds w !! from) as [o|] eqn:Ho;
    [|intros [= <- <- <-]; by apply only_touches_same].
  destruct (w_oracle w (w_clock w)) as [n|f];
    [|intros [= <- <- <-]; by apply only_touches_same].
  intros [= <- <- <-]. eapply (only_touches_update from to w _ from); try done. by left.
Qed.

Lemma write_touches from to bytes w nw w' :
  write to bytes w = (nw, w') -> only_touches from to w w'.
Proof.
  unfold write, fail; simpl.
  destruct (w_fds w !! to) as [o|] eqn:Ho;
    [|intros [= <- <-]; by apply only_touches_same].
  destruct (w_oracle w (w_clock w)) as [n|f];
    [|intros [= <- <-]; by apply only_touches_same].
  intros [= <- <-]. eapply (only_touches_update from to w _ to); try done. by right.
Qed.

Lemma fstat_touches from to w r isreg size w' :
  fstat from w = (r, isreg, size, w') -> only_touches from to w w'.
Proof.
  unfold fstat; simpl.
  destruct (w_fds w !! from) as [o|];
    [destruct (w_oracle w (w_clock w))|]; intros [= <- <- <- <-];
    by apply only_touches_same.
Qed.

Lemma sendfile_touches from to count w nw w' :
  sendfile to from count w = (nw, w') -> only_touches from to w w'.
Proof.
  unfold sendfile, fail; simpl.
  destruct (w_fds w !! from) as [i|] eqn:Hi;
    [|intros [= <- <-]; by apply only_touches_same].
  destruct (w_fds w !! to) as [o|] eqn:Ho;
    [|intros [= <- <-]; by apply only_touches_same].
  destruct (w_oracle w (w_clock w)) as [n|f];
    [|intros [= <- <-]; by apply only_touches_same].
  destruct (of_kind i); [|intros [= <- <-]; by apply only_touches_same].
  match goal with
  | |- context [match ?m !! to with _ => _ end] => destruct (m !! to) as [o'|] eqn:Ho'
  end.
  - intros [= <- <-]. eapply only_touches_trans.
    + eapply (only_touches_update from to w (set_fds <[from := _]> w) from);
        [by left|exact Hi|reflexivity|done|done].
    + eapply (only_touches_update from to _ _ to); [by right|exact Ho'|reflexivity|done|done].
  - intros [= <- <-].
    eapply (only_touches_update from to w _ from); [by left|exact Hi|reflexivity|done|done].
Qed.

Lemma write_chunk_touches fuel from to buf :
  forall off nr w r w',
  write_chunk fuel to buf off nr w = Some (r, w') -> only_touches from to w w'.
Proof.
  induction fuel as [|fuel IH]; intros off nr w r w'; simpl.
  - destruct (nr >? 0); [done|]. intros [= <- <-]. apply only_touches_refl.
  - destruct (nr >? 0); [|intros [= <- <-]; apply only_touches_refl].
    destruct (write _ _ _) as [nw w1] eqn:Ew.
    apply (write_touches from) in Ew.
    destruct (nw <? 0); [by intros [= <- <-]|].
    intros H%IH. by eapply only_touches_trans.
Qed.

Lemma copy_file_simple_touches fuel from to :
  forall w r w',
  copy_file_simple fuel from to w = Some (r, w') -> only_touches from to w w'.
Proof.
  induction fuel as [|fuel IH]; intros w r w'; [done|]. simpl.
  destruct (read from BUFSZ w) as [[nr buf] w1] eqn:Er.
  apply (read_touches from to) in Er.
  destruct (nr >? 0).
  - destruct (write_chunk fuel to buf 0 nr w1) as [[r1 w2]|] eqn:Ewc; [|done].
    apply (write_chunk_touches _ from) in Ewc.
    pose proof (only_touches_trans _ _ _ _ _ Er Ewc) as H2.
    destruct (r1 <? 0); [by intros [= <- <-]|].
    intros H%IH. by eapply only_touches_trans.
  - destruct (nr <? 0); by intros [= <- <-].
Qed.

Lemma sendfile_sized_touches fuel from to :
  forall left w ex w',
  sendfile_sized fuel from to left w = Some (ex, w') -> only_touches from to w w'.
Proof.
  induction fuel as [|fuel IH]; intros left w ex w'; simpl.
  - destruct (left =? 0); [|done]. intros [= <- <-]. apply only_touches_refl.
  - destruct (left =? 0); [intros [= <- <-]; apply only_touches_refl|].
    destruct (sendfile to from left w) as [nw w1] eqn:Es.
    apply sendfile_touches in Es.
    destruct (nw <? 0); [by intros [= <- <-]|].
    destruct (nw =? 0); [by intros [= <- <-]|].
    intros H%IH. by eapply only_touches_trans.
Qed.

Lemma sendfile_drain_touches fuel from to :
  forall w ex w',
  sendfile_drain fuel from to w = Some (ex, w') -> only_touches from to w w'.
Proof.
  induction fuel as [|fuel IH]; intros w ex w'; simpl; [done|].
  destruct (sendfile to from (1024 * 1024) w) as [nw w1] eqn:Es.
  apply sendfile_touches in Es.
  destruct (nw =? 0); simpl; [by intros [= <- <-]|].
  destruct (nw <? 0); [by intros [= <- <-]|].
  intros H%IH. by eapply only_touches_trans.
Qed.

(** ul_copy_file opens and closes no descriptor, touches none but [from] and
    [to], and leaves the name space and the creation mask alone, whatever it
    returns. *)
Theorem ul_copy_file_only_touches cfg fuel from to w rc w' :
  ul_copy_file cfg fuel from to w = Some (rc, w') ->
  (forall fd, fd <> from -> fd <> to -> w_fds w' !! fd = w_fds w !! fd) /\
  (forall fd, is_Some (w_fds w' !! fd) <-> is_Some (w_fds w !! fd)) /\
  w_fs w' = w_fs w /\ w_umask w' = w_umask w.
Proof.
  change (ul_copy_file cfg fuel from to w = Some (rc, w') -> only_touches from to w w').
  unfold ul_copy_file.
  destruct (HAVE_SENDFILE cfg); [|apply copy_file_simple_touches].
  destruct (fstat from w) as [[[r isreg] size] w1] eqn:Efs.
  pose proof (fstat_touches _ to _ _ _ _ _ Efs) as H1.
  destruct (r =? -1); [by intros [= <- <-]|].
  destruct isreg; simpl.
  2:{ intros H%copy_file_simple_touches. by eapply only_touches_trans. }
  destruct (sendfile_sized fuel from to size w1) as [[ex w2]|] eqn:Esz; [|done].
  apply sendfile_sized_touches in Esz.
  pose proof (only_touches_trans _ _ _ _ _ H1 Esz) as H2.
  destruct ex.
  - destruct (sendfile_drain fuel from to w2) as [[ex3 w3]|] eqn:Edr; [|done].
    apply sendfile_drain_touches in Edr.
    pose proof (only_touches_trans _ _ _ _ _ H2 Edr) as H3.
    destruct ex3; try by intros [= <- <-].
    intros H%copy_file_simple_touches. by eapply only_touches_trans.
  - by intros [= <- <-].
  - intros H%copy_file_simple_touches. by eapply only_touches_trans.
Qed.

Lemma ul_copy_file_only_touches_witness :
  let w := Sample.w_copy Sample.five 0 Sample.calm in
  let w' := snd (default (0, w) (ul_copy_file Sample.linux 9 3 4 w)) in
  w_fds w' !! 1 = Some Sample.tty /\ w_fs w' = w_fs w.
Proof.
  intros w w'.
  destruct (ul_copy_file_only_touches Sample.linux 9 3 4 w 0 w') as (Hfd & _ & Hfs & _);
    [by vm_compute|].
  split; [|exact Hfs]. by rewrite Hfd.
Defined.

(** ** Copying: descriptors that are not open, and a source at its end *)

Lemma quiet_step_refl w : quiet_step w w.
Proof. by repeat split. Qed.

Lemma quiet_step_trans w1 w2 w3 : quiet_step w1 w2 -> quiet_step w2 w3 -> quiet_step w1 w3.
Proof. intros (? & ? & ?) (? & ? & ?). repeat split; try congruence. lia. Qed.

Lemma no_fault_quiet w w1 : quiet_step w w1 -> no_fault w -> no_fault w1.
Proof. intros (_ & Ho & Hc) H t f Ht. rewrite Ho. apply H. lia. Qed.

Lemma read_at_eof from count w src :
  w_fds w !! from = Some src -> unread src = [] ->
  exists nr w1,
    read from count w = (nr, [], w1) /\ quiet_step w w1 /\
    (nr = 0 \/ nr = -1) /\ (no_fault w -> nr = 0).
Proof.
  intros Hsrc Heof. unfold read, next_event. cbn [w_fds w_oracle w_clock tick].
  rewrite Hsrc, Heof.
  destruct (w_oracle w (w_clock w)) as [n|f] eqn:Hev.
  - assert (moved n count [] = 0%nat) as -> by (unfold moved; simpl; lia).
    eexists _, _. split; [reflexivity|]. split; [|split; [by left|done]].
    unfold quiet_step; simpl. rewrite advance_0, insert_id by done. repeat split; lia.
  - eexists _, _. split; [reflexivity|]. split; [|split; [by right|]].
    + unfold quiet_step; simpl. repeat split; lia.
    + intros H. by destruct (H (w_clock w) f).
Qed.

Lemma sendfile_at_eof from to count w src :
  w_fds w !! from = Some src -> unread src = [] ->
  exists nw w1,
    sendfile to from count w = (nw, w1) /\ quiet_step w w1 /\ (nw = 0 \/ nw = -1).
Proof.
  intros Hsrc Heof. unfold sendfile, next_event, fail. cbn [w_fds w_oracle w_clock tick].
  rewrite Hsrc.
  destruct (w_fds w !! to) as [o|] eqn:Ho.
  2:{ eexists _, _. split; [reflexivity|]. split; [|by right].
      unfold quiet_step; simpl. repeat split; lia. }
  destruct (w_oracle w (w_clock w)) as [n|f].
  2:{ eexists _, _. split; [reflexivity|]. split; [|by right].
      unfold quiet_step; simpl. repeat split; lia. }
  destruct (of_kind src).
  2:{ eexists _, _. split; [reflexivity|]. split; [|by right].
      unfold quiet_step; simpl. repeat split; lia. }
  rewrite Heof. assert (moved n count [] = 0%nat) as -> by (unfold moved; simpl; lia).
  cbn [take length]. rewrite advance_0. cbn [w_fds set_fds tick].
  rewrite (insert_id (w_fds w) from src Hsrc), Ho.
  eexists _, _. split; [reflexivity|]. split; [|by left].
  unfold quiet_step; simpl.
  rewrite ?advance_0, ?put_nil, ?(insert_id _ from src Hsrc), ?(insert_id _ to o Ho).
  repeat split; lia.
Qed.

Lemma copy_file_simple_at_eof fuel from to w src :
  w_fds w !! from = Some src -> unread src = [] ->
  exists rc w1,
    copy_file_simple (S fuel) from to w = Some (rc, w1) /\ quiet_step w w1 /\
    (rc = 0 \/ rc = -1) /\ (no_fault w -> rc = 0).
Proof.
  intros Hsrc Heof. cbn [copy_file_simple].
  destruct (read_at_eof from BUFSZ w src Hsrc Heof) as (nr & w1 & -> & Hq & Hnr & Hnf).
  destruct Hnr as [-> | ->]; simpl.
  - exists 0, w1. split; [done|]. split; [done|]. split; [by left|done].
  - exists (-1), w1. split; [done|]. split; [done|]. split; [by right|exact Hnf].
Qed.

(** With the source at its end ul_copy_file returns after one turn of each
    loop, with 0 or -1 and never -2, and leaves the whole descriptor table as
    it was -- the destination is not written to and need not even be open;
    when the environment makes no call fail it returns 0. *)
Theorem ul_copy_file_at_eof cfg fuel from to w src :
  w_fds w !! from = Some src -> unread src = [] ->
  exists rc w',
    ul_copy_file cfg (S fuel) from to w = Some (rc, w') /\
    (rc = 0 \/ rc = -1) /\ w_fds w' = w_fds w /\ (no_fault w -> rc = 0).
Proof.
  intros Hsrc Heof.
  assert (forall w0, quiet_step w w0 ->
            exists rc w',
              copy_file_simple (S fuel) from to w0 = Some (rc, w') /\
              (rc = 0 \/ rc = -1) /\ w_fds w' = w_fds w /\ (no_fault w -> rc = 0)) as Hsimple.
  { intros w0 Hq0. pose proof Hq0 as (Hfds0 & _).
    destruct (copy_file_simple_at_eof fuel from to w0 src) as (rc & w1 & -> & Hq1 & Hrc & Hnf);
      [by rewrite Hfds0|done|].
    exists rc, w1. split; [done|]. split; [done|]. split.
    - destruct Hq1 as (-> & _). done.
    - intros H. apply Hnf. by eapply no_fault_quiet. }
  unfold ul_copy_file.
  destruct (HAVE_SENDFILE cfg); [|apply Hsimple, quiet_step_refl].
  destruct (fstat from w) as [[[r isreg] size] w1] eqn:Efs.
  assert (quiet_step w w1 /\ (r = -1 \/ r = 0) /\ (no_fault w -> r = 0)) as (Hq1 & Hr & Hrnf).
  { unfold fstat, next_event in Efs. cbn [w_fds w_oracle w_clock tick] in Efs.
    rewrite Hsrc in Efs. destruct (w_oracle w (w_clock w)) as [n|f] eqn:Hev;
      injection Efs as <- <- <- <-.
    - split; [unfold quiet_step; simpl; repeat split; lia|]. split; [by right|done].
    - split; [unfold quiet_step; simpl; repeat split; lia|]. split; [by left|].
      intros H. by destruct (H (w_clock w) f). }
  destruct Hr as [-> | ->].
  { simpl. exists (-1), w1. split; [done|]. split; [by right|].
    split; [by destruct Hq1|]. intros H. by apply Hrnf in H. }
  change (0 =? -1) with false. cbn iota.
  destruct isreg; cbn [negb]; [|by apply Hsimple].
  assert (exists ex w2, sendfile_sized (S fuel) from to size w1 = Some (ex, w2) /\
                        quiet_step w w2) as (ex & w2 & -> & Hq2).
  { cbn [sendfile_sized]. destruct (size =? 0); [by exists LoopDone, w1|].
    destruct (sendfile_at_eof from to size w1 src) as (nw & w2 & -> & Hq & Hnw);
      [by destruct Hq1 as (-> & _)|done|].
    pose proof (quiet_step_trans _ _ _ Hq1 Hq).
    destruct Hnw as [-> | ->]; simpl; by eexists _, _. }
  destruct ex; [|exists 0, w2; split; [done|]; split; [by left|];
                 split; [by destruct Hq2|done]|by apply Hsimple].
  assert (exists ex w3, sendfile_drain (S fuel) from to w2 = Some (ex, w3) /\
                        quiet_step w w3 /\ ex <> ReturnZero) as (ex & w3 & -> & Hq3 & Hex).
  { cbn [sendfile_drain].
    destruct (sendfile_at_eof from to (1024 * 1024) w2 src) as (nw & w3 & -> & Hq & Hnw);
      [by destruct Hq2 as (-> & _)|done|].
    pose proof (quiet_step_trans _ _ _ Hq2 Hq).
    destruct Hnw as [-> | ->]; simpl; by eexists _, _. }
  destruct ex; [|done|by apply Hsimple].
  exists 0, w3. split; [done|]. split; [by left|]. split; [by destruct Hq3|done].
Qed.

Lemma ul_copy_file_at_eof_witness :
  let w := Sample.w_copy Sample.five 5 Sample.calm in
  exists rc w',
    ul_copy_file Sample.linux 1 3 9 w = Some (rc, w') /\
    (rc = 0 \/ rc = -1) /\ w_fds w' = w_fds w /\ (no_fault w -> rc = 0).
Proof.
  intros w. apply (ul_copy_file_at_eof Sample.linux 0 3 9 w (Sample.file_of Sample.five 5));
    by vm_compute.
Defined.

(** ul_copy_file from a descriptor that is not open returns -1 with errno
    EBADF in either build, without any read or write and with the descriptor
    table unchanged. *)
Theorem ul_copy_file_bad_source cfg fuel from to w :
  w_fds w !! from = None ->
  exists w',
    ul_copy_file cfg (S fuel) from to w = Some (-1, w') /\
    w_errno w' = EBADF /\ w_fds w' = w_fds w /\ w_io w' = w_io w.
Proof.
  intros Hsrc. unfold ul_copy_file. cbn [copy_file_simple].
  unfold fstat, read, next_event. cbn [w_fds w_oracle w_clock tick]. rewrite Hsrc.
  destruct (HAVE_SENDFILE cfg); simpl; by eexists.
Qed.

Lemma ul_copy_file_bad_source_witness :
  exists w',
    ul_copy_file Sample.linux 1 8 1 Sample.w_std = Some (-1, w') /\
    w_errno w' = EBADF /\ w_fds w' = w_fds Sample.w_std /\ w_io w' = w_io Sample.w_std.
Proof. by apply (ul_copy_file_bad_source Sample.linux 0 8 1 Sample.w_std). Defined.

(** ul_copy_file to a descriptor that is not open, from a source with bytes
    left and with no failure from outside, returns -2 with errno EBADF in
    either build, and the source offset has moved over the bytes of the
    first read: they are consumed although nothing could be written. *)
Theorem ul_copy_file_bad_destination cfg fuel from to w src :
  no_fault w ->
  w_fds w !! from = Some src -> unread src <> [] -> w_fds w !! to = None ->
  exists k w',
    ul_copy_file cfg (S (S fuel)) from to w = Some (-2, w') /\
    w_errno w' = EBADF /\ (0 < k)%nat /\
    w_fds w' = <[from := advance k src]> (w_fds w).
Proof.
  intros Hnf Hsrc Hun Hto.
  assert (from <> to) as Hne by congruence.
  assert (forall w0, quiet_step w w0 ->
            exists k w',
              copy_file_simple (S (S fuel)) from to w0 = Some (-2, w') /\
              w_errno w' = EBADF /\ (0 < k)%nat /\
              w_fds w' = <[from := advance k src]> (w_fds w)) as Hsimple.
  { intros w0 Hq. pose proof (no_fault_quiet _ _ Hq Hnf) as Hnf0.
    destruct Hq as (Hfds0 & _).
    cbn [copy_file_simple]. unfold read, next_event. cbn [w_fds w_oracle w_clock tick].
    rewrite Hfds0, Hsrc.
    destruct (w_oracle w0 (w_clock w0)) as [n|f] eqn:Hev; [|by destruct (Hnf0 (w_clock w0) f)].
    pose proof (moved_pos n BUFSZ (unread src) ltac:(done) Hun) as Hm.
    pose proof (moved_le n BUFSZ (unread src)) as [Hm1 _].
    set (chunk := take (moved n BUFSZ (unread src)) (unread src)).
    assert (length chunk = moved n BUFSZ (unread src)) as Hlen
      by (unfold chunk; rewrite length_take; lia).
    replace (Z.of_nat (length chunk) >? 0) with true by lia.
    cbn [write_chunk]. replace (Z.of_nat (length chunk) >? 0) with true by lia.
    unfold write, next_event, fail. cbn [w_fds w_oracle w_clock tick set_fds log_io].
    rewrite Hfds0, lookup_insert_ne, Hto by done.
    cbn [Z.ltb Z.compare]. exists (length chunk). eexists. split; [reflexivity|].
    split; [done|]. split; [lia|]. simpl. by rewrite ?Hfds0. }
  unfold ul_copy_file.
  destruct (HAVE_SENDFILE cfg); [|apply Hsimple, quiet_step_refl].
  unfold fstat, next_event. cbn [w_fds w_oracle w_clock tick]. rewrite Hsrc.
  destruct (w_oracle w (w_clock w)) as [n|f] eqn:Hev; [|by destruct (Hnf (w_clock w) f)].
  cbn [Z.eqb negb].
  assert (quiet_step w (tick w)) as Hq1 by (unfold quiet_step; simpl; repeat split; lia).
  destruct (of_kind src); cbn [negb]; [|by apply Hsimple].
  cbn [sendfile_sized].
  destruct (Z.eqb_spec (Z.of_nat n) 0) as [_|_].
  - cbn [sendfile_drain].
    unfold sendfile at 1, next_event, fail. cbn [w_fds w_oracle w_clock tick].
    rewrite Hsrc, Hto. cbn [Z.eqb Z.ltb Z.compare negb].
    apply Hsimple. unfold quiet_step; simpl. repeat split; lia.
  - unfold sendfile at 1, next_event, fail. cbn [w_fds w_oracle w_clock tick].
    rewrite Hsrc, Hto. cbn [Z.ltb Z.compare].
    apply Hsimple. unfold quiet_step; simpl. repeat split; lia.
Qed.

Lemma ul_copy_file_bad_destination_witness :
  let w := Sample.w_copy Sample.five 0 Sample.calm in
  exists k w',
    ul_copy_file Sample.linux 2 3 9 w = Some (-2, w') /\
    w_errno w' = EBADF /\ (0 < k)%nat /\
    w_fds w' = <[3 := advance k (Sample.file_of Sample.five 0)]> (w_fds w).
Proof.
  intros w.
  apply (ul_copy_file_bad_destination Sample.linux 0 3 9 w (Sample.file_of Sample.five 0));
    by vm_compute.
Defined.
